(** * styly.ai background service worker: cache, fetcher, extractor, composer

    A shallow embedding of the second (caching) revision of the background
    service worker: [generateUrlHash], [getCachedProductImage],
    [cacheProductImage], [cleanupOldCachedImages], [getCacheInfo],
    [convertUrlToBase64], [generateOutfitImage],
    [extractActualProductImage], and the methods [setupMessageListener],
    [setupCacheCleanup], [clearProductImageCache], [preloadProductImages],
    [handleStyleMeRequestWithData] and [retrieveStoredData] of
    [StyleMeBackgroundService].

    The browser platform (network, [chrome.storage.local], clock, URL
    parser) is an environment of oracles [Env]; every [await] of the source
    is one step of a state-and-exception monad over a [World] that holds the
    storage area, the registered interval timers and the log of effects. *)

From Stdlib Require Import ZArith Ascii String List Lia.
From stdpp Require Import gmap strings list fin_maps pretty.

#[local] Set Warnings "-register-all".
Local Open Scope string_scope.
Local Open Scope Z_scope.

(** ** JavaScript strings *)

(** Strings are sequences of code units below 256, which is exact for the
    ASCII URLs, data URLs and storage keys the service handles. *)

Fixpoint startsWith (s p : string) {struct p} : bool :=
  match p, s with
  | EmptyString, _ => true
  | String c p', String d s' => if Ascii.eqb c d then startsWith s' p' else false
  | String _ _, EmptyString => false
  end.

Arguments startsWith : simpl never.

Fixpoint drop_chars (n : nat) (s : string) : string :=
  match n, s with
  | O, _ => s
  | S n', String _ s' => drop_chars n' s'
  | S _, EmptyString => EmptyString
  end.

Definition endsWith (s p : string) : bool :=
  startsWith (String.rev s) (String.rev p).

Definition lower_char (c : ascii) : ascii :=
  let n := N_of_ascii c in
  if ((65 <=? n) && (n <=? 90))%N then ascii_of_N (n + 32) else c.

Fixpoint toLowerCase (s : string) : string :=
  match s with
  | EmptyString => EmptyString
  | String c s' => String (lower_char c) (toLowerCase s')
  end.

Definition is_empty (s : string) : bool :=
  match s with EmptyString => true | _ => false end.

(** [s.includes(t)], used to say that a message names an item. *)
Fixpoint includes (s t : string) : bool :=
  startsWith s t ||
  match s with
  | EmptyString => false
  | String _ s' => includes s' t
  end.

(** The regular expression class [\s] on code units below 256. *)
Definition is_js_space (c : ascii) : bool :=
  let n := N_of_ascii c in
  ((9 <=? n) && (n <=? 13) || (n =? 32) || (n =? 160))%N.

(** Line terminators, which the regular expression [.] does not match. *)
Definition is_line_terminator (c : ascii) : bool :=
  let n := N_of_ascii c in ((n =? 10) || (n =? 13))%N.

(** ** JavaScript values: stored entries and parsed JSON bodies *)

(** Numbers are integers: the timestamps the cache stores. A number of a
    JSON body is only ever tested for being positive or for being falsy. *)
Inductive JsVal :=
| JUndefined
| JNull
| JBool (b : bool)
| JNum (n : Z)
| JStr (s : string)
| JArr (items : list JsVal)
| JObj (fields : list (string * JsVal)).

(** ToBoolean. *)
Definition truthy (v : JsVal) : bool :=
  match v with
  | JUndefined | JNull => false
  | JBool b => b
  | JNum n => negb (n =? 0)
  | JStr s => negb (is_empty s)
  | JArr _ | JObj _ => true
  end.

Fixpoint assoc_lookup (k : string) (l : list (string * JsVal)) : JsVal :=
  match l with
  | [] => JUndefined
  | (k', v) :: l' => if String.eqb k k' then v else assoc_lookup k l'
  end.

(** [v.name] for a value that is neither [null] nor [undefined]; the names
    read by the service ([image], [timestamp], [url], [choices], [message],
    [content], [images], [image_url]) are own properties of plain objects
    only. *)
Definition get_prop (v : JsVal) (name : string) : JsVal :=
  match v with
  | JObj fields => assoc_lookup name fields
  | _ => JUndefined
  end.

(** [v[0]], likewise: the first element of an array, the first code unit
    of a string, the property [0] of an object. *)
Definition get_first (v : JsVal) : JsVal :=
  match v with
  | JArr (x :: _) => x
  | JStr (String c _) => JStr (String c EmptyString)
  | JObj fields => assoc_lookup "0" fields
  | _ => JUndefined
  end.

(** [v.length], likewise. *)
Definition get_length (v : JsVal) : JsVal :=
  match v with
  | JArr items => JNum (Z.of_nat (length items))
  | JStr s => JNum (Z.of_nat (String.length s))
  | JObj fields => assoc_lookup "length" fields
  | _ => JUndefined
  end.

(** ** Errors and results *)

Inductive JsError :=
| Error (message : string)
| TypeError (message : string)
| SyntaxError (message : string).

Definition error_message (e : JsError) : string :=
  match e with
  | Error m | TypeError m | SyntaxError m => m
  end.

Inductive Res (A : Type) :=
| Ok (a : A)
| Throw (e : JsError).
Arguments Ok {A} a.
Arguments Throw {A} e.

(** [v.name] in general: reading a property of [null] or [undefined]
    throws. *)
Definition get_prop_checked (v : JsVal) (name : string) : Res JsVal :=
  match v with
  | JUndefined =>
      Throw (TypeError ("Cannot read properties of undefined (reading '"
                        +:+ name +:+ "')"))
  | JNull =>
      Throw (TypeError ("Cannot read properties of null (reading '" +:+ name +:+ "')"))
  | _ => Ok (get_prop v name)
  end.

(** [v[0]] in general. *)
Definition get_first_checked (v : JsVal) : Res JsVal :=
  match v with
  | JUndefined => Throw (TypeError "Cannot read properties of undefined (reading '0')")
  | JNull => Throw (TypeError "Cannot read properties of null (reading '0')")
  | _ => Ok (get_first v)
  end.

Definition res_bind {A B} (r : Res A) (k : A -> Res B) : Res B :=
  match r with
  | Ok a => k a
  | Throw e => Throw e
  end.

(** ** The platform *)

(** The two request shapes sent to the synthesis endpoint. The fixed prompt
    text, model name and temperature are constants of the source; a request
    is determined by its kind and the values spliced into it. *)
Inductive Request :=
| ExtractRequest (apiKey productImageBase64 productName : string)
| OutfitRequest (apiKey currentBaseImageBase64 actualProductImageBase64
                 productName : string).

Inductive Event :=
| EvFetch (imageUrl : string)
| EvPost (req : Request)
| EvStorageGet (keys : option (list string))
| EvStorageSet (key : string) (value : JsVal)
| EvStorageRemove (keys : list string)
| EvSetInterval (period : Z).

Record Blob := { blob_type : string; blob_base64 : string }.

Record FetchResponse := {
  resp_ok : bool;
  resp_status : Z;
  resp_content_type : option string;
  resp_blob : Blob
}.

Inductive FetchOutcome :=
| FetchRejected (e : JsError)
| FetchResolved (r : FetchResponse).

Record ApiResponse := {
  api_ok : bool;
  api_status : Z;
  api_text : string;
  (** [response.json()]: the parsed body, whatever its shape, or [None]
      when the body is not JSON. *)
  api_json : option JsVal
}.

Inductive PostOutcome :=
| PostRejected (e : JsError)
| PostResolved (r : ApiResponse).

(** The oracles. Network and storage behaviour may depend on everything
    that happened before (the log, newest event first). *)
Record Env := {
  net_fetch : list Event -> string -> FetchOutcome;
  net_post : list Event -> Request -> PostOutcome;
  (** [Some e]: the next [chrome.storage.local] call rejects with [e]. *)
  storage_fault : list Event -> option JsError;
  (** [Date.now()]. *)
  clock : list Event -> Z;
  (** [new URL(u).pathname]. *)
  url_pathname : string -> Res string;
  (** ToNumber on values that are not numbers; [None] is NaN. *)
  to_number : JsVal -> option Z
}.

(** What an interval timer runs. *)
Inductive Task :=
| CleanupTask.

Record World := {
  storage : gmap string JsVal;
  timers : list (Z * Task);
  trace : list Event
}.

Definition log (e : Event) (w : World) : World :=
  {| storage := storage w; timers := timers w; trace := e :: trace w |}.

Definition set_storage (m : gmap string JsVal) (w : World) : World :=
  {| storage := m; timers := timers w; trace := trace w |}.

Definition add_timer (t : Z * Task) (w : World) : World :=
  {| storage := storage w; timers := timers w ++ [t]; trace := trace w |}.

(** The effects in the order they happened. *)
Definition history (w : World) : list Event := rev (trace w).

Definition is_post (e : Event) : bool :=
  match e with EvPost _ => true | _ => false end.

Definition is_fetch (e : Event) : bool :=
  match e with EvFetch _ => true | _ => false end.

(** Number of calls made to the remote synthesis endpoint so far. *)
Definition remote_calls (w : World) : nat :=
  length (filter (fun e => is_post e = true) (trace w)).

Definition image_fetches (w : World) : nat :=
  length (filter (fun e => is_fetch e = true) (trace w)).

(** ** The monad of asynchronous code *)

Definition M (A : Type) : Type := World -> Res A * World.

Definition ret {A} (a : A) : M A := fun w => (Ok a, w).

Definition throw {A} (e : JsError) : M A := fun w => (Throw e, w).

Definition bind {A B} (m : M A) (k : A -> M B) : M B :=
  fun w =>
    match m w with
    | (Ok a, w') => k a w'
    | (Throw e, w') => (Throw e, w')
    end.

(** [try { m } catch (error) { h error }]. *)
Definition try_catch {A} (m : M A) (h : JsError -> M A) : M A :=
  fun w =>
    match m w with
    | (Ok a, w') => (Ok a, w')
    | (Throw e, w') => h e w'
    end.

Definition lift_res {A} (r : Res A) : M A := fun w => (r, w).

(** [let! x := m in k] is [const x = await m; k]. *)
Notation "'let!' x ':=' m 'in' k" := (bind m (fun x => k))
  (at level 10, x name, m at level 100, k at level 200,
   format "'[v' 'let!'  x  ':='  m  'in' '/' k ']'").
Notation "'do!' m 'in' k" := (bind m (fun _ => k))
  (at level 10, m at level 100, k at level 200,
   format "'[v' 'do!'  m  'in' '/' k ']'").

(** ** Platform primitives *)

Section Service.

Variable E : Env.

(** [chrome.storage.local.get(keys)]; [None] stands for [get(null)], which
    reads the whole area. *)
Definition storage_get (keys : option (list string)) : M (gmap string JsVal) :=
  fun w =>
    let w' := log (EvStorageGet keys) w in
    match storage_fault E (trace w) with
    | Some e => (Throw e, w')
    | None =>
        (Ok (match keys with
             | None => storage w
             | Some ks => filter (fun kv => kv.1 ∈ ks) (storage w)
             end), w')
    end.

(** [chrome.storage.local.set({ [key]: value })]. *)
Definition storage_set (key : string) (value : JsVal) : M unit :=
  fun w =>
    let w' := log (EvStorageSet key value) w in
    match storage_fault E (trace w) with
    | Some e => (Throw e, w')
    | None => (Ok tt, set_storage (<[key := value]> (storage w)) w')
    end.

(** [chrome.storage.local.remove(keys)]. *)
Definition storage_remove (keys : list string) : M unit :=
  fun w =>
    let w' := log (EvStorageRemove keys) w in
    match storage_fault E (trace w) with
    | Some e => (Throw e, w')
    | None => (Ok tt, set_storage (foldr delete (storage w) keys) w')
    end.

(** [Date.now()]. *)
Definition date_now : M Z := fun w => (Ok (clock E (trace w)), w).

(** [fetch(imageUrl)]. *)
Definition fetch_image (imageUrl : string) : M FetchResponse :=
  fun w =>
    let w' := log (EvFetch imageUrl) w in
    match net_fetch E (trace w) imageUrl with
    | FetchRejected e => (Throw e, w')
    | FetchResolved r => (Ok r, w')
    end.

(** [fetch('https://openrouter.ai/api/v1/chat/completions', { method:
    'POST', ... body: JSON.stringify(request) })]. *)
Definition post_request (req : Request) : M ApiResponse :=
  fun w =>
    let w' := log (EvPost req) w in
    match net_post E (trace w) req with
    | PostRejected e => (Throw e, w')
    | PostResolved r => (Ok r, w')
    end.

(** [response.json()]. *)
Definition response_json (r : ApiResponse) : Res JsVal :=
  match api_json r with
  | None => Throw (SyntaxError "Unexpected token in JSON")
  | Some data => Ok data
  end.

(** [data.choices[0].message]. *)
Definition first_message (data : JsVal) : Res JsVal :=
  res_bind (get_prop_checked data "choices") (fun choices =>
  res_bind (get_first_checked choices) (fun choice =>
  get_prop_checked choice "message")).

(** [x > 0]: ToNumber, then the comparison; NaN compares false. *)
Definition js_positive (x : JsVal) : bool :=
  match x with
  | JUndefined | JNull => false
  | JBool b => b
  | JNum n => 0 <? n
  | v => match to_number E v with
         | Some n => 0 <? n
         | None => false
         end
  end.

(** ** Content cache *)

(** ToInt32. *)
Definition to_int32 (z : Z) : Z :=
  let m := z mod 2 ^ 32 in
  if m <? 2 ^ 31 then m else m - 2 ^ 32.

Definition digit36 (d : Z) : ascii :=
  if d <? 10 then ascii_of_N (Z.to_N (48 + d)) else ascii_of_N (Z.to_N (87 + d)).

(** [n.toString(36)] for a non-negative integer; the fuel bounds the number
    of digits. *)
Fixpoint toString36_go (fuel : nat) (n : Z) (acc : string) : string :=
  match fuel with
  | O => acc
  | S fuel' =>
      let acc' := String (digit36 (n mod 36)) acc in
      if n <? 36 then acc' else toString36_go fuel' (n / 36) acc'
  end.

(** [Math.abs] of a 32-bit integer is at most [2^31 < 36^6]: seven digits
    of fuel are never exhausted. *)
Definition toString36 (n : Z) : string := toString36_go 7 n "".

(** [a << n] and [a & b] on numbers: both operands go through ToInt32. *)
Definition js_shl (a : Z) (n : Z) : Z := to_int32 (Z.shiftl (to_int32 a) n).

Definition js_and (a b : Z) : Z := Z.land (to_int32 a) (to_int32 b).

Fixpoint generateUrlHash_loop (url : string) (hash : Z) : Z :=
  match url with
  | EmptyString => hash
  | String c url' =>
      let char := Z.of_N (N_of_ascii c) in
      (* hash = (hash << 5) - hash + char *)
      let hash1 := js_shl hash 5 - hash + char in
      (* hash = hash & hash *)
      let hash2 := js_and hash1 hash1 in
      generateUrlHash_loop url' hash2
  end.

Definition generateUrlHash (url : string) : string :=
  toString36 (Z.abs (generateUrlHash_loop url 0)).

Definition cache_prefix : string := "productImage_".

Definition cacheKey_of (productImageUrl : string) : string :=
  cache_prefix +:+ generateUrlHash productImageUrl.

(** What [getCachedProductImage] resolves to when it is not [null]: the
    stored object [result[cacheKey]], whose [image] property was checked to
    be a string. *)
Record CachedImage := {
  cached_image : string;
  cached_object : JsVal
}.

(** [result[cacheKey]] on the object returned by [storage.get]. *)
Definition js_index (result : gmap string JsVal) (key : string) : JsVal :=
  match result !! key with
  | Some value => value
  | None => JUndefined
  end.

Definition getCachedProductImage (productImageUrl : string)
  : M (option CachedImage) :=
  try_catch
    (let urlHash := generateUrlHash productImageUrl in
     let cacheKey := cache_prefix +:+ urlHash in
     let! result := storage_get (Some [cacheKey]) in
     let entry := js_index result cacheKey in
     if truthy entry && truthy (get_prop entry "image") then
       match get_prop entry "image" with
       | JStr image =>
           if startsWith image "data:" then
             ret (Some {| cached_image := image; cached_object := entry |})
           else
             do! storage_remove [cacheKey] in ret None
       | _ => do! storage_remove [cacheKey] in ret None
       end
     else ret None)
    (fun error => ret None).

Definition cacheProductImage (productImageUrl base64Image : string) : M unit :=
  try_catch
    (let urlHash := generateUrlHash productImageUrl in
     let cacheKey := cache_prefix +:+ urlHash in
     let! timestamp := date_now in
     let cacheData :=
       JObj [("image", JStr base64Image);
             ("timestamp", JNum timestamp);
             ("url", JStr productImageUrl)] in
     storage_set cacheKey cacheData)
    (fun error => ret tt).

(** [now - value.timestamp > maxAge]; a non-number is converted first and
    NaN compares false. *)
Definition age_exceeds (now : Z) (timestamp : JsVal) (maxAge : Z) : bool :=
  match timestamp with
  | JNum t => now - t >? maxAge
  | v => match to_number E v with
         | Some t => now - t >? maxAge
         | None => false
         end
  end.

(** The loop over [Object.entries(result)]. *)
Fixpoint cleanup_scan (entries : list (string * JsVal)) (now maxAge : Z)
    (keysToRemove : list string) : Res (list string) :=
  match entries with
  | [] => Ok keysToRemove
  | (key, value) :: rest =>
      if startsWith key cache_prefix then
        match get_prop_checked value "timestamp" with
        | Throw e => Throw e
        | Ok timestamp =>
            if truthy timestamp && age_exceeds now timestamp maxAge
            then cleanup_scan rest now maxAge (keysToRemove ++ [key])
            else cleanup_scan rest now maxAge keysToRemove
        end
      else cleanup_scan rest now maxAge keysToRemove
  end.

Definition default_maxAge : Z := 24 * 60 * 60 * 1000.

(** [maxAge = None] is a call without argument, which takes the default. *)
Definition cleanupOldCachedImages (maxAge : option Z) : M unit :=
  let maxAge := default default_maxAge maxAge in
  try_catch
    (let! result := storage_get None in
     let! now := date_now in
     let! keysToRemove := lift_res (cleanup_scan (map_to_list result) now maxAge []) in
     if (0 <? Z.of_nat (length keysToRemove))
     then storage_remove keysToRemove
     else ret tt)
    (fun error => ret tt).

Record CacheInfo := {
  totalCachedImages : Z;
  validCachedImages : Z;
  totalSizeBytes : Z
}.

(** [item && item.image && typeof item.image === 'string' &&
    item.image.startsWith('data:')]. *)
Definition valid_cached_item (item : JsVal) : option string :=
  if truthy item && truthy (get_prop item "image") then
    match get_prop item "image" with
    | JStr image => if startsWith image "data:" then Some image else None
    | _ => None
    end
  else None.

(** [Math.round(n * 0.75)] on a non-negative integer. *)
Definition estimated_size (image : string) : Z :=
  (3 * Z.of_nat (String.length image) + 2) / 4.

(** The integer fields of the summary; the megabyte and kilobyte figures
    and the per-entry details are display values derived from them. *)
Definition getCacheInfo : M CacheInfo :=
  try_catch
    (let! result := storage_get None in
     let cacheKeys :=
       filter (fun kv => startsWith kv.1 cache_prefix = true) (map_to_list result) in
     let valid := omap (fun kv => valid_cached_item kv.2) cacheKeys in
     ret {| totalCachedImages := Z.of_nat (length cacheKeys);
            validCachedImages := Z.of_nat (length valid);
            totalSizeBytes := foldr (fun image acc => estimated_size image + acc) 0 valid |})
    (fun error => throw error).

(** ** Image fetcher *)

(** [FileReader.readAsDataURL]: [data:<mime>;base64,<data>]. *)
Definition readAsDataURL (b : Blob) : string :=
  "data:" +:+
  (if is_empty (blob_type b) then "application/octet-stream" else blob_type b)
  +:+ ";base64," +:+ blob_base64 b.

(** After [^data:], the lazy [.*?] followed by [;base64,]: what is left of
    the string behind the first marker, if no line terminator comes first. *)
Fixpoint after_base64_marker (s : string) : option string :=
  if startsWith s ";base64," then Some (drop_chars 8 s)
  else
    match s with
    | EmptyString => None
    | String c s' =>
        if is_line_terminator c then None else after_base64_marker s'
    end.

(** [base64.replace(/^data:.*?;base64,/, replacement)]; a MIME type has no
    [$], so the replacement is inserted as it is. *)
Definition replace_data_prefix (base64 replacement : string) : string :=
  if startsWith base64 "data:" then
    match after_base64_marker (drop_chars 5 base64) with
    | Some rest => replacement +:+ rest
    | None => base64
    end
  else base64.

Definition mime_from_pathname (pathname : string) : string :=
  if endsWith pathname ".jpg" || endsWith pathname ".jpeg" then "image/jpeg"
  else if endsWith pathname ".png" then "image/png"
  else if endsWith pathname ".webp" then "image/webp"
  else if endsWith pathname ".gif" then "image/gif"
  else "image/jpeg".

Definition mime_from_url (imageUrl : string) : M string :=
  let! pathname := lift_res (url_pathname E imageUrl) in
  ret (mime_from_pathname (toLowerCase pathname)).

Definition convertUrlToBase64 (imageUrl : string) : M string :=
  try_catch
    (let! response := fetch_image imageUrl in
     if negb (resp_ok response) then
       throw (Error ("Failed to fetch image: " +:+ pretty (resp_status response)))
     else
       let base64 := readAsDataURL (resp_blob response) in
       let! mimeType :=
         match resp_content_type response with
         | Some m => if is_empty m then mime_from_url imageUrl else ret m
         | None => mime_from_url imageUrl
         end in
       let result :=
         if negb (startsWith base64 ("data:" +:+ mimeType))
         then replace_data_prefix base64 ("data:" +:+ mimeType +:+ ";base64,")
         else base64 in
       ret result)
    (fun error => throw error).

(** ** Composition service client: reading an image out of a response *)

Fixpoint take_non_space (s : string) : string :=
  match s with
  | EmptyString => EmptyString
  | String c s' => if is_js_space c then EmptyString else String c (take_non_space s')
  end.

(** A match of [https?:\/\/[^\s]+] that starts at the head of [s]. *)
Definition url_match_here (s : string) : option string :=
  if startsWith s "https://" then
    let body := take_non_space (drop_chars 8 s) in
    if is_empty body then None else Some ("https://" +:+ body)
  else if startsWith s "http://" then
    let body := take_non_space (drop_chars 7 s) in
    if is_empty body then None else Some ("http://" +:+ body)
  else None.

(** [contentStr.match(urlRegex)] on a string: [Some urls[0]], or [None]
    for [null]. *)
Fixpoint first_url (contentStr : string) : option string :=
  match url_match_here contentStr with
  | Some u => Some u
  | None =>
      match contentStr with
      | EmptyString => None
      | String _ s' => first_url s'
      end
  end.

(** [contentStr.match(urlRegex)] on whatever [content] holds. *)
Definition match_first_url (contentStr : JsVal) : Res (option string) :=
  match contentStr with
  | JStr s => Ok (first_url s)
  | JUndefined =>
      Throw (TypeError "Cannot read properties of undefined (reading 'match')")
  | JNull => Throw (TypeError "Cannot read properties of null (reading 'match')")
  | _ => Throw (TypeError "contentStr.match is not a function")
  end.

(** The value of [generatedImage.image_url && generatedImage.image_url.url]
    under the guard [message.images && message.images.length > 0], and
    [undefined] when that guard fails. *)
Definition first_image_url (message : JsVal) : Res JsVal :=
  let images := get_prop message "images" in
  if truthy images && js_positive (get_length images) then
    let generatedImage := get_first images in
    res_bind (get_prop_checked generatedImage "image_url") (fun image_url =>
      if truthy image_url then Ok (get_prop image_url "url") else Ok image_url)
  else Ok JUndefined.

(** ** Product image extractor *)

(** The [try] block that reads the extracted image out of the response and
    caches it under the source URL. *)
Definition parse_extraction_response (productImageUrl productName : string)
    (data : JsVal) : M string :=
  try_catch
    (let! message := lift_res (first_message data) in
     let! contentStr := lift_res (get_prop_checked message "content") in
     let from_text : M string :=
       let! urls := lift_res (match_first_url contentStr) in
       match urls with
       | Some imageUrl =>
           let! base64Image := convertUrlToBase64 imageUrl in
           do! cacheProductImage productImageUrl base64Image in
           ret base64Image
       | None =>
           throw (Error ("Failed to extract product image for " +:+ productName))
       end in
     let! imageUrl := lift_res (first_image_url message) in
     if truthy imageUrl then
       match imageUrl with
       | JStr imageUrl =>
           if startsWith imageUrl "data:" then
             do! cacheProductImage productImageUrl imageUrl in
             ret imageUrl
           else if startsWith imageUrl "http" then
             let! base64Image := convertUrlToBase64 imageUrl in
             do! cacheProductImage productImageUrl base64Image in
             ret base64Image
           else from_text
       | _ => throw (TypeError "imageUrl.startsWith is not a function")
       end
     else from_text)
    (fun err => throw err).

(** The extraction call on a fetched image, after that image was cached. *)
Definition request_extraction (apiKey productImageUrl productName
    productImageBase64 : string) : M string :=
  let! response :=
    post_request (ExtractRequest apiKey productImageBase64 productName) in
  if negb (api_ok response) then
    let errText := api_text response in
    throw (Error ("Failed to extract product image for " +:+ productName +:+ ": "
                  +:+ pretty (api_status response) +:+ " " +:+ errText))
  else
    let! data := lift_res (response_json response) in
    parse_extraction_response productImageUrl productName data.

(** The body of [extractActualProductImage] below the cache check. *)
Definition extract_uncached (apiKey productImageUrl productName : string)
  : M string :=
  let! productImageBase64 := convertUrlToBase64 productImageUrl in
  do! cacheProductImage productImageUrl productImageBase64 in
  request_extraction apiKey productImageUrl productName productImageBase64.

Definition extractActualProductImage (apiKey productImageUrl productName : string)
  : M string :=
  let! cachedImage := getCachedProductImage productImageUrl in
  match cachedImage with
  | Some c =>
      if negb (is_empty (cached_image c)) then ret (cached_image c)
      else extract_uncached apiKey productImageUrl productName
  | None => extract_uncached apiKey productImageUrl productName
  end.

(** ** Progressive outfit composer *)

Record Product := { product_name : string; product_image : string }.

(** Step 1 of an iteration: the item image, from the cache, from the
    extractor, or on any failure of these from the original URL. *)
Definition resolve_product_image (apiKey : string) (product : Product) : M string :=
  try_catch
    (let! cachedImage := getCachedProductImage (product_image product) in
     match cachedImage with
     | Some c =>
         if negb (is_empty (cached_image c)) then ret (cached_image c)
         else extractActualProductImage apiKey (product_image product)
                (product_name product)
     | None =>
         extractActualProductImage apiKey (product_image product)
           (product_name product)
     end)
    (fun extractError => convertUrlToBase64 (product_image product)).

(** The [try] block that reads the new base image out of the response. *)
Definition parse_outfit_response (productName : string) (data : JsVal)
  : M string :=
  try_catch
    (let! message := lift_res (first_message data) in
     let! contentStr := lift_res (get_prop_checked message "content") in
     let from_text : M string :=
       let! urls := lift_res (match_first_url contentStr) in
       match urls with
       | Some imageUrl => convertUrlToBase64 imageUrl
       | None => throw (Error ("Failed to generate image for " +:+ productName))
       end in
     let! imageUrl := lift_res (first_image_url message) in
     if truthy imageUrl then
       match imageUrl with
       | JStr imageUrl =>
           if startsWith imageUrl "data:" then ret imageUrl
           else if startsWith imageUrl "http" then convertUrlToBase64 imageUrl
           else from_text
       | _ => throw (TypeError "imageUrl.startsWith is not a function")
       end
     else from_text)
    (fun err => throw err).

(** Step 2 of an iteration: the composition call and its response. *)
Definition compose_product (apiKey currentBaseImageBase64 actualProductImageBase64
    productName : string) : M string :=
  let! response :=
    post_request (OutfitRequest apiKey currentBaseImageBase64
                    actualProductImageBase64 productName) in
  if negb (api_ok response) then
    let errText := api_text response in
    throw (Error ("OpenRouter API Error for " +:+ productName +:+ ": "
                  +:+ pretty (api_status response) +:+ " " +:+ errText))
  else
    let! data := lift_res (response_json response) in
    parse_outfit_response productName data.

(** One pass of the [for] loop: the value of [currentBaseImageBase64] at
    the [continue]. *)
Definition outfit_iteration (apiKey currentBaseImageBase64 : string)
    (product : Product) : M string :=
  let! actualProductImageBase64 := resolve_product_image apiKey product in
  compose_product apiKey currentBaseImageBase64 actualProductImageBase64
    (product_name product).

Fixpoint outfit_loop (apiKey : string) (products : list Product)
    (currentBaseImageBase64 : string) : M string :=
  match products with
  | [] => ret currentBaseImageBase64
  | product :: rest =>
      let! next := outfit_iteration apiKey currentBaseImageBase64 product in
      outfit_loop apiKey rest next
  end.

Definition generateOutfitImage (apiKey inputImageUrl : string)
    (products : list Product) : M string :=
  if is_empty apiKey then throw (Error "API key is required")
  else
    let! currentBaseImageBase64 := convertUrlToBase64 inputImageUrl in
    let! final := outfit_loop apiKey products currentBaseImageBase64 in
    let! cacheInfo := getCacheInfo in
    ret final.

(** ** Background service: cache maintenance *)

Definition run_task (t : Task) : M unit :=
  match t with
  | CleanupTask => cleanupOldCachedImages None
  end.

(** [setInterval(callback, period)]. *)
Definition setInterval (t : Task) (period : Z) : M unit :=
  fun w => (Ok tt, add_timer (period, t) (log (EvSetInterval period) w)).

Definition setupCacheCleanup : M unit :=
  do! setInterval CleanupTask (6 * 60 * 60 * 1000) in
  cleanupOldCachedImages None.

Definition clearProductImageCache : M unit :=
  try_catch
    (let! result := storage_get None in
     let keysToRemove :=
       filter (fun key => startsWith key cache_prefix = true) (map_to_list result).*1 in
     if (0 <? Z.of_nat (length keysToRemove))
     then storage_remove keysToRemove
     else ret tt)
    (fun error => ret tt).

End Service.

(** ** Background service: preloading, the request handler, the message listener *)

Inductive PreloadStatus :=
| AlreadyCached
| Cached
| Failed (error : string).

Record PreloadResult := {
  preload_url : string;
  preload_status : PreloadStatus
}.

(** What [retrieveStoredData] resolves to. *)
Record StoredData := {
  stored_apiKey : JsVal;
  stored_userImage : JsVal
}.

(** The [data] of a [STYLE_ME_CLICKED] message; [None] is a property that
    is missing. The [senderTab] of the message is [sender.tab.id], and
    [None] when the sender has no [tab]. *)
Record ClickData := {
  click_products : option (list Product);
  click_userImage : option string
}.

(** The messages [chrome.tabs.sendMessage] hands to a tab. *)
Inductive TabMessage :=
| StyleMeSuccess (generatedImage : string)
| StyleMeError (error : string).

Inductive RuntimeMessage :=
| StyleMeClicked (data : option ClickData) (senderTab : option Z)
| ClearProductCache
| GetCacheInfo
| CheckImageCached (imageUrl : string)
| PreloadProductImages (imageUrls : list string)
| OtherMessage (type : string).

(** The argument of [sendResponse]. *)
Inductive Response :=
| CacheCleared
| CacheInfoResponse (info : CacheInfo)
| ImageCachedResponse (isCached hasImage : bool)
| PreloadResponse (results : list PreloadResult)
| FailureResponse (error : string).

(** What the listener does with a message: it answers through
    [sendResponse], it has a message sent to the tab, or it does neither. *)
Inductive ListenerOutcome :=
| Responded (r : Response)
| ToldTab (tabId : Z) (m : TabMessage)
| Ignored.

(** ToString, on the integers below [10^21] that [JNum] stands for. *)
Fixpoint js_to_string (v : JsVal) : string :=
  match v with
  | JUndefined => "undefined"
  | JNull => "null"
  | JBool true => "true"
  | JBool false => "false"
  | JNum n => pretty n
  | JStr s => s
  | JArr items =>
      String.concat ","
        (List.map (fun item =>
                     match item with
                     | JUndefined | JNull => ""
                     | _ => js_to_string item
                     end) items)
  | JObj _ => "[object Object]"
  end.

Section Background.

Variable E : Env.

(** One pass of the loop of [preloadProductImages]. *)
Definition preload_one (imageUrl : string) : M PreloadResult :=
  let fetch_and_cache : M PreloadResult :=
    let! base64Image := convertUrlToBase64 E imageUrl in
    do! cacheProductImage E imageUrl base64Image in
    ret {| preload_url := imageUrl; preload_status := Cached |} in
  try_catch
    (let! cached := getCachedProductImage E imageUrl in
     match cached with
     | Some c =>
         if negb (is_empty (cached_image c))
         then ret {| preload_url := imageUrl; preload_status := AlreadyCached |}
         else fetch_and_cache
     | None => fetch_and_cache
     end)
    (fun error =>
       ret {| preload_url := imageUrl;
              preload_status := Failed (error_message error) |}).

Fixpoint preload_loop (imageUrls : list string) (results : list PreloadResult)
  : M (list PreloadResult) :=
  match imageUrls with
  | [] => ret results
  | imageUrl :: rest =>
      let! r := preload_one imageUrl in
      preload_loop rest (results ++ [r])
  end.

Definition preloadProductImages (imageUrls : list string) : M (list PreloadResult) :=
  try_catch (preload_loop imageUrls []) (fun error => throw error).

Definition getCacheInfoInternal : M CacheInfo := getCacheInfo E.

Definition retrieveStoredData : M StoredData :=
  try_catch
    (let! result := storage_get E (Some ["openRouterApiKey"; "userImage"]) in
     if negb (truthy (js_index result "openRouterApiKey")) then
       throw (Error "API key not found. Please configure the extension first.")
     else if negb (truthy (js_index result "userImage")) then
       throw (Error "User image not found. Please upload a photo first.")
     else
       ret {| stored_apiKey := js_index result "openRouterApiKey";
              stored_userImage := js_index result "userImage" |})
    (fun error => throw error).

(** [generateOutfitImage] below its guard on the API key. *)
Definition outfit_run (apiKey inputImageUrl : string) (products : list Product)
  : M string :=
  let! currentBaseImageBase64 := convertUrlToBase64 E inputImageUrl in
  let! final := outfit_loop E apiKey products currentBaseImageBase64 in
  let! cacheInfo := getCacheInfo E in
  ret final.

(** The call [generateOutfitImage(apiKey, userImage, products)] on what
    the handler has in hand: values read from the storage area, and a
    product list that may be missing. A truthy key that is not a string
    passes the guard and is spliced into the request as a string; a missing
    list fails on [products.length]. *)
Definition call_generateOutfitImage (apiKey inputImageUrl : JsVal)
    (products : option (list Product)) : M string :=
  if negb (truthy apiKey) then throw (Error "API key is required")
  else
    match products with
    | None =>
        throw (TypeError "Cannot read properties of undefined (reading 'length')")
    | Some ps =>
        match apiKey with
        | JStr k => generateOutfitImage E k (js_to_string inputImageUrl) ps
        | _ => outfit_run (js_to_string apiKey) (js_to_string inputImageUrl) ps
        end
    end.

(** [sendSuccessToTab] and [sendErrorToTab]: the message handed to
    [chrome.tabs.sendMessage] for the tab. *)
Definition sendSuccessToTab (tabId : Z) (generatedImage : string) : Z * TabMessage :=
  (tabId, StyleMeSuccess generatedImage).

Definition sendErrorToTab (tabId : Z) (errorMessage : string) : Z * TabMessage :=
  (tabId, StyleMeError errorMessage).

(** The handler resolves to the one message it has sent to the tab. *)
Definition handleStyleMeRequestWithData (data : ClickData) (tabId : Z)
  : M (Z * TabMessage) :=
  try_catch
    (let! storedData := retrieveStoredData in
     if negb (truthy (stored_apiKey storedData)) ||
        negb (truthy (stored_userImage storedData)) then
       ret (sendErrorToTab tabId
              "Missing API key or user image. Please configure the extension first.")
     else
       let products := click_products data in
       (* data.userImage ?? storedData.userImage *)
       let userImage :=
         match click_userImage data with
         | Some u => JStr u
         | None => stored_userImage storedData
         end in
       let! generatedImage :=
         call_generateOutfitImage (stored_apiKey storedData) userImage products in
       if is_empty generatedImage then
         throw (Error "Failed to generate outfit. Please try again.")
       else ret (sendSuccessToTab tabId generatedImage))
    (fun error =>
       (* error.message || 'Failed to generate style' *)
       ret (sendErrorToTab tabId
              (if is_empty (error_message error) then "Failed to generate style"
               else error_message error))).

(** The callback registered by [setupMessageListener]; each
    [promise.then(ok).catch(failed)] answers once. An exception of the
    callback itself is a [Throw]. *)
Definition onMessage (message : RuntimeMessage) : M ListenerOutcome :=
  match message with
  | StyleMeClicked data senderTab =>
      match data with
      | Some d =>
          match click_products d with
          | Some _ =>
              match senderTab with
              | Some tabId =>
                  let! sent := handleStyleMeRequestWithData d tabId in
                  ret (ToldTab sent.1 sent.2)
              | None =>
                  (* sender.tab.id is read before the handler is called *)
                  throw (TypeError "Cannot read properties of undefined (reading 'id')")
              end
          | None => ret Ignored
          end
      | None => ret Ignored
      end
  | ClearProductCache =>
      try_catch
        (do! clearProductImageCache E in ret (Responded CacheCleared))
        (fun error => ret (Responded (FailureResponse (error_message error))))
  | GetCacheInfo =>
      try_catch
        (let! info := getCacheInfoInternal in ret (Responded (CacheInfoResponse info)))
        (fun error => ret (Responded (FailureResponse (error_message error))))
  | CheckImageCached imageUrl =>
      try_catch
        (let! cachedImage := getCachedProductImage E imageUrl in
         ret (Responded
                (ImageCachedResponse
                   (* !!cachedImage *)
                   (match cachedImage with Some _ => true | None => false end)
                   (* !!(cachedImage && cachedImage.image) *)
                   (match cachedImage with
                    | Some c => negb (is_empty (cached_image c))
                    | None => false
                    end))))
        (fun error => ret (Responded (FailureResponse (error_message error))))
  | PreloadProductImages imageUrls =>
      try_catch
        (let! results := preloadProductImages imageUrls in
         ret (Responded (PreloadResponse results)))
        (fun error => ret (Responded (FailureResponse (error_message error))))
  | OtherMessage _ => ret Ignored
  end.

End Background.

(** ** What was sent to the remote service *)

Definition post_of (e : Event) : option Request :=
  match e with
  | EvPost req => Some req
  | _ => None
  end.

(** The requests sent so far, oldest first. *)
Definition posts (w : World) : list Request := omap post_of (history w).

Definition outfit_name (req : Request) : option string :=
  match req with
  | OutfitRequest _ _ _ productName => Some productName
  | ExtractRequest _ _ _ => None
  end.

(** A computation leaves every key outside the cache name space alone. *)
Definition keeps_foreign_keys {A} (m : M A) : Prop :=
  forall w k, startsWith k cache_prefix = false ->
    storage (m w).2 !! k = storage w !! k.

(** A computation never adds an entry or changes a value: what is in the
    storage area afterwards was there before. *)
Definition only_removes {A} (m : M A) : Prop :=
  forall w k v, storage (m w).2 !! k = Some v -> storage w !! k = Some v.

(** The key holds an entry the cache accepts. *)
Definition cached_at (m : gmap string JsVal) (key : string) : Prop :=
  exists image, valid_cached_item (js_index m key) = Some image.

(** A MIME type as a blob carries it: one line, no parameter. *)
Definition plain_mime (t : string) : bool :=
  forallb (fun c => negb (is_line_terminator c) && negb (Ascii.eqb c ";"))
    (list_ascii_of_string t).

Definition no_space (s : string) : bool :=
  forallb (fun c => negb (is_js_space c)) (list_ascii_of_string s).

Definition is_base36 (c : ascii) : bool :=
  let n := N_of_ascii c in
  ((48 <=? n) && (n <=? 57) || (97 <=? n) && (n <=? 122))%N.

(** One round of the loop of [generateUrlHash]. *)
Definition hash_step (hash : Z) (c : ascii) : Z :=
  js_and (js_shl hash 5 - hash + Z.of_N (N_of_ascii c))
         (js_shl hash 5 - hash + Z.of_N (N_of_ascii c)).

(** A computation sends no request to the remote service. *)
Definition sends_nothing {A} (m : M A) : Prop :=
  forall w, posts (m w).2 = posts w.

(** Nothing, or one extraction request with this key and product name. *)
Definition at_most_one_extraction (k name : string) (sent : list Request) : Prop :=
  sent = [] \/ exists raw, sent = [ExtractRequest k raw name].

(** The requests of a run over a product list: for each product in turn,
    at most one extraction request for that product, then the composition
    request for it. *)
Inductive run_requests (k : string) : list Product -> list Request -> Prop :=
| run_requests_nil : run_requests k [] []
| run_requests_cons p ps extraction base image rest :
    at_most_one_extraction k (product_name p) extraction ->
    run_requests k ps rest ->
    run_requests k (p :: ps)
      (extraction ++ OutfitRequest k base image (product_name p) :: rest).

(** The statuses [cached] and [already_cached] of a preload result. *)
Definition preloaded (r : PreloadResult) : bool :=
  match preload_status r with
  | AlreadyCached | Cached => true
  | Failed _ => false
  end.

(** [error.message || 'Failed to generate style'], as a message to the tab. *)
Definition shown_error (e : JsError) : TabMessage :=
  StyleMeError (if is_empty (error_message e) then "Failed to generate style"
                else error_message e).

(** The two keys that [retrieveStoredData] reads. *)
Definition settings_keys : list string := ["openRouterApiKey"; "userImage"].

(** ** Properties of environments and stored values *)

(** The storage area never rejects a call. *)
Definition storage_healthy (E : Env) : Prop :=
  forall h, storage_fault E h = None.

(** A payload the cache accepts as an image: a string that starts with the
    data-URL prefix. *)
Definition image_like (payload : JsVal) : bool :=
  match payload with
  | JStr s => startsWith s "data:"
  | _ => false
  end.

(** The object [cacheProductImage] writes. *)
Definition cache_entry (image : string) (timestamp : Z) (url : string) : JsVal :=
  JObj [("image", JStr image); ("timestamp", JNum timestamp); ("url", JStr url)].

Definition has_timestamp (v : JsVal) : bool :=
  match get_prop v "timestamp" with
  | JNum t => 0 <? t
  | _ => false
  end.

(** Every product-image entry carries the timestamp [cacheProductImage]
    recorded: a number of milliseconds since the epoch, which is positive. *)
Definition timestamped_cache (m : gmap string JsVal) : Prop :=
  map_Forall (fun k v => startsWith k cache_prefix = true -> has_timestamp v = true) m.

(** The entry was recorded more than [maxAge] before [now]. *)
Definition stale (now maxAge : Z) (v : JsVal) : bool :=
  match get_prop v "timestamp" with
  | JNum t => now - t >? maxAge
  | _ => false
  end.

(** [w'] is [w] with more effects logged. *)
Definition extends (w w' : World) : Prop :=
  exists later, trace w' = (later ++ trace w)%list.

(** A computation only ever adds to the log. *)
Definition logs_only {A} (m : M A) : Prop :=
  forall w, extends w (m w).2.

(** A failure recorded in a preload result is the failure of the fetch of
    its image, at some point after the world [w], with the message of that
    error. *)
Definition failure_is_fetch (E : Env) (w : World) (r : PreloadResult) : Prop :=
  forall msg, preload_status r = Failed msg ->
    exists w0 e,
      extends w w0 /\ (convertUrlToBase64 E (preload_url r) w0).1 = Throw e /\
      error_message e = msg.

(** ** Shapes of a response *)

(** [message] is the message of the first choice of the body [data]. *)
Definition message_of (data message : JsVal) : Prop :=
  exists choice others,
    get_prop data "choices" = JArr (choice :: others) /\
    get_prop choice "message" = message.

(** The first element of [message.images] carries the URL [u]. *)
Definition first_image (message : JsVal) (u : string) : Prop :=
  exists first more,
    get_prop message "images" = JArr (first :: more) /\
    get_prop (get_prop first "image_url") "url" = JStr u.











(** The response offers the image at [u] as its first structured image. *)
Definition offers_image (r : ApiResponse) (u : string) : Prop :=
  exists data message,
    api_json r = Some data /\ message_of data message /\ first_image message u.

(** ** Sample environments *)

Definition sample_blob : Blob :=
  {| blob_type := "image/png"; blob_base64 := "iVBORw0KGgo=" |}.

Definition sample_fetch_response : FetchResponse :=
  {| resp_ok := true; resp_status := 200;
     resp_content_type := Some "image/png"; resp_blob := sample_blob |}.

(** A chat completion with one choice. *)
Definition chat_completion (message : JsVal) : JsVal :=
  JObj [("id", JStr "gen-1");
        ("choices", JArr [JObj [("index", JNum 0); ("message", message)]])].

Definition image_part (url : JsVal) : JsVal :=
  JObj [("type", JStr "image_url"); ("image_url", JObj [("url", url)])].

Definition generated_message : JsVal :=
  JObj [("role", JStr "assistant"); ("content", JStr "");
        ("images", JArr [image_part (JStr "data:image/png;base64,AAAA")])].

Definition ok_response (data : JsVal) : ApiResponse :=
  {| api_ok := true; api_status := 200; api_text := ""; api_json := Some data |}.

Definition sample_api_response : ApiResponse :=
  ok_response (chat_completion generated_message).

(** Reachable images, a remote service that always answers with a
    generated PNG, and a storage area that works. *)
Definition healthy_env : Env :=
  {| net_fetch := fun _ _ => FetchResolved sample_fetch_response;
     net_post := fun _ _ => PostResolved sample_api_response;
     storage_fault := fun _ => None;
     clock := fun h => 1700000000000 + Z.of_nat (length h);
     url_pathname := fun _ => Ok "/photo.jpg";
     to_number := fun _ => None |}.

(** The same, with a storage area that rejects every call. *)
Definition storage_down_env : Env :=
  {| net_fetch := net_fetch healthy_env;
     net_post := net_post healthy_env;
     storage_fault := fun _ => Some (Error "storage unavailable");
     clock := clock healthy_env;
     url_pathname := url_pathname healthy_env;
     to_number := to_number healthy_env |}.

Definition empty_world : World :=
  {| storage := ∅; timers := []; trace := [] |}.

Definition jacket_url : string := "https://example.com/jacket.png".

(** A storage area whose entry for [jacket_url] has the given payload. *)
Definition world_with_payload (payload : JsVal) : World :=
  {| storage :=
       {[ cacheKey_of jacket_url :=
            JObj [("image", payload); ("timestamp", JNum 1700000000000);
                  ("url", JStr jacket_url)] ]};
     timers := []; trace := [] |}.

(** Two product-image entries, one recorded long ago, and the API key. *)
Definition sweep_world : World :=
  {| storage :=
       {[ "productImage_old" :=
            cache_entry "data:image/png;base64,AAAA" 1000 "https://example.com/a.png";
          "productImage_new" :=
            cache_entry "data:image/png;base64,BBBB" 1700000000000
              "https://example.com/b.png";
          "openRouterApiKey" := JStr "sk-or-v1-abc" ]};
     timers := []; trace := [] |}.

Definition photo_url : string := "https://example.com/photo.jpg".

Definition sample_key : string := "sk-or-v1-abc".

(** What [healthy_env] makes of any fetched image. *)
Definition fetched_data : string := "data:image/png;base64,iVBORw0KGgo=".

Definition generated_data : string := "data:image/png;base64,AAAA".

Definition red_jacket : Product :=
  {| product_name := "Red Jacket"; product_image := jacket_url |}.

Definition blue_jeans : Product :=
  {| product_name := "Blue Jeans"; product_image := "https://example.com/jeans.png" |}.

Definition green_hat : Product :=
  {| product_name := "Green Hat"; product_image := "https://example.com/hat.png" |}.

Definition text_message (content : JsVal) : JsVal :=
  JObj [("role", JStr "assistant"); ("content", content)].

(** A message with one structured image and a text. *)
Definition image_and_text (url : JsVal) (text : string) : JsVal :=
  JObj [("role", JStr "assistant"); ("content", JStr text);
        ("images", JArr [image_part url])].

Definition linked_text : string :=
  "Here it is: https://cdn.example.com/out.png (expires soon)".

(** Answers with a success status and no image: a refusal in plain text,
    a body without choices, a message whose content is [null]. *)
Definition refusal_response : ApiResponse :=
  ok_response (chat_completion (text_message (JStr "I cannot edit this image."))).



Definition rate_limited : ApiResponse :=
  {| api_ok := false; api_status := 429; api_text := "rate limited";
     api_json := None |}.

Definition server_error : ApiResponse :=
  {| api_ok := false; api_status := 500; api_text := "internal error";
     api_json := None |}.

(** The remote service refuses every extraction request and answers the
    composition requests. *)
Definition extraction_refused_env : Env :=
  {| net_fetch := net_fetch healthy_env;
     net_post := fun _ req =>
       match req with
       | ExtractRequest _ _ _ => PostResolved rate_limited
       | OutfitRequest _ _ _ _ => PostResolved sample_api_response
       end;
     storage_fault := fun _ => None;
     clock := clock healthy_env;
     url_pathname := url_pathname healthy_env;
     to_number := to_number healthy_env |}.

(** The remote service fails on the composition of the jeans only. *)
Definition jeans_fail_env : Env :=
  {| net_fetch := net_fetch healthy_env;
     net_post := fun _ req =>
       match req with
       | OutfitRequest _ _ _ name =>
           if String.eqb name "Blue Jeans" then PostResolved server_error
           else PostResolved sample_api_response
       | ExtractRequest _ _ _ => PostResolved sample_api_response
       end;
     storage_fault := fun _ => None;
     clock := clock healthy_env;
     url_pathname := url_pathname healthy_env;
     to_number := to_number healthy_env |}.

(** The remote service answers the composition of the jeans with [r] and
    every other request with a generated image. *)
Definition jeans_answer_env (r : ApiResponse) : Env :=
  {| net_fetch := net_fetch healthy_env;
     net_post := fun _ req =>
       match req with
       | OutfitRequest _ _ _ name =>
           if String.eqb name "Blue Jeans" then PostResolved r
           else PostResolved sample_api_response
       | ExtractRequest _ _ _ => PostResolved sample_api_response
       end;
     storage_fault := fun _ => None;
     clock := clock healthy_env;
     url_pathname := url_pathname healthy_env;
     to_number := to_number healthy_env |}.

(** The worlds of a run on [photo_url] and [red_jacket] under
    [extraction_refused_env]: after the base photo, after the cache lookup,
    after the failed extraction, after the fallback fetch. *)
Definition refused_photo_world : World := log (EvFetch photo_url) empty_world.

Definition refused_lookup_world : World :=
  log (EvStorageGet (Some [cacheKey_of jacket_url])) refused_photo_world.

Definition refused_extract_world : World :=
  (extractActualProductImage extraction_refused_env sample_key jacket_url
     "Red Jacket" refused_lookup_world).2.

Definition refused_fallback_world : World :=
  log (EvFetch jacket_url) refused_extract_world.




(** After a first extraction of [jacket_url] under [healthy_env]. *)
Definition warm_world : World :=
  (extractActualProductImage healthy_env sample_key jacket_url "Red Jacket"
     empty_world).2.

(** The worlds of a first extraction of [jacket_url] under
    [extraction_refused_env]: after the lookup and after the fetch. *)
Definition miss_lookup_world : World :=
  log (EvStorageGet (Some [cacheKey_of jacket_url])) empty_world.

Definition miss_fetch_world : World := log (EvFetch jacket_url) miss_lookup_world.

(** The raw entry written for [jacket_url] after that fetch, the world
    with it, and the world after the extraction request. *)
Definition raw_jacket_entry : JsVal :=
  cache_entry fetched_data (clock healthy_env (trace miss_fetch_world)) jacket_url.

Definition miss_cached_world : World :=
  set_storage (<[cacheKey_of jacket_url := raw_jacket_entry]> (storage miss_fetch_world))
    (log (EvStorageSet (cacheKey_of jacket_url) raw_jacket_entry) miss_fetch_world).

Definition miss_posted_world : World :=
  log (EvPost (ExtractRequest sample_key fetched_data "Red Jacket")) miss_cached_world.

(** An old entry, and a key of the cache name space that holds [null]. *)
Definition null_entry_world : World :=
  {| storage :=
       {[ "productImage_old" :=
            cache_entry "data:image/png;base64,AAAA" 1000 "https://example.com/a.png";
          "productImage_broken" := JNull ]};
     timers := []; trace := [] |}.

(** After preloading [jacket_url] under [healthy_env]. *)
Definition preloaded_world : World :=
  (preloadProductImages healthy_env [jacket_url] empty_world).2.

(** A storage area with both settings. *)
Definition configured_world : World :=
  {| storage := {[ "openRouterApiKey" := JStr sample_key;
                   "userImage" := JStr photo_url ]};
     timers := []; trace := [] |}.

(** A WebP image served with its content type, read as a blob without
    one. *)
Definition webp_response : FetchResponse :=
  {| resp_ok := true; resp_status := 200;
     resp_content_type := Some "image/webp";
     resp_blob := {| blob_type := ""; blob_base64 := "UklGRg==" |} |}.

Definition webp_env : Env :=
  {| net_fetch := fun _ _ => FetchResolved webp_response;
     net_post := net_post healthy_env;
     storage_fault := fun _ => None;
     clock := clock healthy_env;
     url_pathname := url_pathname healthy_env;
     to_number := to_number healthy_env |}.

(** An image served without a content type from a path in upper case. *)
Definition untyped_response : FetchResponse :=
  {| resp_ok := true; resp_status := 200;
     resp_content_type := None;
     resp_blob := {| blob_type := ""; blob_base64 := "iVBORw0KGgo=" |} |}.

Definition untyped_env : Env :=
  {| net_fetch := fun _ _ => FetchResolved untyped_response;
     net_post := net_post healthy_env;
     storage_fault := fun _ => None;
     clock := clock healthy_env;
     url_pathname := fun _ => Ok "/shoes/SNEAKER.PNG";
     to_number := to_number healthy_env |}.

Definition jacket_click : ClickData :=
  {| click_products := Some [red_jacket]; click_userImage := None |}.

(** * Basic facts *)

Section StringFacts.

Lemma append_cons c (s t : string) : String c s +:+ t = String c (s +:+ t).
Proof. reflexivity. Qed.

Lemma append_assoc (a b c : string) : (a +:+ b) +:+ c = a +:+ b +:+ c.
Proof. induction a as [|x a IH]; [reflexivity|]. rewrite !append_cons, IH. reflexivity. Qed.


Lemma startsWith_cons c d (s p : string) :
  startsWith (String d s) (String c p) =
  if Ascii.eqb c d then startsWith s p else false.
Proof. reflexivity. Qed.

Lemma startsWith_append (p s : string) : startsWith (p +:+ s) p = true.
Proof.
  induction p as [|c p IH]; [reflexivity|].
  rewrite append_cons, startsWith_cons, Ascii.eqb_refl. exact IH.
Qed.


Lemma startsWith_nonempty (s p : string) :
  startsWith s p = true -> is_empty p = false -> is_empty s = false.
Proof. destruct p, s; cbv [is_empty]; try congruence. discriminate. Qed.

Lemma includes_cons c (s t : string) :
  includes (String c s) t = startsWith (String c s) t || includes s t.
Proof. reflexivity. Qed.

Lemma includes_startsWith (s t : string) : startsWith s t = true -> includes s t = true.
Proof. intros H. destruct s; cbn [includes]; rewrite H; reflexivity. Qed.


End StringFacts.

(** The hash that names a cache entry. *)

Section HashFacts.

Lemma to_int32_range z : - 2 ^ 31 <= to_int32 z < 2 ^ 31.
Proof.
  unfold to_int32. pose proof (Z.mod_pos_bound z (2 ^ 32) ltac:(lia)) as Hm.
  destruct (z mod 2 ^ 32 <? 2 ^ 31) eqn:Hlt.
  - apply Z.ltb_lt in Hlt. lia.
  - apply Z.ltb_ge in Hlt. lia.
Qed.

Lemma generateUrlHash_loop_range url hash :
  - 2 ^ 31 <= hash < 2 ^ 31 ->
  - 2 ^ 31 <= generateUrlHash_loop url hash < 2 ^ 31.
Proof.
  revert hash. induction url as [|c url IH]; intros hash Hh; [exact Hh|].
  cbn [generateUrlHash_loop]. apply IH. unfold js_and. rewrite Z.land_diag.
  apply to_int32_range.
Qed.

(** More fuel than digits changes nothing. *)
Lemma toString36_go_fuel fuel extra n acc :
  0 <= n < 36 ^ Z.of_nat (S fuel) ->
  toString36_go (S fuel + extra) n acc = toString36_go (S fuel) n acc.
Proof.
  revert n acc. induction fuel as [|fuel IH]; intros n acc Hn.
  - change (36 ^ Z.of_nat 1) with 36 in Hn.
    cbn [Nat.add toString36_go].
    assert ((n <? 36) = true) as -> by (apply Z.ltb_lt; lia).
    destruct extra; reflexivity.
  - change (S (S fuel) + extra)%nat with (S (S fuel + extra)).
    cbn [toString36_go].
    destruct (n <? 36) eqn:Hlt; [reflexivity|].
    apply Z.ltb_ge in Hlt. apply IH.
    rewrite (Nat2Z.inj_succ (S fuel)), Z.pow_succ_r in Hn by lia.
    split; [apply Z.div_pos; lia|].
    apply Z.div_lt_upper_bound; lia.
Qed.

(** The seven digits of [toString36] are enough for every hash value. *)
Lemma generateUrlHash_fuel url extra :
  toString36_go (7 + extra) (Z.abs (generateUrlHash_loop url 0)) "" =
  generateUrlHash url.
Proof.
  unfold generateUrlHash, toString36. apply (toString36_go_fuel 6).
  pose proof (generateUrlHash_loop_range url 0 ltac:(lia)) as Hr.
  change (36 ^ Z.of_nat 7) with 78364164096.
  change (2 ^ 31) with 2147483648 in Hr. lia.
Qed.

End HashFacts.

Section PrimitiveFacts.

Variable E : Env.

Lemma lookup_filter_keys (m : gmap string JsVal) (k : string) :
  filter (fun kv : string * JsVal => kv.1 ∈ [k]) m !! k = m !! k.
Proof.
  destruct (m !! k) as [v|] eqn:Hk.
  - apply map_lookup_filter_Some. split; [done|]. simpl. set_solver.
  - apply map_lookup_filter_None. left. done.
Qed.

Lemma lookup_foldr_delete_in (m : gmap string JsVal) (ks : list string) (k : string) :
  k ∈ ks -> foldr delete m ks !! k = None.
Proof.
  induction ks as [|k' ks IH]; intros Hin; [by inversion Hin|].
  simpl. destruct (decide (k' = k)) as [->|Hne].
  - apply lookup_delete_eq.
  - rewrite lookup_delete_ne; [|done]. apply IH.
    apply elem_of_cons in Hin as [->|Hin]; done.
Qed.

Lemma lookup_foldr_delete_notin (m : gmap string JsVal) (ks : list string) (k : string) :
  k ∉ ks -> foldr delete m ks !! k = m !! k.
Proof.
  induction ks as [|k' ks IH]; intros Hin; [done|].
  apply not_elem_of_cons in Hin as [Hne Hin].
  simpl. rewrite lookup_delete_ne; [|done]. by apply IH.
Qed.

Lemma storage_get_fault keys w e :
  storage_fault E (trace w) = Some e ->
  storage_get E keys w = (Throw e, log (EvStorageGet keys) w).
Proof. intros H. unfold storage_get. rewrite H. reflexivity. Qed.

Lemma storage_set_fault key v w e :
  storage_fault E (trace w) = Some e ->
  storage_set E key v w = (Throw e, log (EvStorageSet key v) w).
Proof. intros H. unfold storage_set. rewrite H. reflexivity. Qed.

Lemma storage_get_all_ok w :
  storage_fault E (trace w) = None ->
  storage_get E None w = (Ok (storage w), log (EvStorageGet None) w).
Proof. intros H. unfold storage_get. rewrite H. reflexivity. Qed.

Lemma storage_remove_ok keys w :
  storage_fault E (trace w) = None ->
  storage_remove E keys w =
    (Ok tt, set_storage (foldr delete (storage w) keys) (log (EvStorageRemove keys) w)).
Proof. intros H. unfold storage_remove. rewrite H. reflexivity. Qed.

Lemma valid_cached_item_image_like entry image :
  valid_cached_item entry = Some image ->
  get_prop entry "image" = JStr image /\ startsWith image "data:" = true.
Proof.
  unfold valid_cached_item.
  destruct (truthy entry && truthy (get_prop entry "image")); [|discriminate].
  destruct (get_prop entry "image") as [| |b|n|s|l|l]; try discriminate.
  destruct (startsWith s "data:") eqn:Hs; [|discriminate].
  intros [= ->]. split; [reflexivity|exact Hs].
Qed.

(** The cache lookup, when the storage area answers: a valid entry is a
    hit, a truthy payload that is not an image is removed, anything else is
    a plain miss. *)
Lemma getCachedProductImage_answer url w :
  storage_fault E (trace w) = None ->
  storage_fault E (EvStorageGet (Some [cacheKey_of url]) :: trace w) = None ->
  getCachedProductImage E url w =
    let key := cacheKey_of url in
    let entry := js_index (storage w) key in
    let w1 := log (EvStorageGet (Some [key])) w in
    if truthy entry && truthy (get_prop entry "image") then
      match valid_cached_item entry with
      | Some image =>
          (Ok (Some {| cached_image := image; cached_object := entry |}), w1)
      | None =>
          (Ok None, set_storage (delete key (storage w)) (log (EvStorageRemove [key]) w1))
      end
    else (Ok None, w1).
Proof.
  intros H0 H1. unfold cacheKey_of in *.
  unfold getCachedProductImage, try_catch, bind, storage_get.
  rewrite H0. cbn zeta.
  set (key := cache_prefix +:+ generateUrlHash url) in *.
  unfold js_index. rewrite lookup_filter_keys.
  set (entry := match storage w !! key with Some value => value | None => JUndefined end).
  unfold valid_cached_item.
  destruct (truthy entry && truthy (get_prop entry "image")) eqn:Ht; [|reflexivity].
  unfold storage_remove, ret.
  destruct (get_prop entry "image") as [| |b|n|s|l|l];
    try (cbn [log trace]; rewrite H1; reflexivity).
  destruct (startsWith s "data:"); [reflexivity|].
  cbn [log trace]; rewrite H1; reflexivity.
Qed.

End PrimitiveFacts.


(** * How the service runs *)

Create HintDb logs.

Section RunFacts.
Variable E : Env.

Lemma extends_refl w : extends w w.
Proof. exists []. reflexivity. Qed.

Lemma extends_trans w1 w2 w3 : extends w1 w2 -> extends w2 w3 -> extends w1 w3.
Proof.
  intros [l1 H1] [l2 H2]. exists (l2 ++ l1)%list.
  rewrite H2, H1. apply app_assoc.
Qed.

Lemma extends_log e w : extends w (log e w).
Proof. exists [e]. reflexivity. Qed.

Lemma extends_log_set e m w : extends w (set_storage m (log e w)).
Proof. exists [e]. reflexivity. Qed.

Lemma logs_only_ret {A} (a : A) : logs_only (ret a).
Proof. intros w. apply extends_refl. Qed.

Lemma logs_only_throw {A} e : logs_only (@throw A e).
Proof. intros w. apply extends_refl. Qed.

Lemma logs_only_lift_res {A} (r : Res A) : logs_only (lift_res r).
Proof. intros w. apply extends_refl. Qed.

Lemma logs_only_bind {A B} (m : M A) (k : A -> M B) :
  logs_only m -> (forall a, logs_only (k a)) -> logs_only (bind m k).
Proof.
  intros Hm Hk w. unfold bind. specialize (Hm w).
  destruct (m w) as [[a|e] w1]; [|exact Hm].
  eapply extends_trans; [exact Hm|apply Hk].
Qed.

Lemma logs_only_try_catch {A} (m : M A) (h : JsError -> M A) :
  logs_only m -> (forall e, logs_only (h e)) -> logs_only (try_catch m h).
Proof.
  intros Hm Hh w. unfold try_catch. specialize (Hm w).
  destruct (m w) as [[a|e] w1]; [exact Hm|].
  eapply extends_trans; [exact Hm|apply Hh].
Qed.

Lemma logs_only_storage_get keys : logs_only (storage_get E keys).
Proof.
  intros w. unfold storage_get. destruct (storage_fault E (trace w)); apply extends_log.
Qed.

Lemma logs_only_storage_set key v : logs_only (storage_set E key v).
Proof.
  intros w. unfold storage_set.
  destruct (storage_fault E (trace w)); [apply extends_log|apply extends_log_set].
Qed.

Lemma logs_only_storage_remove keys : logs_only (storage_remove E keys).
Proof.
  intros w. unfold storage_remove.
  destruct (storage_fault E (trace w)); [apply extends_log|apply extends_log_set].
Qed.

Lemma logs_only_date_now : logs_only (date_now E).
Proof. intros w. apply extends_refl. Qed.

Lemma logs_only_fetch_image url : logs_only (fetch_image E url).
Proof.
  intros w. unfold fetch_image. destruct (net_fetch E (trace w) url); apply extends_log.
Qed.

Lemma logs_only_post_request req : logs_only (post_request E req).
Proof.
  intros w. unfold post_request. destruct (net_post E (trace w) req); apply extends_log.
Qed.

(** Splits a goal [logs_only m] along the structure of [m]. *)
Ltac logs_only_step :=
  match goal with
  | |- logs_only (bind _ _) => apply logs_only_bind
  | |- logs_only (try_catch _ _) => apply logs_only_try_catch
  | |- logs_only (ret _) => apply logs_only_ret
  | |- logs_only (throw _) => apply logs_only_throw
  | |- logs_only (lift_res _) => apply logs_only_lift_res
  | |- logs_only (storage_get _ _) => apply logs_only_storage_get
  | |- logs_only (storage_set _ _ _) => apply logs_only_storage_set
  | |- logs_only (storage_remove _ _) => apply logs_only_storage_remove
  | |- logs_only (date_now _) => apply logs_only_date_now
  | |- logs_only (fetch_image _ _) => apply logs_only_fetch_image
  | |- logs_only (post_request _ _) => apply logs_only_post_request
  | |- logs_only (match ?x with _ => _ end) => destruct x
  | |- logs_only (if ?b then _ else _) => destruct b
  | |- forall _, _ => intro
  end.

Ltac logs_only_auto := repeat (logs_only_step; cbn zeta); auto.

Lemma logs_only_getCachedProductImage url : logs_only (getCachedProductImage E url).
Proof. unfold getCachedProductImage. logs_only_auto. Qed.

Lemma logs_only_cacheProductImage url image : logs_only (cacheProductImage E url image).
Proof. unfold cacheProductImage. logs_only_auto. Qed.

Lemma logs_only_getCacheInfo : logs_only (getCacheInfo E).
Proof. unfold getCacheInfo. logs_only_auto. Qed.

Lemma logs_only_convertUrlToBase64 url : logs_only (convertUrlToBase64 E url).
Proof. unfold convertUrlToBase64, mime_from_url. logs_only_auto. Qed.

#[local] Hint Resolve logs_only_getCachedProductImage logs_only_cacheProductImage
  logs_only_getCacheInfo logs_only_convertUrlToBase64 : logs.

Lemma logs_only_parse_extraction_response url name m :
  logs_only (parse_extraction_response E url name m).
Proof.
  unfold parse_extraction_response. repeat (logs_only_step; cbn zeta); auto with logs.
Qed.

Lemma logs_only_request_extraction k url name raw :
  logs_only (request_extraction E k url name raw).
Proof.
  unfold request_extraction.
  repeat (logs_only_step; cbn zeta); auto using logs_only_parse_extraction_response.
Qed.

Lemma logs_only_extract_uncached k url name :
  logs_only (extract_uncached E k url name).
Proof.
  unfold extract_uncached.
  repeat (logs_only_step; cbn zeta);
    auto using logs_only_request_extraction with logs.
Qed.

Lemma logs_only_extractActualProductImage k url name :
  logs_only (extractActualProductImage E k url name).
Proof.
  unfold extractActualProductImage.
  repeat (logs_only_step; cbn zeta);
    auto using logs_only_extract_uncached with logs.
Qed.

Lemma logs_only_parse_outfit_response name m :
  logs_only (parse_outfit_response E name m).
Proof. unfold parse_outfit_response. repeat (logs_only_step; cbn zeta); auto with logs. Qed.

Lemma logs_only_resolve_product_image k p : logs_only (resolve_product_image E k p).
Proof.
  unfold resolve_product_image.
  repeat (logs_only_step; cbn zeta);
    auto using logs_only_extractActualProductImage with logs.
Qed.

Lemma logs_only_compose_product k cur img name :
  logs_only (compose_product E k cur img name).
Proof.
  unfold compose_product.
  repeat (logs_only_step; cbn zeta); auto using logs_only_parse_outfit_response.
Qed.

Lemma logs_only_outfit_iteration k cur p : logs_only (outfit_iteration E k cur p).
Proof.
  unfold outfit_iteration.
  repeat (logs_only_step; cbn zeta);
    auto using logs_only_resolve_product_image, logs_only_compose_product.
Qed.

Lemma logs_only_outfit_loop k ps cur : logs_only (outfit_loop E k ps cur).
Proof.
  revert cur. induction ps as [|p ps IH]; intros cur; simpl.
  - apply logs_only_ret.
  - apply logs_only_bind; [apply logs_only_outfit_iteration|]. intros next. apply IH.
Qed.

(** A handler that only rethrows changes nothing. *)
Lemma try_catch_rethrow {A} (m : M A) w :
  try_catch m (fun error => throw error) w = m w.
Proof. unfold try_catch, throw. destruct (m w) as [[a|e] w1]; reflexivity. Qed.

Lemma convertUrlToBase64_world url w :
  (convertUrlToBase64 E url w).2 = log (EvFetch url) w.
Proof.
  unfold convertUrlToBase64. rewrite try_catch_rethrow.
  unfold bind, fetch_image, mime_from_url, lift_res, ret, throw.
  destruct (net_fetch E (trace w) url) as [e|r]; [reflexivity|].
  destruct (resp_ok r); cbn [negb]; [|reflexivity].
  destruct (resp_content_type r) as [m|]; [destruct (is_empty m); [|reflexivity]|];
    destruct (url_pathname E url); reflexivity.
Qed.

Lemma replace_data_prefix_data base64 mime :
  startsWith base64 "data:" = true ->
  startsWith (replace_data_prefix base64 ("data:" +:+ mime +:+ ";base64,")) "data:" = true.
Proof.
  intros H. unfold replace_data_prefix. rewrite H.
  destruct (after_base64_marker (drop_chars 5 base64)); [reflexivity|exact H].
Qed.

Lemma readAsDataURL_data b : startsWith (readAsDataURL b) "data:" = true.
Proof. reflexivity. Qed.

(** The fetcher only ever resolves to a data URL. *)
Lemma convertUrlToBase64_data url w s w' :
  convertUrlToBase64 E url w = (Ok s, w') -> startsWith s "data:" = true.
Proof.
  unfold convertUrlToBase64. rewrite try_catch_rethrow.
  unfold bind, fetch_image, mime_from_url, lift_res, ret, throw.
  destruct (net_fetch E (trace w) url) as [e|r]; [discriminate|].
  destruct (resp_ok r); cbn [negb]; [|discriminate].
  assert (Hres : forall mime,
    startsWith
      (if negb (startsWith (readAsDataURL (resp_blob r)) ("data:" +:+ mime))
       then replace_data_prefix (readAsDataURL (resp_blob r))
              ("data:" +:+ mime +:+ ";base64,")
       else readAsDataURL (resp_blob r)) "data:" = true).
  { intros mime. destruct (negb _); [|reflexivity].
    apply replace_data_prefix_data. reflexivity. }
  destruct (resp_content_type r) as [m|];
    [destruct (is_empty m)|];
    try (destruct (url_pathname E url); [|discriminate]);
    intros [= <- _]; apply Hres.
Qed.

Lemma convertUrlToBase64_run url w :
  exists r, convertUrlToBase64 E url w = (r, log (EvFetch url) w).
Proof.
  exists (convertUrlToBase64 E url w).1. rewrite <- convertUrlToBase64_world.
  by destruct (convertUrlToBase64 E url w).
Qed.

Lemma cacheProductImage_healthy url image w :
  storage_fault E (trace w) = None ->
  cacheProductImage E url image w =
    (Ok tt,
     set_storage (<[cacheKey_of url := cache_entry image (clock E (trace w)) url]> (storage w))
       (log (EvStorageSet (cacheKey_of url) (cache_entry image (clock E (trace w)) url)) w)).
Proof.
  intros H. unfold cacheProductImage, try_catch, bind, date_now, storage_set.
  rewrite H. reflexivity.
Qed.

(** The cache lookup never rejects. *)
Lemma getCachedProductImage_total url w :
  exists c w', getCachedProductImage E url w = (Ok c, w').
Proof.
  unfold getCachedProductImage, try_catch.
  match goal with |- context [match ?m w with _ => _ end] => destruct (m w) as [[c|e] w'] end;
    eauto.
Qed.

(** A hit is always a data URL, whatever the storage area held. *)
Lemma getCachedProductImage_hit url w c w' :
  getCachedProductImage E url w = (Ok (Some c), w') ->
  startsWith (cached_image c) "data:" = true.
Proof.
  unfold getCachedProductImage, try_catch, bind, storage_get, storage_remove, ret.
  destruct (storage_fault E (trace w)); [discriminate|]. cbn zeta.
  match goal with |- context [truthy ?e && _] => set (entry := e) end.
  destruct (truthy entry && truthy (get_prop entry "image")); [|discriminate].
  destruct (get_prop entry "image") as [| |b|n|s|l|l];
    try (cbn [log trace]; destruct (storage_fault E _); discriminate).
  destruct (startsWith s "data:") eqn:Hs.
  - intros [= <- _]. exact Hs.
  - cbn [log trace]. destruct (storage_fault E _); discriminate.
Qed.

End RunFacts.

(** * Content cache *)


Section CacheGet.
Variable E : Env.
Hypothesis Hhealthy : storage_healthy E.

Lemma payload_truthy_entry_truthy entry :
  truthy (get_prop entry "image") = true -> truthy entry = true.
Proof. destruct entry; simpl; try discriminate; reflexivity. Qed.

Lemma not_image_like_invalid entry :
  image_like (get_prop entry "image") = false -> valid_cached_item entry = None.
Proof.
  unfold valid_cached_item, image_like.
  destruct (truthy entry && truthy (get_prop entry "image")); [|reflexivity].
  destruct (get_prop entry "image"); try reflexivity.
  intros ->. reflexivity.
Qed.

(** C3 (amended). With a working storage area, a lookup of an entry whose
    [image] payload is not a string starting with [data:] resolves to
    [null], never to a hit. When that payload is truthy (a non-empty string
    without the prefix, a non-zero number, [true], an object, an array) the
    entry is removed from the storage area; when it is falsy (the empty
    string, missing, [null], [0], [false]) the entry is left where it is.
    In both cases the next lookup of the same key resolves to [null] again
    and changes nothing in the storage area. *)
Theorem cache_get_corrupt_entry url w entry :
  storage w !! cacheKey_of url = Some entry ->
  image_like (get_prop entry "image") = false ->
  exists w1 w2,
    getCachedProductImage E url w = (Ok None, w1) /\
    (truthy (get_prop entry "image") = true ->
       storage w1 = delete (cacheKey_of url) (storage w)) /\
    (truthy (get_prop entry "image") = false -> storage w1 = storage w) /\
    getCachedProductImage E url w1 = (Ok None, w2) /\
    storage w2 = storage w1.
Proof.
  intros Hentry Hbad.
  rewrite getCachedProductImage_answer by apply Hhealthy.
  cbn zeta. unfold js_index. rewrite Hentry. cbn match.
  rewrite (not_image_like_invalid _ Hbad).
  destruct (truthy (get_prop entry "image")) eqn:Hp.
  - rewrite (payload_truthy_entry_truthy _ Hp). cbn [andb].
    eexists _, _. split; [reflexivity|].
    split; [intros _; reflexivity|]. split; [discriminate|].
    rewrite getCachedProductImage_answer by apply Hhealthy.
    cbn zeta. unfold js_index. cbn [storage set_storage log].
    rewrite lookup_delete_eq. cbn. split; reflexivity.
  - rewrite andb_false_r.
    eexists _, _. split; [reflexivity|].
    split; [discriminate|]. split; [intros _; reflexivity|].
    rewrite getCachedProductImage_answer by apply Hhealthy.
    cbn zeta. unfold js_index. cbn [storage set_storage log].
    rewrite Hentry. cbn match. rewrite Hp, andb_false_r.
    split; reflexivity.
Qed.
End CacheGet.

Lemma healthy_env_healthy : storage_healthy healthy_env.
Proof. intros h. reflexivity. Qed.

Lemma empty_payload_entry_kept :
  image_like (JStr "") = false /\
  storage (world_with_payload (JStr "")) !! cacheKey_of jacket_url =
    Some (JObj [("image", JStr ""); ("timestamp", JNum 1700000000000);
                ("url", JStr jacket_url)]) /\
  (getCachedProductImage healthy_env jacket_url (world_with_payload (JStr ""))).1 = Ok None /\
  storage (getCachedProductImage healthy_env jacket_url (world_with_payload (JStr ""))).2
    !! cacheKey_of jacket_url =
    Some (JObj [("image", JStr ""); ("timestamp", JNum 1700000000000);
                ("url", JStr jacket_url)]).
Proof. vm_compute. auto. Qed.

Lemma cache_get_corrupt_entry_witness :
  exists w1 w2,
    getCachedProductImage healthy_env jacket_url (world_with_payload (JStr "not an image"))
      = (Ok None, w1) /\
    (truthy (get_prop (JObj [("image", JStr "not an image");
                             ("timestamp", JNum 1700000000000);
                             ("url", JStr jacket_url)]) "image") = true ->
       storage w1 = delete (cacheKey_of jacket_url)
                      (storage (world_with_payload (JStr "not an image")))) /\
    (truthy (get_prop (JObj [("image", JStr "not an image");
                             ("timestamp", JNum 1700000000000);
                             ("url", JStr jacket_url)]) "image") = false ->
       storage w1 = storage (world_with_payload (JStr "not an image"))) /\
    getCachedProductImage healthy_env jacket_url w1 = (Ok None, w2) /\
    storage w2 = storage w1.
Proof.
  apply (cache_get_corrupt_entry healthy_env healthy_env_healthy jacket_url
           (world_with_payload (JStr "not an image"))).
  - vm_compute. reflexivity.
  - reflexivity.
Defined.


(** C4 (amended). When the storage call rejects, [getCachedProductImage]
    resolves to [null], which is also its answer for an absent entry, and
    [cacheProductImage] resolves without having stored anything: both catch
    the error and log it, neither passes it on to the caller. *)
Theorem cache_storage_failure_swallowed (E : Env) url image w e :
  storage_fault E (trace w) = Some e ->
  getCachedProductImage E url w =
    (Ok None, log (EvStorageGet (Some [cacheKey_of url])) w) /\
  cacheProductImage E url image w =
    (Ok tt, log (EvStorageSet (cacheKey_of url)
                   (cache_entry image (clock E (trace w)) url)) w).
Proof.
  intros Hfault. split.
  - unfold getCachedProductImage, try_catch, bind.
    rewrite (storage_get_fault E _ _ _ Hfault). reflexivity.
  - unfold cacheProductImage, try_catch, bind, date_now.
    rewrite (storage_set_fault E _ _ _ _ Hfault). reflexivity.
Qed.

Lemma cache_storage_failure_swallowed_witness :
  getCachedProductImage storage_down_env jacket_url empty_world =
    (Ok None, log (EvStorageGet (Some [cacheKey_of jacket_url])) empty_world) /\
  cacheProductImage storage_down_env jacket_url "data:image/png;base64,AAAA" empty_world =
    (Ok tt, log (EvStorageSet (cacheKey_of jacket_url)
                   (cache_entry "data:image/png;base64,AAAA"
                      (clock storage_down_env (trace empty_world)) jacket_url))
              empty_world).
Proof.
  apply (cache_storage_failure_swallowed storage_down_env jacket_url
           "data:image/png;base64,AAAA" empty_world (Error "storage unavailable")).
  reflexivity.
Defined.

Lemma cache_unavailable_conflated_with_miss :
  storage_fault storage_down_env (trace empty_world) = Some (Error "storage unavailable") /\
  (getCachedProductImage storage_down_env jacket_url empty_world).1 = Ok None /\
  (getCachedProductImage healthy_env jacket_url empty_world).1 = Ok None /\
  (cacheProductImage storage_down_env jacket_url "data:image/png;base64,AAAA"
     empty_world).1 = Ok tt.
Proof. vm_compute. auto. Qed.

Section Sweep.
Variable E : Env.
Hypothesis Hhealthy : storage_healthy E.

Lemma elem_of_prefixed_keys (m : gmap string JsVal) k :
  k ∈ filter (fun key => startsWith key cache_prefix = true) (map_to_list m).*1 <->
  startsWith k cache_prefix = true /\ is_Some (m !! k).
Proof.
  rewrite list_elem_of_filter. rewrite list_elem_of_fmap. split.
  - intros [Hp [[k' v] [-> Hin]]]. split; [done|].
    apply elem_of_map_to_list in Hin. eauto.
  - intros [Hp [v Hv]]. split; [done|]. exists (k, v). split; [done|].
    by apply elem_of_map_to_list.
Qed.

(** C10. With a working storage area, [clearProductImageCache] leaves
    exactly the keys that do not start with [productImage_], each with the
    value it had: every key with the prefix is gone and every other key (the
    API key, the user image, the saved products) is unchanged. *)
Theorem clearProductImageCache_exact w :
  exists w',
    clearProductImageCache E w = (Ok tt, w') /\
    storage w' =
      filter (fun kv => startsWith kv.1 cache_prefix = false) (storage w).
Proof.
  unfold clearProductImageCache, try_catch, bind.
  rewrite storage_get_all_ok by apply Hhealthy.
  set (keys := filter _ _).
  assert (Hkeys : forall k, k ∈ keys <->
            startsWith k cache_prefix = true /\ is_Some (storage w !! k))
    by (intros k; apply elem_of_prefixed_keys).
  destruct (0 <? Z.of_nat (length keys)) eqn:Hlen.
  - rewrite storage_remove_ok by apply Hhealthy.
    eexists. split; [reflexivity|]. cbn [storage set_storage log].
    apply map_eq. intros k.
    destruct (startsWith k cache_prefix) eqn:Hp.
    + rewrite (map_lookup_filter_None_2 _ (storage w) k).
      2:{ right. intros v _. simpl. rewrite Hp. discriminate. }
      destruct (storage w !! k) as [v|] eqn:Hk.
      * apply lookup_foldr_delete_in. apply Hkeys. eauto.
      * rewrite lookup_foldr_delete_notin; [done|].
        intros Hin. apply Hkeys in Hin as [_ [v Hv]]. congruence.
    + rewrite lookup_foldr_delete_notin.
      2:{ intros Hin. apply Hkeys in Hin as [Hin _]. congruence. }
      destruct (storage w !! k) as [v|] eqn:Hk; symmetry.
      * apply map_lookup_filter_Some_2; [done|exact Hp].
      * apply map_lookup_filter_None_2. left. done.
  - eexists. split; [reflexivity|]. cbn [storage log].
    assert (Hnil : keys = []).
    { apply Z.ltb_ge in Hlen. apply nil_length_inv. lia. }
    apply map_eq. intros k.
    destruct (storage w !! k) as [v|] eqn:Hk; symmetry.
    + apply map_lookup_filter_Some_2; [done|]. simpl.
      destruct (startsWith k cache_prefix) eqn:Hp; [|done].
      assert (k ∈ keys) as Hin by (apply Hkeys; eauto).
      rewrite Hnil in Hin. inversion Hin.
    + apply map_lookup_filter_None_2. left. done.
Qed.
End Sweep.

(** Whatever the storage area does, a key without the prefix keeps its
    value. *)
Lemma clearProductImageCache_frame (E : Env) w k :
  startsWith k cache_prefix = false ->
  storage (clearProductImageCache E w).2 !! k = storage w !! k.
Proof.
  intros Hk. unfold clearProductImageCache, try_catch, bind, storage_get.
  destruct (storage_fault E (trace w)); [reflexivity|].
  set (keys := filter _ _).
  assert (Hnin : k ∉ keys).
  { intros Hin. apply elem_of_prefixed_keys in Hin as [Hp _]. congruence. }
  destruct (0 <? Z.of_nat (length keys)); [|reflexivity].
  unfold storage_remove. destruct (storage_fault E _); [reflexivity|].
  cbn [snd storage set_storage log]. by apply lookup_foldr_delete_notin.
Qed.

Lemma clearProductImageCache_exact_witness :
  exists w',
    clearProductImageCache healthy_env sweep_world = (Ok tt, w') /\
    storage w' =
      filter (fun kv => startsWith kv.1 cache_prefix = false) (storage sweep_world).
Proof.
  apply (clearProductImageCache_exact healthy_env healthy_env_healthy sweep_world).
Defined.

Lemma has_timestamp_inv v :
  has_timestamp v = true -> exists t, get_prop v "timestamp" = JNum t /\ 0 < t.
Proof.
  unfold has_timestamp. destruct (get_prop v "timestamp"); try discriminate.
  intros H. eexists. split; [reflexivity|]. by apply Z.ltb_lt.
Qed.

Section Expiry.
Variable E : Env.
Hypothesis Hhealthy : storage_healthy E.

Lemma cleanup_scan_timestamped entries now maxAge acc :
  (forall k v, (k, v) ∈ entries -> startsWith k cache_prefix = true ->
     exists t, get_prop v "timestamp" = JNum t /\ 0 < t) ->
  exists keys,
    cleanup_scan E entries now maxAge acc = Ok keys /\
    forall k, k ∈ keys <->
      k ∈ acc \/ exists v, (k, v) ∈ entries /\ startsWith k cache_prefix = true /\
                           stale now maxAge v = true.
Proof.
  revert acc. induction entries as [|[k0 v0] rest IH]; intros acc Hwf.
  - exists acc. split; [reflexivity|]. intros k. split; [auto|].
    intros [H|[v [H _]]]; [done|inversion H].
  - assert (Hrest : forall k v, (k, v) ∈ rest -> startsWith k cache_prefix = true ->
              exists t, get_prop v "timestamp" = JNum t /\ 0 < t).
    { intros k v Hin. apply Hwf. by right. }
    simpl. destruct (startsWith k0 cache_prefix) eqn:Hp.
    + destruct (Hwf k0 v0) as [t [Ht Hpos]]; [by left|done|].
      assert (Hchk : get_prop_checked v0 "timestamp" = Ok (JNum t)).
      { destruct v0; simpl in Ht; try discriminate. simpl. by rewrite Ht. }
      rewrite Hchk. cbn [truthy age_exceeds].
      assert (Hnz : negb (t =? 0) = true) by (apply negb_true_iff, Z.eqb_neq; lia).
      rewrite Hnz. cbn [andb].
      destruct (now - t >? maxAge) eqn:Hage.
      * destruct (IH (acc ++ [k0])%list Hrest) as [keys [Hk Hmem]].
        exists keys. split; [done|]. intros k. rewrite Hmem.
        rewrite elem_of_app, list_elem_of_singleton. split.
        -- intros [[H| ->]|[v [Hin Hs]]]; [by left| |].
           ++ right. exists v0. split; [by left|]. split; [done|].
              unfold stale. by rewrite Ht.
           ++ right. exists v. split; [by right|done].
        -- intros [H|[v [Hin [Hpk Hs]]]]; [by left; left|].
           apply elem_of_cons in Hin as [[= -> ->]|Hin].
           ++ left. by right.
           ++ right. eauto.
      * destruct (IH acc Hrest) as [keys [Hk Hmem]].
        exists keys. split; [done|]. intros k. rewrite Hmem. split.
        -- intros [H|[v [Hin Hs]]]; [by left|].
           right. exists v. split; [by right|done].
        -- intros [H|[v [Hin [Hpk Hs]]]]; [by left|].
           apply elem_of_cons in Hin as [[= -> ->]|Hin].
           ++ unfold stale in Hs. rewrite Ht in Hs. congruence.
           ++ right. eauto.
    + destruct (IH acc Hrest) as [keys [Hk Hmem]].
      exists keys. split; [done|]. intros k. rewrite Hmem. split.
      * intros [H|[v [Hin Hs]]]; [by left|].
        right. exists v. split; [by right|done].
      * intros [H|[v [Hin [Hpk Hs]]]]; [by left|].
        apply elem_of_cons in Hin as [[= -> ->]|Hin]; [congruence|].
        right. eauto.
Qed.

(** The sweep with an explicit age limit. *)
Lemma cleanupOldCachedImages_sweep maxAge w :
  timestamped_cache (storage w) ->
  let now := clock E (EvStorageGet None :: trace w) in
  exists w',
    cleanupOldCachedImages E (Some maxAge) w = (Ok tt, w') /\
    forall k,
      storage w' !! k =
        match storage w !! k with
        | Some v =>
            if startsWith k cache_prefix && stale now maxAge v then None else Some v
        | None => None
        end.
Proof.
  intros Hwf now.
  unfold cleanupOldCachedImages, try_catch, bind. cbn [default from_option id].
  rewrite storage_get_all_ok by apply Hhealthy.
  unfold date_now. cbn [trace log]. fold now.
  destruct (cleanup_scan_timestamped (map_to_list (storage w)) now maxAge [])
    as [keys [Hscan Hmem]].
  { intros k v Hin Hp. apply elem_of_map_to_list in Hin.
    apply has_timestamp_inv. by apply (Hwf k v). }
  unfold lift_res. rewrite Hscan.
  assert (Hkeys : forall k, k ∈ keys <->
     exists v, storage w !! k = Some v /\ startsWith k cache_prefix = true /\
               stale now maxAge v = true).
  { intros k. rewrite Hmem. split.
    - intros [H|[v [Hin Hs]]]; [inversion H|].
      exists v. by rewrite <- elem_of_map_to_list.
    - intros [v [Hin Hs]]. right. exists v. by rewrite elem_of_map_to_list. }
  assert (Hlookup : forall k,
     foldr delete (storage w) keys !! k =
       match storage w !! k with
       | Some v =>
           if startsWith k cache_prefix && stale now maxAge v then None else Some v
       | None => None
       end).
  { intros k. destruct (decide (k ∈ keys)) as [Hin|Hnin].
    - rewrite lookup_foldr_delete_in by done.
      apply Hkeys in Hin as [v [-> [-> ->]]]. reflexivity.
    - rewrite lookup_foldr_delete_notin by done.
      destruct (storage w !! k) as [v|] eqn:Hk; [|done].
      destruct (startsWith k cache_prefix && stale now maxAge v) eqn:Hc; [|done].
      apply andb_true_iff in Hc as [? ?]. exfalso. apply Hnin, Hkeys. eauto. }
  destruct (0 <? Z.of_nat (length keys)) eqn:Hlen.
  - rewrite storage_remove_ok by apply Hhealthy.
    eexists. split; [reflexivity|]. exact Hlookup.
  - eexists. split; [reflexivity|]. cbn [storage log].
    assert (Hnil : keys = []).
    { apply Z.ltb_ge in Hlen. apply nil_length_inv. lia. }
    intros k. rewrite <- Hlookup, Hnil. reflexivity.
Qed.


Lemma cleanup_default_age w :
  cleanupOldCachedImages E None w =
  cleanupOldCachedImages E (Some (24 * 60 * 60 * 1000)) w.
Proof. reflexivity. Qed.

(** C7. With a working storage area whose product-image entries carry the
    timestamp recorded when they were written, [cleanupOldCachedImages]
    with age limit [maxAge] removes a product-image entry when the time of
    the call minus its timestamp is strictly greater than [maxAge], keeps it
    otherwise (an entry of age exactly [maxAge] stays), and leaves all other
    keys alone. Called without argument the limit is 24 hours.
    [setupCacheCleanup] registers the sweep on a timer of 6 hours and runs
    it once at once. *)
Theorem cleanup_expiry_sweep maxAge w :
  timestamped_cache (storage w) ->
  let now := clock E (EvStorageGet None :: trace w) in
  (exists w',
     cleanupOldCachedImages E (Some maxAge) w = (Ok tt, w') /\
     (forall k v t,
        storage w !! k = Some v -> startsWith k cache_prefix = true ->
        get_prop v "timestamp" = JNum t ->
        (now - t > maxAge -> storage w' !! k = None) /\
        (now - t <= maxAge -> storage w' !! k = Some v)) /\
     (forall k, startsWith k cache_prefix = false ->
        storage w' !! k = storage w !! k)) /\
  cleanupOldCachedImages E None w =
    cleanupOldCachedImages E (Some (24 * 60 * 60 * 1000)) w /\
  setupCacheCleanup E w =
    cleanupOldCachedImages E None
      (add_timer (6 * 60 * 60 * 1000, CleanupTask)
         (log (EvSetInterval (6 * 60 * 60 * 1000)) w)) /\
  run_task E CleanupTask = cleanupOldCachedImages E None.
Proof.
  intros Hwf now. split; [|split; [|split]]; try reflexivity.
  destruct (cleanupOldCachedImages_sweep maxAge w Hwf) as [w' [Hrun Hlook]].
  exists w'. split; [exact Hrun|]. fold now in Hlook. split.
  - intros k v t Hk Hp Ht. rewrite Hlook, Hk, Hp. unfold stale. rewrite Ht.
    cbn [andb]. split; intros Hage.
    + assert ((now - t >? maxAge) = true) as -> by (apply Z.gtb_lt; lia). done.
    + destruct (now - t >? maxAge) eqn:Hc; [|done].
      apply Z.gtb_lt in Hc. lia.
  - intros k Hp. rewrite Hlook, Hp. cbn [andb]. by destruct (storage w !! k).
Qed.

End Expiry.

Lemma cleanup_expiry_sweep_witness :
  (exists w',
     cleanupOldCachedImages healthy_env (Some 1) sweep_world = (Ok tt, w') /\
     (forall k v t,
        storage sweep_world !! k = Some v -> startsWith k cache_prefix = true ->
        get_prop v "timestamp" = JNum t ->
        (clock healthy_env (EvStorageGet None :: trace sweep_world) - t > 1 ->
           storage w' !! k = None) /\
        (clock healthy_env (EvStorageGet None :: trace sweep_world) - t <= 1 ->
           storage w' !! k = Some v)) /\
     (forall k, startsWith k cache_prefix = false ->
        storage w' !! k = storage sweep_world !! k)) /\
  cleanupOldCachedImages healthy_env None sweep_world =
    cleanupOldCachedImages healthy_env (Some (24 * 60 * 60 * 1000)) sweep_world /\
  setupCacheCleanup healthy_env sweep_world =
    cleanupOldCachedImages healthy_env None
      (add_timer (6 * 60 * 60 * 1000, CleanupTask)
         (log (EvSetInterval (6 * 60 * 60 * 1000)) sweep_world)) /\
  run_task healthy_env CleanupTask = cleanupOldCachedImages healthy_env None.
Proof.
  apply (cleanup_expiry_sweep healthy_env healthy_env_healthy 1 sweep_world).
  unfold timestamped_cache.
  refine (bool_decide_unpack (map_Forall _ _) _). vm_compute. exact I.
Defined.



(** * The URL scan of a text answer *)

Section UrlScan.

Lemma take_non_space_no_space s : no_space (take_non_space s) = true.
Proof.
  induction s as [|c s IH]; [reflexivity|]. cbn [take_non_space].
  destruct (is_js_space c) eqn:Hc; [reflexivity|].
  cbn [no_space list_ascii_of_string forallb]. rewrite Hc. exact IH.
Qed.

Lemma take_non_space_prefix s : startsWith s (take_non_space s) = true.
Proof.
  induction s as [|c s IH]; [reflexivity|]. cbn [take_non_space].
  destruct (is_js_space c); [reflexivity|].
  rewrite startsWith_cons, Ascii.eqb_refl. exact IH.
Qed.

Lemma startsWith_drop s p :
  startsWith s p = true -> s = p +:+ drop_chars (String.length p) s.
Proof.
  revert s. induction p as [|c p IH]; intros s H; [reflexivity|].
  destruct s as [|d s]; [discriminate|]. rewrite startsWith_cons in H.
  destruct (Ascii.eqb c d) eqn:Hcd; [|discriminate].
  apply Ascii.eqb_eq in Hcd as ->. cbn [String.length drop_chars].
  rewrite append_cons. f_equal. by apply IH.
Qed.

Lemma startsWith_append_both p s t :
  startsWith s t = true -> startsWith (p +:+ s) (p +:+ t) = true.
Proof.
  intros H. induction p as [|c p IH]; [exact H|].
  rewrite !append_cons, startsWith_cons, Ascii.eqb_refl. exact IH.
Qed.

Lemma url_match_here_sound s u :
  url_match_here s = Some u ->
  startsWith s u = true /\
  exists body, (u = "http://" +:+ body \/ u = "https://" +:+ body) /\
               is_empty body = false /\ no_space body = true.
Proof.
  unfold url_match_here.
  destruct (startsWith s "https://") eqn:Hs.
  - destruct (is_empty (take_non_space (drop_chars 8 s))) eqn:He; [discriminate|].
    intros [= <-]. split.
    + rewrite (startsWith_drop s "https://" Hs) at 1.
      apply startsWith_append_both, take_non_space_prefix.
    + eexists. split; [right; reflexivity|]. split; [exact He|].
      apply take_non_space_no_space.
  - destruct (startsWith s "http://") eqn:Hh; [|discriminate].
    destruct (is_empty (take_non_space (drop_chars 7 s))) eqn:He; [discriminate|].
    intros [= <-]. split.
    + rewrite (startsWith_drop s "http://" Hh) at 1.
      apply startsWith_append_both, take_non_space_prefix.
    + eexists. split; [left; reflexivity|]. split; [exact He|].
      apply take_non_space_no_space.
Qed.

(** X12. The URL that the scan of a text answer finds occurs in the text, and
    it is [http://] or [https://] followed by at least one character and
    no white space. *)
Theorem first_url_sound s u :
  first_url s = Some u ->
  includes s u = true /\
  exists body, (u = "http://" +:+ body \/ u = "https://" +:+ body) /\
               is_empty body = false /\ no_space body = true.
Proof.
  induction s as [|c s IH]; cbn [first_url].
  - destruct (url_match_here "") as [v|] eqn:Hm; [|discriminate].
    intros [= ->]. apply url_match_here_sound in Hm as [Hs Hb].
    split; [by apply includes_startsWith|exact Hb].
  - destruct (url_match_here (String c s)) as [v|] eqn:Hm.
    + intros [= ->]. apply url_match_here_sound in Hm as [Hs Hb].
      split; [by apply includes_startsWith|exact Hb].
    + intros H. destruct (IH H) as [Hi Hb]. split; [|exact Hb].
      rewrite includes_cons, Hi. apply orb_true_r.
Qed.

Lemma first_url_skip p s :
  (exists u, first_url s = Some u) -> exists u, first_url (p +:+ s) = Some u.
Proof.
  intros Hs. induction p as [|c p IH]; [exact Hs|].
  rewrite append_cons. cbn [first_url].
  destruct (url_match_here (String c (p +:+ s))); eauto.
Qed.

Lemma first_url_here s : (exists u, url_match_here s = Some u) ->
  exists u, first_url s = Some u.
Proof.
  intros [u Hu]. destruct s; cbn [first_url]; rewrite Hu; eauto.
Qed.

(** X13. The scan misses no URL: a text that contains [http://] or
    [https://] followed by a character that is not white space yields a
    URL. *)
Theorem first_url_complete p b rest :
  is_js_space b = false ->
  (exists u, first_url (p +:+ "http://" +:+ String b rest) = Some u) /\
  (exists u, first_url (p +:+ "https://" +:+ String b rest) = Some u).
Proof.
  intros Hb. split; apply first_url_skip, first_url_here; unfold url_match_here.
  - change (startsWith ("http://" +:+ String b rest) "https://") with false.
    change (startsWith ("http://" +:+ String b rest) "http://") with true.
    change (drop_chars 7 ("http://" +:+ String b rest)) with (String b rest).
    cbn [take_non_space]. rewrite Hb. cbn [is_empty]. eauto.
  - change (startsWith ("https://" +:+ String b rest) "https://") with true.
    change (drop_chars 8 ("https://" +:+ String b rest)) with (String b rest).
    cbn [take_non_space]. rewrite Hb. cbn [is_empty]. eauto.
Qed.

(** ** Which texts hold a URL *)









(** ** The leftmost match *)







End UrlScan.

Lemma first_url_sound_witness :
  includes "see http://a.b/c.png and more" "http://a.b/c.png" = true /\
  exists body, ("http://a.b/c.png" = "http://" +:+ body \/
                "http://a.b/c.png" = "https://" +:+ body) /\
               is_empty body = false /\ no_space body = true.
Proof.
  apply (first_url_sound "see http://a.b/c.png and more" "http://a.b/c.png").
  vm_compute. reflexivity.
Defined.

Lemma first_url_complete_witness :
  (exists u, first_url ("see " +:+ "http://" +:+ String "a" ".png") = Some u) /\
  (exists u, first_url ("see " +:+ "https://" +:+ String "a" ".png") = Some u).
Proof. apply (first_url_complete "see " "a" ".png"). reflexivity. Defined.

(** * Composition service client and the empty outfit *)


Section Parsing.
Variable E : Env.

Lemma get_prop_object v name x :
  get_prop v name = x -> x <> JUndefined -> exists fields, v = JObj fields.
Proof. destruct v; cbn [get_prop]; try congruence. eauto. Qed.

Lemma first_message_of data message :
  message_of data message -> message <> JUndefined ->
  first_message data = Ok message.
Proof.
  intros [choice [others [Hc Hm]]] Hne.
  destruct (get_prop_object data "choices" _ Hc) as [fields ->]; [done|].
  destruct (get_prop_object choice "message" _ Hm Hne) as [cf ->].
  unfold first_message. cbn [get_prop_checked res_bind]. rewrite Hc.
  cbn [get_first_checked get_first res_bind get_prop_checked]. by rewrite Hm.
Qed.



Lemma get_prop_checked_object fields name :
  get_prop_checked (JObj fields) name = Ok (get_prop (JObj fields) name).
Proof. reflexivity. Qed.


Lemma first_image_url_found message u :
  first_image message u -> first_image_url E message = Ok (JStr u).
Proof.
  intros [first [more [Hi Hu]]].
  destruct (get_prop_object _ "url" _ Hu) as [iuf Hiu]; [done|].
  destruct (get_prop_object first "image_url" _ Hiu) as [ff ->]; [done|].
  unfold first_image_url. rewrite Hi. cbn [truthy get_length js_positive length andb].
  assert ((0 <? Z.of_nat (S (length more))) = true) as -> by (apply Z.ltb_lt; lia).
  cbn [get_first]. rewrite get_prop_checked_object. cbn [res_bind].
  rewrite Hiu. cbn [truthy]. by rewrite <- Hiu, Hu.
Qed.






(** C9 (amended). For a non-empty API key and a base photo whose
    conversion succeeds, when the storage read made for the cache summary
    succeeds, [generateOutfitImage] on an empty product list resolves to
    exactly the converted base photo and makes no call to the remote
    synthesis service: one image fetch and one storage read are all it
    does. *)
Theorem generateOutfitImage_no_products apiKey inputImageUrl w0 base w1 :
  is_empty apiKey = false ->
  convertUrlToBase64 E inputImageUrl w0 = (Ok base, w1) ->
  storage_fault E (trace w1) = None ->
  exists w',
    generateOutfitImage E apiKey inputImageUrl [] w0 = (Ok base, w') /\
    remote_calls w' = remote_calls w0 /\
    history w' = (history w0 ++ [EvFetch inputImageUrl; EvStorageGet None])%list.
Proof.
  intros Hkey Hconv Hstore.
  pose proof (convertUrlToBase64_world E inputImageUrl w0) as Hw.
  rewrite Hconv in Hw. cbn [snd] in Hw. subst w1.
  unfold generateOutfitImage. rewrite Hkey. unfold bind at 1. rewrite Hconv.
  unfold bind at 1. cbn [outfit_loop]. unfold ret at 1.
  unfold bind, getCacheInfo, try_catch. unfold bind.
  rewrite storage_get_all_ok by exact Hstore.
  eexists. split; [reflexivity|]. split.
  - reflexivity.
  - unfold history. cbn [trace log rev]. rewrite <- app_assoc. reflexivity.
Qed.

End Parsing.



Lemma generateOutfitImage_no_products_witness :
  exists w',
    generateOutfitImage healthy_env sample_key photo_url [] empty_world =
      (Ok fetched_data, w') /\
    remote_calls w' = remote_calls empty_world /\
    history w' = (history empty_world ++ [EvFetch photo_url; EvStorageGet None])%list.
Proof.
  apply (generateOutfitImage_no_products healthy_env sample_key photo_url
           empty_world fetched_data (log (EvFetch photo_url) empty_world)).
  - reflexivity.
  - vm_compute. reflexivity.
  - reflexivity.
Defined.

Lemma generateOutfitImage_no_products_rejected :
  (convertUrlToBase64 healthy_env photo_url empty_world).1 = Ok fetched_data /\
  generateOutfitImage healthy_env "" photo_url [] empty_world =
    (Throw (Error "API key is required"), empty_world) /\
  (convertUrlToBase64 storage_down_env photo_url empty_world).1 = Ok fetched_data /\
  (generateOutfitImage storage_down_env sample_key photo_url [] empty_world).1 =
    Throw (Error "storage unavailable").
Proof. vm_compute. auto. Qed.

(** * Product image extractor *)


Section Extraction.
Variable E : Env.
Hypothesis Hhealthy : storage_healthy E.

Lemma valid_cache_entry image ts url :
  startsWith image "data:" = true ->
  valid_cached_item (cache_entry image ts url) = Some image.
Proof.
  intros H. unfold valid_cached_item, cache_entry.
  change (get_prop (JObj _) "image") with (JStr image).
  cbn [truthy]. rewrite (startsWith_nonempty _ _ H eq_refl). cbn [negb andb]. rewrite H.
  reflexivity.
Qed.

(** What one run of the [try] block leaves behind. *)
Lemma parse_extraction_response_outcome url name data w :
  exists res w',
    parse_extraction_response E url name data w = (res, w') /\
    match res with
    | Ok image =>
        startsWith image "data:" = true /\
        exists ts, storage w' = <[cacheKey_of url := cache_entry image ts url]> (storage w)
    | Throw _ => storage w' = storage w
    end.
Proof.
  unfold parse_extraction_response. rewrite try_catch_rethrow.
  assert (Hstop : forall e : JsError,
    exists (res : Res string) w',
      (Throw e, w) = (res, w') /\
      match res with
      | Ok image =>
          startsWith image "data:" = true /\
          exists ts, storage w' = <[cacheKey_of url := cache_entry image ts url]> (storage w)
      | Throw _ => storage w' = storage w
      end).
  { intros e. eexists _, _. split; reflexivity. }
  assert (Hdirect : forall image,
    startsWith image "data:" = true ->
    exists res w',
      (do! cacheProductImage E url image in ret image) w = (res, w') /\
      match res with
      | Ok image =>
          startsWith image "data:" = true /\
          exists ts, storage w' = <[cacheKey_of url := cache_entry image ts url]> (storage w)
      | Throw _ => storage w' = storage w
      end).
  { intros image Himg. unfold bind.
    rewrite cacheProductImage_healthy by apply Hhealthy.
    eexists _, _. split; [reflexivity|]. split; [exact Himg|].
    eexists. reflexivity. }
  assert (Hfetched : forall imageUrl,
    exists res w',
      (let! base64Image := convertUrlToBase64 E imageUrl in
       do! cacheProductImage E url base64Image in ret base64Image) w = (res, w') /\
      match res with
      | Ok image =>
          startsWith image "data:" = true /\
          exists ts, storage w' = <[cacheKey_of url := cache_entry image ts url]> (storage w)
      | Throw _ => storage w' = storage w
      end).
  { intros imageUrl. unfold bind.
    destruct (convertUrlToBase64_run E imageUrl w) as [r Hr].
    pose proof (convertUrlToBase64_data E imageUrl w) as Hdata.
    rewrite Hr in *. destruct r as [image|e].
    - rewrite cacheProductImage_healthy by apply Hhealthy.
      eexists _, _. split; [reflexivity|]. split; [by eapply Hdata|].
      eexists. reflexivity.
    - eexists _, _. split; [reflexivity|]. reflexivity. }
  unfold bind at 1, lift_res at 1.
  destruct (first_message data) as [m|e]; [|apply Hstop].
  unfold bind at 1, lift_res at 1.
  destruct (get_prop_checked m "content") as [c|e]; [|apply Hstop].
  assert (Htext : exists res w',
      (let! urls := lift_res (match_first_url c) in
       match urls with
       | Some imageUrl =>
           let! base64Image := convertUrlToBase64 E imageUrl in
           do! cacheProductImage E url base64Image in ret base64Image
       | None => throw (Error ("Failed to extract product image for " +:+ name))
       end) w = (res, w') /\
      match res with
      | Ok image =>
          startsWith image "data:" = true /\
          exists ts, storage w' = <[cacheKey_of url := cache_entry image ts url]> (storage w)
      | Throw _ => storage w' = storage w
      end).
  { unfold bind at 1, lift_res at 1.
    destruct (match_first_url c) as [[imageUrl|]|e];
      [apply Hfetched|apply Hstop|apply Hstop]. }
  unfold bind at 1, lift_res at 1.
  destruct (first_image_url E m) as [v|e]; [|apply Hstop].
  destruct (truthy v); [|exact Htext].
  destruct v as [| |b|n|imageUrl|l|l]; try apply Hstop.
  destruct (startsWith imageUrl "data:") eqn:Hd; [by apply Hdirect|].
  destruct (startsWith imageUrl "http"); [apply Hfetched|exact Htext].
Qed.

(** The [try] block on a body whose first structured image has a URL. *)
Lemma parse_extraction_response_image url name data message u w :
  message_of data message -> first_image message u ->
  (startsWith u "data:" = true ->
   parse_extraction_response E url name data w =
     (do! cacheProductImage E url u in ret u) w) /\
  (startsWith u "data:" = false -> startsWith u "http" = true ->
   parse_extraction_response E url name data w =
     (let! base64Image := convertUrlToBase64 E u in
      do! cacheProductImage E url base64Image in ret base64Image) w).
Proof.
  intros Hm Hi.
  assert (Hobj : exists fields, message = JObj fields).
  { destruct Hi as [first [more [Hi _]]]. by eapply get_prop_object. }
  destruct Hobj as [fields ->].
  split; [intros Hd|intros Hd Hh];
    (unfold parse_extraction_response; rewrite try_catch_rethrow;
     unfold bind at 1, lift_res at 1;
     rewrite (first_message_of data (JObj fields)) by done;
     unfold bind at 1, lift_res at 1; rewrite get_prop_checked_object;
     unfold bind at 1, lift_res at 1; rewrite (first_image_url_found E _ u Hi);
     cbn [truthy]).
  - by rewrite (startsWith_nonempty u "data:"), Hd.
  - by rewrite (startsWith_nonempty u "http"), Hd, Hh.
Qed.

Lemma parse_extraction_response_extends url name data w :
  extends w (parse_extraction_response E url name data w).2.
Proof. apply logs_only_parse_extraction_response. Qed.

(** The extraction call: the request goes out first; a result is cached
    under the source URL, a failure leaves the storage area as it was. *)
Lemma request_extraction_outcome k url name raw w :
  exists res w' later,
    request_extraction E k url name raw w = (res, w') /\
    trace w' = (later ++ EvPost (ExtractRequest k raw name) :: trace w)%list /\
    match res with
    | Ok image =>
        startsWith image "data:" = true /\
        exists ts, storage w' = <[cacheKey_of url := cache_entry image ts url]> (storage w)
    | Throw _ => storage w' = storage w
    end.
Proof.
  unfold request_extraction, bind, post_request.
  destruct (net_post E (trace w) (ExtractRequest k raw name)) as [e|r].
  { eexists _, _, []. split; [reflexivity|]. split; reflexivity. }
  destruct (api_ok r); cbn [negb].
  2:{ eexists _, _, []. split; [reflexivity|]. split; reflexivity. }
  unfold lift_res. destruct (response_json r) as [data|e].
  2:{ eexists _, _, []. split; [reflexivity|]. split; reflexivity. }
  set (wp := log (EvPost (ExtractRequest k raw name)) w).
  destruct (parse_extraction_response_outcome url name data wp) as [res [w' [Hrun Hout]]].
  destruct (parse_extraction_response_extends url name data wp) as [later Hlater].
  rewrite Hrun in *. cbn [snd] in Hlater.
  exists res, w', later. split; [reflexivity|]. split; [exact Hlater|exact Hout].
Qed.

(** With a valid entry in the storage area the extractor answers from it,
    after one storage read and nothing else. *)
Lemma extractActualProductImage_hit k url name w image :
  valid_cached_item (js_index (storage w) (cacheKey_of url)) = Some image ->
  extractActualProductImage E k url name w =
    (Ok image, log (EvStorageGet (Some [cacheKey_of url])) w).
Proof.
  intros Hvalid. unfold extractActualProductImage, bind.
  rewrite getCachedProductImage_answer by apply Hhealthy. cbn zeta.
  rewrite Hvalid.
  destruct (valid_cached_item_image_like _ _ Hvalid) as [Hprop Hdata].
  assert (Hne : is_empty image = false) by (eapply startsWith_nonempty; eauto).
  assert (Ht : truthy (js_index (storage w) (cacheKey_of url)) &&
               truthy (get_prop (js_index (storage w) (cacheKey_of url)) "image") = true).
  { unfold valid_cached_item in Hvalid.
    destruct (truthy _ && truthy _); [reflexivity|discriminate]. }
  rewrite Ht. cbn [cached_image]. rewrite Hne. reflexivity.
Qed.

(** The body below the cache check, when it resolves. *)
Lemma extract_uncached_resolved k url name w image w' :
  extract_uncached E k url name w = (Ok image, w') ->
  startsWith image "data:" = true /\
  exists ts, storage w' !! cacheKey_of url = Some (cache_entry image ts url).
Proof.
  unfold extract_uncached, bind.
  destruct (convertUrlToBase64 E url w) as [[raw|e] wb]; [|discriminate].
  rewrite cacheProductImage_healthy by apply Hhealthy.
  match goal with |- context [request_extraction E k url name raw ?wc] =>
    destruct (request_extraction_outcome k url name raw wc)
      as [res [w1 [later [Hrun [_ Hout]]]]]
  end.
  rewrite Hrun. intros [= -> ->].
  destruct Hout as [Hdata [ts Hst]]. split; [exact Hdata|].
  exists ts. rewrite Hst. apply lookup_insert_eq.
Qed.

Lemma extractActualProductImage_resolved k url name w image w' :
  extractActualProductImage E k url name w = (Ok image, w') ->
  valid_cached_item (js_index (storage w') (cacheKey_of url)) = Some image.
Proof.
  unfold extractActualProductImage, bind.
  rewrite getCachedProductImage_answer by apply Hhealthy. cbn zeta.
  assert (Hunc : forall w0,
    extract_uncached E k url name w0 = (Ok image, w') ->
    valid_cached_item (js_index (storage w') (cacheKey_of url)) = Some image).
  { intros w0 Hrun. apply extract_uncached_resolved in Hrun as [Hdata [ts Hst]].
    unfold js_index. rewrite Hst. by apply valid_cache_entry. }
  destruct (truthy _ && truthy _); [|apply Hunc].
  destruct (valid_cached_item (js_index (storage w) (cacheKey_of url)))
    as [cached|] eqn:Hvalid; [|apply Hunc].
  cbn [cached_image].
  destruct (valid_cached_item_image_like _ _ Hvalid) as [_ Hdata].
  rewrite (startsWith_nonempty _ _ Hdata eq_refl). cbn [negb].
  intros [= -> <-]. exact Hvalid.
Qed.

Lemma remote_calls_log_get keys w :
  remote_calls (log (EvStorageGet keys) w) = remote_calls w.
Proof. reflexivity. Qed.

(** C5. With a working storage area, after a call of
    [extractActualProductImage] on a source URL has resolved, a second call
    on the same URL resolves to the same payload after a single storage
    read: it makes no call to the remote synthesis service and fetches no
    image. *)
Theorem extract_warm_cache_idempotent k url name1 name2 w0 image w1 :
  extractActualProductImage E k url name1 w0 = (Ok image, w1) ->
  exists w2,
    extractActualProductImage E k url name2 w1 = (Ok image, w2) /\
    remote_calls w2 = remote_calls w1 /\
    image_fetches w2 = image_fetches w1 /\
    history w2 = (history w1 ++ [EvStorageGet (Some [cacheKey_of url])])%list.
Proof.
  intros Hfirst. apply extractActualProductImage_resolved in Hfirst.
  rewrite (extractActualProductImage_hit k url name2 w1 image Hfirst).
  eexists. split; [reflexivity|]. repeat split; reflexivity.
Qed.

End Extraction.

Lemma extract_warm_cache_idempotent_witness :
  exists w2,
    extractActualProductImage healthy_env sample_key jacket_url "Red Jacket"
      warm_world = (Ok generated_data, w2) /\
    remote_calls w2 = remote_calls warm_world /\
    image_fetches w2 = image_fetches warm_world /\
    history w2 =
      (history warm_world ++ [EvStorageGet (Some [cacheKey_of jacket_url])])%list.
Proof.
  apply (extract_warm_cache_idempotent healthy_env healthy_env_healthy sample_key
           jacket_url "Red Jacket" "Red Jacket" empty_world generated_data warm_world).
  vm_compute. reflexivity.
Defined.



Section ExtractionOrder.
Variable E : Env.
Hypothesis Hhealthy : storage_healthy E.

Lemma getCachedProductImage_no_remote url w :
  remote_calls (getCachedProductImage E url w).2 = remote_calls w.
Proof.
  unfold getCachedProductImage, try_catch, bind, storage_get, storage_remove, ret.
  destruct (storage_fault E (trace w)); [reflexivity|]. cbn zeta.
  match goal with |- context [truthy ?e && _] => set (entry := e) end.
  destruct (truthy entry && truthy (get_prop entry "image")); [|reflexivity].
  destruct (get_prop entry "image") as [| |b|n|s|l|l];
    try (cbn [log trace]; destruct (storage_fault E _); reflexivity).
  destruct (startsWith s "data:"); [reflexivity|].
  cbn [log trace]. destruct (storage_fault E _); reflexivity.
Qed.

(** C6. With a working storage area, on a cache miss followed by a
    successful fetch, [extractActualProductImage] first stores the raw
    fetched payload under the key of the source URL and only then sends the
    extraction request, which carries that payload; no remote call is made
    before. When the service answers with an image, the call resolves to
    that image (a data URL as it is, an [http] URL fetched and converted)
    and writes it under the same key, over the raw payload. Whenever the
    call resolves, the entry under the key holds what it resolved to, and a
    retry resolves to it after one storage read. When the call fails, the
    entry still holds the raw payload, and a retry resolves to it after one
    storage read, without fetching the image again. *)
Theorem extract_caches_raw_then_extracted k url name w0 wa raw wb :
  getCachedProductImage E url w0 = (Ok None, wa) ->
  convertUrlToBase64 E url wa = (Ok raw, wb) ->
  let key := cacheKey_of url in
  let rawEntry := cache_entry raw (clock E (trace wb)) url in
  let request := ExtractRequest k raw name in
  let wc := set_storage (<[key := rawEntry]> (storage wb))
              (log (EvStorageSet key rawEntry) wb) in
  let wp := log (EvPost request) wc in
  let run := extractActualProductImage E k url name w0 in
  remote_calls wb = remote_calls w0 /\
  (exists rest,
     history run.2 =
       (history wb ++ [EvStorageSet key rawEntry; EvPost request] ++ rest)%list) /\
  (forall r u,
     net_post E (trace wc) request = PostResolved r ->
     api_ok r = true -> offers_image r u ->
     (startsWith u "data:" = true ->
        run.1 = Ok u /\
        history run.2 =
          (history wb ++
           [EvStorageSet key rawEntry; EvPost request;
            EvStorageSet key (cache_entry u (clock E (trace wp)) url)])%list /\
        storage run.2 !! key = Some (cache_entry u (clock E (trace wp)) url)) /\
     (startsWith u "data:" = false -> startsWith u "http" = true ->
      forall image wq,
        convertUrlToBase64 E u wp = (Ok image, wq) ->
        run.1 = Ok image /\
        storage run.2 !! key = Some (cache_entry image (clock E (trace wq)) url))) /\
  (forall image, run.1 = Ok image ->
     (exists ts, storage run.2 !! key = Some (cache_entry image ts url)) /\
     extractActualProductImage E k url name run.2 =
       (Ok image, log (EvStorageGet (Some [key])) run.2)) /\
  (forall e, run.1 = Throw e ->
     storage run.2 !! key = Some rawEntry /\
     extractActualProductImage E k url name run.2 =
       (Ok raw, log (EvStorageGet (Some [key])) run.2)).
Proof.
  intros Hmiss Hfetch key rawEntry request wc wp run.
  assert (Hraw : startsWith raw "data:" = true)
    by (eapply convertUrlToBase64_data; eauto).
  assert (Hcalls : remote_calls wb = remote_calls w0).
  { pose proof (convertUrlToBase64_world E url wa) as Hwb.
    pose proof (getCachedProductImage_no_remote url w0) as Hwa.
    rewrite Hfetch in Hwb. rewrite Hmiss in Hwa. cbn [snd] in *. subst wb.
    exact Hwa. }
  assert (Hrun : run = request_extraction E k url name raw wc).
  { unfold run, extractActualProductImage, bind. rewrite Hmiss.
    unfold extract_uncached, bind. rewrite Hfetch.
    rewrite cacheProductImage_healthy by apply Hhealthy. reflexivity. }
  assert (Hanswer : forall r u,
    net_post E (trace wc) request = PostResolved r -> api_ok r = true ->
    offers_image r u ->
    exists data message,
      run = parse_extraction_response E url name data wp /\
      message_of data message /\ first_image message u).
  { intros r u Hpost Hok [data [message [Hjson [Hm Hi]]]].
    exists data, message. split; [|done]. rewrite Hrun.
    unfold request_extraction, bind, post_request. fold request. rewrite Hpost, Hok.
    cbn [negb]. unfold lift_res, response_json. rewrite Hjson. reflexivity. }
  destruct (request_extraction_outcome E Hhealthy k url name raw wc)
    as [res [w1 [later [Hreq [Htrace Hout]]]]].
  split; [exact Hcalls|]. split.
  { exists (rev later). rewrite Hrun, Hreq. cbn [snd]. unfold history.
    rewrite Htrace. subst wc. cbn [trace set_storage log].
    rewrite rev_app_distr. cbn [rev]. rewrite <- !app_assoc. reflexivity. }
  split.
  { intros r u Hpost Hok Hoffer.
    destruct (Hanswer r u Hpost Hok Hoffer) as [data [message [Hparse [Hm Hi]]]].
    destruct (parse_extraction_response_image E url name data message u wp Hm Hi)
      as [Hdata Hhttp].
    split.
    - intros Hd. rewrite Hparse, (Hdata Hd). unfold bind.
      rewrite cacheProductImage_healthy by apply Hhealthy.
      unfold ret. cbn [fst snd]. split; [reflexivity|]. split.
      + unfold history, wp, wc. cbn [trace set_storage log rev].
        rewrite <- ?app_assoc. reflexivity.
      + cbn [storage set_storage]. apply lookup_insert_eq.
    - intros Hd Hh image wq Hconv. rewrite Hparse, (Hhttp Hd Hh). unfold bind.
      rewrite Hconv. rewrite cacheProductImage_healthy by apply Hhealthy.
      unfold ret. cbn [fst snd]. split; [reflexivity|].
      cbn [storage set_storage]. apply lookup_insert_eq. }
  rewrite Hrun, Hreq. cbn [fst snd]. split.
  - intros image ->. destruct Hout as [Hdata [ts Hst]].
    assert (Hkey : storage w1 !! key = Some (cache_entry image ts url))
      by (rewrite Hst; apply lookup_insert_eq).
    split; [eauto|].
    apply extractActualProductImage_hit; [exact Hhealthy|].
    unfold js_index. fold key. rewrite Hkey. by apply valid_cache_entry.
  - intros e ->.
    assert (Hkey : storage w1 !! key = Some rawEntry).
    { rewrite Hout. subst wc. cbn [storage set_storage]. apply lookup_insert_eq. }
    split; [exact Hkey|].
    apply extractActualProductImage_hit; [exact Hhealthy|].
    unfold js_index. fold key. rewrite Hkey. by apply valid_cache_entry.
Qed.

End ExtractionOrder.

Lemma extraction_refused_env_healthy : storage_healthy extraction_refused_env.
Proof. intros h. reflexivity. Qed.

Lemma extract_caches_raw_then_extracted_witness :
  remote_calls miss_fetch_world = remote_calls empty_world /\
  (exists rest,
     history warm_world =
       (history miss_fetch_world ++
        [EvStorageSet (cacheKey_of jacket_url) raw_jacket_entry;
         EvPost (ExtractRequest sample_key fetched_data "Red Jacket")] ++ rest)%list) /\
  (forall r u,
     net_post healthy_env (trace miss_cached_world)
       (ExtractRequest sample_key fetched_data "Red Jacket") = PostResolved r ->
     api_ok r = true -> offers_image r u ->
     (startsWith u "data:" = true ->
        (extractActualProductImage healthy_env sample_key jacket_url "Red Jacket"
           empty_world).1 = Ok u /\
        history warm_world =
          (history miss_fetch_world ++
           [EvStorageSet (cacheKey_of jacket_url) raw_jacket_entry;
            EvPost (ExtractRequest sample_key fetched_data "Red Jacket");
            EvStorageSet (cacheKey_of jacket_url)
              (cache_entry u (clock healthy_env (trace miss_posted_world))
                 jacket_url)])%list /\
        storage warm_world !! cacheKey_of jacket_url =
          Some (cache_entry u (clock healthy_env (trace miss_posted_world))
                  jacket_url)) /\
     (startsWith u "data:" = false -> startsWith u "http" = true ->
      forall image wq,
        convertUrlToBase64 healthy_env u miss_posted_world = (Ok image, wq) ->
        (extractActualProductImage healthy_env sample_key jacket_url "Red Jacket"
           empty_world).1 = Ok image /\
        storage warm_world !! cacheKey_of jacket_url =
          Some (cache_entry image (clock healthy_env (trace wq)) jacket_url))) /\
  (forall image,
     (extractActualProductImage healthy_env sample_key jacket_url "Red Jacket"
        empty_world).1 = Ok image ->
     (exists ts, storage warm_world !! cacheKey_of jacket_url =
                   Some (cache_entry image ts jacket_url)) /\
     extractActualProductImage healthy_env sample_key jacket_url "Red Jacket"
       warm_world =
       (Ok image, log (EvStorageGet (Some [cacheKey_of jacket_url])) warm_world)) /\
  (forall e,
     (extractActualProductImage healthy_env sample_key jacket_url "Red Jacket"
        empty_world).1 = Throw e ->
     storage warm_world !! cacheKey_of jacket_url = Some raw_jacket_entry /\
     extractActualProductImage healthy_env sample_key jacket_url "Red Jacket"
       warm_world =
       (Ok fetched_data,
        log (EvStorageGet (Some [cacheKey_of jacket_url])) warm_world)).
Proof.
  apply (extract_caches_raw_then_extracted healthy_env healthy_env_healthy
           sample_key jacket_url "Red Jacket" empty_world miss_lookup_world
           fetched_data miss_fetch_world).
  - vm_compute. reflexivity.
  - vm_compute. reflexivity.
Defined.

(** * Progressive outfit composer *)


Section Composer.
Variable E : Env.


Lemma outfit_loop_app k pre ps cur w :
  outfit_loop E k (pre ++ ps) cur w =
  (let! mid := outfit_loop E k pre cur in outfit_loop E k ps mid) w.
Proof.
  revert cur w. induction pre as [|p pre IH]; intros cur w; [reflexivity|].
  cbn [app outfit_loop]. unfold bind in *.
  destruct (outfit_iteration E k cur p w) as [[next|e] w1]; [|reflexivity].
  apply IH.
Qed.

(** A run up to one item of the list. *)
Lemma generateOutfitImage_reach k base pre p post w0 b0 w1 cur w2 :
  is_empty k = false ->
  convertUrlToBase64 E base w0 = (Ok b0, w1) ->
  outfit_loop E k pre b0 w1 = (Ok cur, w2) ->
  generateOutfitImage E k base (pre ++ p :: post) w0 =
    (let! next := outfit_iteration E k cur p in
     let! final := outfit_loop E k post next in
     let! cacheInfo := getCacheInfo E in
     ret final) w2.
Proof.
  intros Hkey Hbase Hpre. unfold generateOutfitImage. rewrite Hkey.
  unfold bind at 1. rewrite Hbase. unfold bind at 1.
  rewrite outfit_loop_app. unfold bind at 1. rewrite Hpre.
  cbn [outfit_loop]. unfold bind.
  destruct (outfit_iteration E k cur p w2) as [[next|e] w3]; reflexivity.
Qed.




Lemma resolve_product_image_fallback k p w wa e wx :
  getCachedProductImage E (product_image p) w = (Ok None, wa) ->
  extractActualProductImage E k (product_image p) (product_name p) wa = (Throw e, wx) ->
  resolve_product_image E k p w = convertUrlToBase64 E (product_image p) wx.
Proof.
  intros Hmiss Hextract. unfold resolve_product_image, try_catch, bind.
  rewrite Hmiss, Hextract. reflexivity.
Qed.

Lemma compose_product_posts k cur img name w :
  exists rest,
    history (compose_product E k cur img name w).2 =
      (history w ++ EvPost (OutfitRequest k cur img name) :: rest)%list.
Proof.
  unfold compose_product, bind, post_request.
  set (wp := log (EvPost (OutfitRequest k cur img name)) w).
  assert (Hwp : history wp = (history w ++ [EvPost (OutfitRequest k cur img name)])%list)
    by reflexivity.
  assert (Hstop : forall (res : Res string), exists rest,
            history (res, wp).2 =
              (history w ++ EvPost (OutfitRequest k cur img name) :: rest)%list).
  { intros res. exists []. exact Hwp. }
  destruct (net_post E (trace w) (OutfitRequest k cur img name)) as [e|r];
    [apply Hstop|].
  destruct (api_ok r); cbn [negb]; [|apply Hstop].
  unfold lift_res. destruct (response_json r) as [data|e]; [|apply Hstop].
  destruct (logs_only_parse_outfit_response E name data wp) as [later Hlater].
  exists (rev later). unfold history at 1. rewrite Hlater, rev_app_distr.
  fold (history wp). rewrite Hwp, <- app_assoc. reflexivity.
Qed.

(** C2. Whatever the items before and after: when the run reaches an
    item, the cache has no image for it, [extractActualProductImage] throws
    and the direct fetch of the item's source URL then succeeds, the
    iteration goes on as the composition step on the raw fetched image, and
    the run sends the composition request built from the current base image,
    the raw image and the item's name right after that fetch. *)
Theorem extraction_failure_falls_back k base pre p post w0 b0 w1 cur w2 wa e wx raw wr :
  is_empty k = false ->
  convertUrlToBase64 E base w0 = (Ok b0, w1) ->
  outfit_loop E k pre b0 w1 = (Ok cur, w2) ->
  getCachedProductImage E (product_image p) w2 = (Ok None, wa) ->
  extractActualProductImage E k (product_image p) (product_name p) wa = (Throw e, wx) ->
  convertUrlToBase64 E (product_image p) wx = (Ok raw, wr) ->
  outfit_iteration E k cur p w2 = compose_product E k cur raw (product_name p) wr /\
  exists rest,
    history (generateOutfitImage E k base (pre ++ p :: post) w0).2 =
      (history wr ++ EvPost (OutfitRequest k cur raw (product_name p)) :: rest)%list.
Proof.
  intros Hkey Hbase Hpre Hmiss Hextract Hraw.
  assert (Hiter : outfit_iteration E k cur p w2 =
                  compose_product E k cur raw (product_name p) wr).
  { unfold outfit_iteration, bind at 1.
    rewrite (resolve_product_image_fallback k p w2 wa e wx Hmiss Hextract), Hraw.
    reflexivity. }
  split; [exact Hiter|].
  rewrite (generateOutfitImage_reach k base pre p post w0 b0 w1 cur w2 Hkey Hbase Hpre).
  destruct (compose_product_posts k cur raw (product_name p) wr) as [rest Hrest].
  unfold bind at 1. rewrite Hiter.
  destruct (compose_product E k cur raw (product_name p) wr) as [[next|err] wn] eqn:Hc;
    cbn [snd] in Hrest.
  - assert (Hafter : logs_only
       (let! final := outfit_loop E k post next in
        let! cacheInfo := getCacheInfo E in ret final)).
    { apply logs_only_bind; [apply logs_only_outfit_loop|]. intros final.
      apply logs_only_bind; [apply logs_only_getCacheInfo|]. intros info.
      apply logs_only_ret. }
    destruct (Hafter wn) as [later Hlater].
    exists (rest ++ rev later)%list. unfold history at 1.
    rewrite Hlater, rev_app_distr. fold (history wn). rewrite Hrest, <- app_assoc.
    reflexivity.
  - exists rest. exact Hrest.
Qed.

End Composer.



Lemma extraction_failure_falls_back_witness :
  outfit_iteration extraction_refused_env sample_key fetched_data red_jacket
    refused_photo_world =
    compose_product extraction_refused_env sample_key fetched_data fetched_data
      (product_name red_jacket) refused_fallback_world /\
  exists rest,
    history (generateOutfitImage extraction_refused_env sample_key photo_url
               ([] ++ red_jacket :: []) empty_world).2 =
      (history refused_fallback_world ++
       EvPost (OutfitRequest sample_key fetched_data fetched_data
                 (product_name red_jacket)) :: rest)%list.
Proof.
  apply (extraction_failure_falls_back extraction_refused_env sample_key photo_url
           [] red_jacket [] empty_world fetched_data refused_photo_world
           fetched_data refused_photo_world refused_lookup_world
           (Error "Failed to extract product image for Red Jacket: 429 rate limited")
           refused_extract_world fetched_data refused_fallback_world).
  - reflexivity.
  - vm_compute. reflexivity.
  - reflexivity.
  - vm_compute. reflexivity.
  - vm_compute. reflexivity.
  - vm_compute. reflexivity.
Defined.

(** * More on the content cache *)

Section CacheRoundTrip.
Variable E : Env.
Hypothesis Hhealthy : storage_healthy E.

(** A lookup under a key that holds what [cacheProductImage] wrote. *)
Lemma getCachedProductImage_written url w image ts source :
  storage w !! cacheKey_of url = Some (cache_entry image ts source) ->
  startsWith image "data:" = true ->
  getCachedProductImage E url w =
    (Ok (Some {| cached_image := image;
                 cached_object := cache_entry image ts source |}),
     log (EvStorageGet (Some [cacheKey_of url])) w).
Proof.
  intros Hkey Hdata.
  rewrite getCachedProductImage_answer by apply Hhealthy. cbn zeta.
  unfold js_index. rewrite Hkey.
  rewrite (valid_cache_entry image ts source Hdata).
  change (get_prop (cache_entry image ts source) "image") with (JStr image).
  cbn [truthy cache_entry]. rewrite (startsWith_nonempty _ _ Hdata eq_refl).
  reflexivity.
Qed.

Lemma cacheProductImage_stored url image w :
  storage (cacheProductImage E url image w).2 !! cacheKey_of url =
    Some (cache_entry image (clock E (trace w)) url).
Proof.
  rewrite cacheProductImage_healthy by apply Hhealthy.
  cbn [snd storage set_storage]. apply lookup_insert_eq.
Qed.

(** X1. Round trip of the content cache. While the storage area works, an
    image that starts with [data:] and was written by [cacheProductImage]
    is what the next [getCachedProductImage] of the same URL resolves to;
    the entry records the URL and the time of the write, and the lookup
    leaves the storage area as the write left it. *)
Theorem cache_put_then_get url image w :
  startsWith image "data:" = true ->
  exists entry w',
    getCachedProductImage E url (cacheProductImage E url image w).2 =
      (Ok (Some {| cached_image := image; cached_object := entry |}), w') /\
    get_prop entry "url" = JStr url /\
    get_prop entry "timestamp" = JNum (clock E (trace w)) /\
    storage w' = storage (cacheProductImage E url image w).2.
Proof.
  intros Hdata.
  rewrite (getCachedProductImage_written url _ image (clock E (trace w)) url
             (cacheProductImage_stored url image w) Hdata).
  eexists _, _. split; [reflexivity|]. repeat split; reflexivity.
Qed.

(** X2. [cacheProductImage] checks nothing: a payload that does not start
    with [data:] is stored as it is. The next lookup of that URL is a
    miss, and it deletes the entry, unless the payload is the empty
    string, which stays in the storage area. *)
Theorem cache_put_unchecked_then_miss url image w :
  startsWith image "data:" = false ->
  let w1 := (cacheProductImage E url image w).2 in
  storage w1 !! cacheKey_of url = Some (cache_entry image (clock E (trace w)) url) /\
  exists w2,
    getCachedProductImage E url w1 = (Ok None, w2) /\
    storage w2 !! cacheKey_of url =
      if is_empty image then Some (cache_entry image (clock E (trace w)) url)
      else None.
Proof.
  intros Hdata w1. split; [apply cacheProductImage_stored|].
  rewrite getCachedProductImage_answer by apply Hhealthy. cbn zeta.
  unfold js_index. subst w1. rewrite cacheProductImage_stored.
  unfold valid_cached_item.
  change (get_prop (cache_entry image (clock E (trace w)) url) "image") with (JStr image).
  cbn [truthy cache_entry andb]. rewrite Hdata.
  destruct (is_empty image) eqn:Hempty; cbn [negb].
  - eexists. split; [reflexivity|]. cbn [storage log]. apply cacheProductImage_stored.
  - eexists. split; [reflexivity|]. cbn [storage set_storage log].
    apply lookup_delete_eq.
Qed.

End CacheRoundTrip.

Lemma cache_put_then_get_witness :
  exists entry w',
    getCachedProductImage healthy_env jacket_url
      (cacheProductImage healthy_env jacket_url generated_data empty_world).2 =
      (Ok (Some {| cached_image := generated_data; cached_object := entry |}), w') /\
    get_prop entry "url" = JStr jacket_url /\
    get_prop entry "timestamp" = JNum (clock healthy_env (trace empty_world)) /\
    storage w' =
      storage (cacheProductImage healthy_env jacket_url generated_data empty_world).2.
Proof.
  apply (cache_put_then_get healthy_env healthy_env_healthy jacket_url generated_data
           empty_world).
  reflexivity.
Defined.

Lemma cache_put_unchecked_then_miss_witness :
  storage (cacheProductImage healthy_env jacket_url "not an image" empty_world).2
    !! cacheKey_of jacket_url =
    Some (cache_entry "not an image" (clock healthy_env (trace empty_world)) jacket_url) /\
  exists w2,
    getCachedProductImage healthy_env jacket_url
      (cacheProductImage healthy_env jacket_url "not an image" empty_world).2 =
      (Ok None, w2) /\
    storage w2 !! cacheKey_of jacket_url =
      if is_empty "not an image"
      then Some (cache_entry "not an image" (clock healthy_env (trace empty_world))
                   jacket_url)
      else None.
Proof.
  apply (cache_put_unchecked_then_miss healthy_env healthy_env_healthy jacket_url
           "not an image" empty_world).
  reflexivity.
Defined.

Section HashCollisions.

Lemma to_int32_shift z : exists k, to_int32 z = z + k * 2 ^ 32.
Proof.
  unfold to_int32. pose proof (Z.div_mod z (2 ^ 32) ltac:(lia)) as Hd.
  destruct (z mod 2 ^ 32 <? 2 ^ 31).
  - exists (- (z / 2 ^ 32)). lia.
  - exists (- (z / 2 ^ 32) - 1). lia.
Qed.

Lemma to_int32_congruent a b k : a = b + k * 2 ^ 32 -> to_int32 a = to_int32 b.
Proof. intros ->. unfold to_int32. rewrite Z_mod_plus_full. reflexivity. Qed.

Lemma hash_step_linear hash c :
  exists k, hash_step hash c = 31 * hash + Z.of_N (N_of_ascii c) + k * 2 ^ 32.
Proof.
  unfold hash_step, js_and, js_shl. rewrite Z.land_diag, Z.shiftl_mul_pow2 by lia.
  destruct (to_int32_shift hash) as [k1 H1].
  destruct (to_int32_shift (to_int32 hash * 2 ^ 5)) as [k2 H2].
  destruct (to_int32_shift (to_int32 (to_int32 hash * 2 ^ 5) - hash
                            + Z.of_N (N_of_ascii c))) as [k3 H3].
  exists (32 * k1 + k2 + k3). rewrite H3, H2, H1. lia.
Qed.

Lemma generateUrlHash_loop_cons c url hash :
  generateUrlHash_loop (String c url) hash = generateUrlHash_loop url (hash_step hash c).
Proof. reflexivity. Qed.

Lemma generateUrlHash_loop_append p q hash :
  generateUrlHash_loop (p +:+ q) hash =
  generateUrlHash_loop q (generateUrlHash_loop p hash).
Proof.
  revert hash. induction p as [|c p IH]; intros hash; [reflexivity|].
  rewrite append_cons, !generateUrlHash_loop_cons. apply IH.
Qed.

Lemma hash_step_range hash c : - 2 ^ 31 <= hash_step hash c < 2 ^ 31.
Proof. unfold hash_step, js_and. rewrite Z.land_diag. apply to_int32_range. Qed.

Lemma hash_step_Aa_BB hash :
  hash_step (hash_step hash "A") "a" = hash_step (hash_step hash "B") "B".
Proof.
  destruct (hash_step_linear hash "A") as [k1 H1].
  destruct (hash_step_linear hash "B") as [k2 H2].
  destruct (hash_step_linear (hash_step hash "A") "a") as [k3 H3].
  destruct (hash_step_linear (hash_step hash "B") "B") as [k4 H4].
  pose proof (hash_step_range (hash_step hash "A") "a") as Ra.
  pose proof (hash_step_range (hash_step hash "B") "B") as Rb.
  change (Z.of_N (N_of_ascii "A")) with 65 in *.
  change (Z.of_N (N_of_ascii "B")) with 66 in *.
  change (Z.of_N (N_of_ascii "a")) with 97 in *.
  lia.
Qed.

Lemma generateUrlHash_collision p s :
  generateUrlHash (p +:+ "Aa" +:+ s) = generateUrlHash (p +:+ "BB" +:+ s).
Proof.
  unfold generateUrlHash. f_equal. f_equal.
  rewrite !generateUrlHash_loop_append.
  change ("Aa" +:+ s) with (String "A" (String "a" s)).
  change ("BB" +:+ s) with (String "B" (String "B" s)).
  rewrite !generateUrlHash_loop_cons. f_equal. apply hash_step_Aa_BB.
Qed.

End HashCollisions.

Section CacheKeys.
Variable E : Env.
Hypothesis Hhealthy : storage_healthy E.

(** X3. The cache key is a 32-bit hash of the URL, and the URL stored in the
    entry is never compared on a lookup: two URLs that differ only by
    [Aa] against [BB] at one place have the same key, and an image cached
    for the first is returned by a lookup of the second. *)
Theorem cache_conflates_colliding_urls p s image w :
  startsWith image "data:" = true ->
  p +:+ "Aa" +:+ s <> p +:+ "BB" +:+ s /\
  cacheKey_of (p +:+ "Aa" +:+ s) = cacheKey_of (p +:+ "BB" +:+ s) /\
  exists entry w',
    getCachedProductImage E (p +:+ "BB" +:+ s)
      (cacheProductImage E (p +:+ "Aa" +:+ s) image w).2 =
      (Ok (Some {| cached_image := image; cached_object := entry |}), w') /\
    get_prop entry "url" = JStr (p +:+ "Aa" +:+ s).
Proof.
  intros Hdata.
  assert (Hkey : cacheKey_of (p +:+ "Aa" +:+ s) = cacheKey_of (p +:+ "BB" +:+ s)).
  { unfold cacheKey_of. by rewrite generateUrlHash_collision. }
  split; [|split; [exact Hkey|]].
  - intros Heq. apply (inj (String.app p)) in Heq. discriminate Heq.
  - pose proof (cacheProductImage_stored E Hhealthy (p +:+ "Aa" +:+ s) image w) as Hst.
    rewrite Hkey in Hst.
    rewrite (getCachedProductImage_written E Hhealthy _ _ image _ _ Hst Hdata).
    eexists _, _. split; reflexivity.
Qed.

End CacheKeys.

Lemma cache_conflates_colliding_urls_witness :
  "https://example.com/" +:+ "Aa" +:+ ".png" <> "https://example.com/" +:+ "BB" +:+ ".png" /\
  cacheKey_of ("https://example.com/" +:+ "Aa" +:+ ".png") =
    cacheKey_of ("https://example.com/" +:+ "BB" +:+ ".png") /\
  exists entry w',
    getCachedProductImage healthy_env ("https://example.com/" +:+ "BB" +:+ ".png")
      (cacheProductImage healthy_env ("https://example.com/" +:+ "Aa" +:+ ".png")
         generated_data empty_world).2 =
      (Ok (Some {| cached_image := generated_data; cached_object := entry |}), w') /\
    get_prop entry "url" = JStr ("https://example.com/" +:+ "Aa" +:+ ".png").
Proof.
  apply (cache_conflates_colliding_urls healthy_env healthy_env_healthy
           "https://example.com/" ".png" generated_data empty_world).
  reflexivity.
Defined.

Section KeyFormat.

Lemma digit36_base36 d : 0 <= d < 36 -> is_base36 (digit36 d) = true.
Proof.
  intros Hd.
  assert (Hall : forallb (fun n => is_base36 (digit36 (Z.of_nat n))) (seq 0 36) = true)
    by (vm_compute; reflexivity).
  rewrite forallb_forall in Hall.
  rewrite <- (Z2Nat.id d) by lia. apply Hall. apply in_seq. lia.
Qed.

Lemma toString36_go_base36 fuel n acc :
  0 <= n ->
  forallb is_base36 (list_ascii_of_string acc) = true ->
  forallb is_base36 (list_ascii_of_string (toString36_go fuel n acc)) = true.
Proof.
  revert n acc. induction fuel as [|fuel IH]; intros n acc Hn Hacc; [exact Hacc|].
  cbn [toString36_go].
  assert (Hacc' : forallb is_base36
            (list_ascii_of_string (String (digit36 (n mod 36)) acc)) = true).
  { cbn [list_ascii_of_string forallb]. rewrite Hacc, digit36_base36; [reflexivity|].
    apply Z.mod_pos_bound. lia. }
  destruct (n <? 36); [exact Hacc'|].
  apply IH; [apply Z.div_pos; lia|exact Hacc'].
Qed.

Lemma toString36_go_length fuel n acc :
  (String.length acc + Nat.min 1 fuel <= String.length (toString36_go fuel n acc)
   <= String.length acc + fuel)%nat.
Proof.
  revert n acc. induction fuel as [|fuel IH]; intros n acc; [cbn; lia|].
  cbn [toString36_go]. destruct (n <? 36).
  - cbn [String.length]. lia.
  - specialize (IH (n / 36) (String (digit36 (n mod 36)) acc)).
    cbn [String.length] in IH. lia.
Qed.

(** X4. Every cache key is [productImage_] followed by one to six digits of
    base 36 ([0-9], [a-z]); so every key written by the cache is in the
    name space that the sweep, the statistics and the clearing scan. *)
Theorem cacheKey_of_format url :
  exists digits,
    cacheKey_of url = "productImage_" +:+ digits /\
    (1 <= String.length digits <= 6)%nat /\
    forallb is_base36 (list_ascii_of_string digits) = true /\
    startsWith (cacheKey_of url) cache_prefix = true.
Proof.
  exists (generateUrlHash url). split; [reflexivity|]. split; [|split].
  - unfold generateUrlHash, toString36.
    pose proof (generateUrlHash_loop_range url 0 ltac:(lia)) as Hr.
    change (2 ^ 31) with 2147483648 in Hr.
    change (toString36_go 7) with (toString36_go (6 + 1)).
    rewrite (toString36_go_fuel 5 1)
      by (change (36 ^ Z.of_nat 6) with 2176782336; lia).
    pose proof (toString36_go_length 6 (Z.abs (generateUrlHash_loop url 0)) "") as H.
    change (String.length "" + Nat.min 1 6)%nat with 1%nat in H.
    change (String.length "" + 6)%nat with 6%nat in H. exact H.
  - unfold generateUrlHash, toString36. apply toString36_go_base36; [lia|reflexivity].
  - apply startsWith_append.
Qed.

End KeyFormat.

Create HintDb frame.

Section Footprint.
Variable E : Env.

Lemma keeps_foreign_keys_ret {A} (a : A) : keeps_foreign_keys (ret a).
Proof. intros w k _. reflexivity. Qed.

Lemma keeps_foreign_keys_throw {A} e : keeps_foreign_keys (@throw A e).
Proof. intros w k _. reflexivity. Qed.

Lemma keeps_foreign_keys_lift_res {A} (r : Res A) : keeps_foreign_keys (lift_res r).
Proof. intros w k _. reflexivity. Qed.

Lemma keeps_foreign_keys_bind {A B} (m : M A) (f : A -> M B) :
  keeps_foreign_keys m -> (forall a, keeps_foreign_keys (f a)) ->
  keeps_foreign_keys (bind m f).
Proof.
  intros Hm Hf w k Hk. unfold bind. specialize (Hm w k Hk).
  destruct (m w) as [[a|e] w1]; [|exact Hm].
  rewrite (Hf a w1 k Hk). exact Hm.
Qed.

Lemma keeps_foreign_keys_try_catch {A} (m : M A) (h : JsError -> M A) :
  keeps_foreign_keys m -> (forall e, keeps_foreign_keys (h e)) ->
  keeps_foreign_keys (try_catch m h).
Proof.
  intros Hm Hh w k Hk. unfold try_catch. specialize (Hm w k Hk).
  destruct (m w) as [[a|e] w1]; [exact Hm|].
  rewrite (Hh e w1 k Hk). exact Hm.
Qed.

Lemma keeps_foreign_keys_storage_get keys : keeps_foreign_keys (storage_get E keys).
Proof.
  intros w k _. unfold storage_get. destruct (storage_fault E (trace w)); reflexivity.
Qed.

Lemma keeps_foreign_keys_storage_set key v :
  startsWith key cache_prefix = true -> keeps_foreign_keys (storage_set E key v).
Proof.
  intros Hkey w k Hk. unfold storage_set.
  destruct (storage_fault E (trace w)); [reflexivity|].
  cbn [snd storage set_storage log]. apply lookup_insert_ne. congruence.
Qed.

Lemma keeps_foreign_keys_storage_remove keys :
  Forall (fun key => startsWith key cache_prefix = true) keys ->
  keeps_foreign_keys (storage_remove E keys).
Proof.
  intros Hkeys w k Hk. unfold storage_remove.
  destruct (storage_fault E (trace w)); [reflexivity|].
  cbn [snd storage set_storage log]. apply lookup_foldr_delete_notin.
  intros Hin. rewrite Forall_forall in Hkeys. specialize (Hkeys k Hin). congruence.
Qed.

Lemma keeps_foreign_keys_date_now : keeps_foreign_keys (date_now E).
Proof. intros w k _. reflexivity. Qed.

Lemma keeps_foreign_keys_fetch_image url : keeps_foreign_keys (fetch_image E url).
Proof.
  intros w k _. unfold fetch_image. destruct (net_fetch E (trace w) url); reflexivity.
Qed.

Lemma keeps_foreign_keys_post_request req : keeps_foreign_keys (post_request E req).
Proof.
  intros w k _. unfold post_request. destruct (net_post E (trace w) req); reflexivity.
Qed.

Lemma cache_key_prefixed hash : startsWith (cache_prefix +:+ hash) cache_prefix = true.
Proof. apply startsWith_append. Qed.

(** Splits a goal [keeps_foreign_keys m] along the structure of [m]. *)
Ltac frame_step :=
  match goal with
  | |- keeps_foreign_keys (bind _ _) => apply keeps_foreign_keys_bind
  | |- keeps_foreign_keys (try_catch _ _) => apply keeps_foreign_keys_try_catch
  | |- keeps_foreign_keys (ret _) => apply keeps_foreign_keys_ret
  | |- keeps_foreign_keys (throw _) => apply keeps_foreign_keys_throw
  | |- keeps_foreign_keys (lift_res _) => apply keeps_foreign_keys_lift_res
  | |- keeps_foreign_keys (storage_get _ _) => apply keeps_foreign_keys_storage_get
  | |- keeps_foreign_keys (storage_set _ (cache_prefix +:+ _) _) =>
      apply keeps_foreign_keys_storage_set, cache_key_prefixed
  | |- keeps_foreign_keys (storage_remove _ [cache_prefix +:+ _]) =>
      apply keeps_foreign_keys_storage_remove;
      apply Forall_cons_2; [apply cache_key_prefixed|apply Forall_nil_2]
  | |- keeps_foreign_keys (date_now _) => apply keeps_foreign_keys_date_now
  | |- keeps_foreign_keys (fetch_image _ _) => apply keeps_foreign_keys_fetch_image
  | |- keeps_foreign_keys (post_request _ _) => apply keeps_foreign_keys_post_request
  | |- keeps_foreign_keys (match ?x with _ => _ end) => destruct x
  | |- keeps_foreign_keys (if ?b then _ else _) => destruct b
  | |- forall _, _ => intro
  end.

Ltac frame_auto := repeat (frame_step; cbn zeta); auto with frame.

Lemma keeps_foreign_keys_getCachedProductImage url :
  keeps_foreign_keys (getCachedProductImage E url).
Proof. unfold getCachedProductImage. frame_auto. Qed.

Lemma keeps_foreign_keys_cacheProductImage url image :
  keeps_foreign_keys (cacheProductImage E url image).
Proof. unfold cacheProductImage. frame_auto. Qed.

Lemma keeps_foreign_keys_getCacheInfo : keeps_foreign_keys (getCacheInfo E).
Proof. unfold getCacheInfo. frame_auto. Qed.

Lemma keeps_foreign_keys_convertUrlToBase64 url :
  keeps_foreign_keys (convertUrlToBase64 E url).
Proof. unfold convertUrlToBase64, mime_from_url. frame_auto. Qed.

#[local] Hint Resolve keeps_foreign_keys_getCachedProductImage
  keeps_foreign_keys_cacheProductImage keeps_foreign_keys_getCacheInfo
  keeps_foreign_keys_convertUrlToBase64 : frame.

Lemma keeps_foreign_keys_extractActualProductImage k url name :
  keeps_foreign_keys (extractActualProductImage E k url name).
Proof.
  unfold extractActualProductImage, extract_uncached, request_extraction,
    parse_extraction_response.
  frame_auto.
Qed.

#[local] Hint Resolve keeps_foreign_keys_extractActualProductImage : frame.

Lemma keeps_foreign_keys_outfit_iteration k cur p :
  keeps_foreign_keys (outfit_iteration E k cur p).
Proof.
  unfold outfit_iteration, resolve_product_image, compose_product,
    parse_outfit_response.
  frame_auto.
Qed.

Lemma keeps_foreign_keys_outfit_loop k ps cur :
  keeps_foreign_keys (outfit_loop E k ps cur).
Proof.
  revert cur. induction ps as [|p ps IH]; intros cur; cbn [outfit_loop].
  - apply keeps_foreign_keys_ret.
  - apply keeps_foreign_keys_bind; [apply keeps_foreign_keys_outfit_iteration|].
    intros next. apply IH.
Qed.

#[local] Hint Resolve keeps_foreign_keys_outfit_loop : frame.

Lemma keeps_foreign_keys_generateOutfitImage k base ps :
  keeps_foreign_keys (generateOutfitImage E k base ps).
Proof. unfold generateOutfitImage. frame_auto. Qed.

Lemma keeps_foreign_keys_outfit_run k base ps :
  keeps_foreign_keys (outfit_run E k base ps).
Proof. unfold outfit_run. frame_auto. Qed.

#[local] Hint Resolve keeps_foreign_keys_generateOutfitImage
  keeps_foreign_keys_outfit_run : frame.

Lemma cleanup_scan_prefixed entries now maxAge acc keys :
  cleanup_scan E entries now maxAge acc = Ok keys ->
  Forall (fun key => startsWith key cache_prefix = true) acc ->
  Forall (fun key => startsWith key cache_prefix = true) keys.
Proof.
  revert acc. induction entries as [|[k v] rest IH]; intros acc Hscan Hacc.
  - cbn in Hscan. by injection Hscan as <-.
  - cbn [cleanup_scan] in Hscan.
    destruct (startsWith k cache_prefix) eqn:Hk; [|by eapply IH].
    destruct (get_prop_checked v "timestamp") as [ts|e]; [|discriminate].
    destruct (truthy ts && age_exceeds E now ts maxAge); [|by eapply IH].
    eapply IH; [exact Hscan|]. apply Forall_app. split; [exact Hacc|].
    apply Forall_cons_2; [exact Hk|apply Forall_nil_2].
Qed.

Lemma keeps_foreign_keys_cleanupOldCachedImages maxAge :
  keeps_foreign_keys (cleanupOldCachedImages E maxAge).
Proof.
  intros w k Hk. unfold cleanupOldCachedImages, try_catch, bind, storage_get,
    date_now, lift_res, ret.
  destruct (storage_fault E (trace w)); [reflexivity|].
  destruct (cleanup_scan E _ _ _ _) as [keys|e] eqn:Hscan; [|reflexivity].
  destruct (0 <? Z.of_nat (length keys)); [|reflexivity].
  pose proof (keeps_foreign_keys_storage_remove keys
                (cleanup_scan_prefixed _ _ _ _ _ Hscan (Forall_nil_2 _))
                (log (EvStorageGet None) w) k Hk) as Hrem.
  destruct (storage_remove E keys (log (EvStorageGet None) w)) as [[u|e] w1];
    exact Hrem.
Qed.

Lemma keeps_foreign_keys_clearProductImageCache :
  keeps_foreign_keys (clearProductImageCache E).
Proof. intros w k Hk. by apply clearProductImageCache_frame. Qed.

#[local] Hint Resolve keeps_foreign_keys_cleanupOldCachedImages
  keeps_foreign_keys_clearProductImageCache : frame.

Lemma keeps_foreign_keys_setupCacheCleanup : keeps_foreign_keys (setupCacheCleanup E).
Proof.
  unfold setupCacheCleanup. apply keeps_foreign_keys_bind; [|auto with frame].
  intros w k _. reflexivity.
Qed.

Lemma keeps_foreign_keys_preload_loop urls results :
  keeps_foreign_keys (preload_loop E urls results).
Proof.
  revert results. induction urls as [|u urls IH]; intros results; cbn [preload_loop].
  - apply keeps_foreign_keys_ret.
  - apply keeps_foreign_keys_bind; [|intros r; apply IH].
    unfold preload_one. frame_auto.
Qed.

Lemma keeps_foreign_keys_preloadProductImages urls :
  keeps_foreign_keys (preloadProductImages E urls).
Proof.
  unfold preloadProductImages. apply keeps_foreign_keys_try_catch.
  - apply keeps_foreign_keys_preload_loop.
  - intros e. apply keeps_foreign_keys_throw.
Qed.

Lemma keeps_foreign_keys_handleStyleMeRequestWithData data tabId :
  keeps_foreign_keys (handleStyleMeRequestWithData E data tabId).
Proof.
  unfold handleStyleMeRequestWithData, retrieveStoredData, call_generateOutfitImage.
  frame_auto.
Qed.

#[local] Hint Resolve keeps_foreign_keys_preloadProductImages
  keeps_foreign_keys_handleStyleMeRequestWithData : frame.

(** X5. Nothing the background service does on a message, in a composition
    run, in a sweep or at start-up touches a key of the storage area
    outside the [productImage_] name space: the API key and the user's
    photo are as they were, whatever the network and the storage area
    do. *)
Theorem service_keeps_foreign_keys :
  (forall message, keeps_foreign_keys (onMessage E message)) /\
  (forall apiKey inputImageUrl products,
     keeps_foreign_keys (generateOutfitImage E apiKey inputImageUrl products)) /\
  (forall maxAge, keeps_foreign_keys (cleanupOldCachedImages E maxAge)) /\
  keeps_foreign_keys (setupCacheCleanup E).
Proof.
  split; [|split; [|split]]; auto using keeps_foreign_keys_setupCacheCleanup with frame.
  intros message. unfold onMessage, getCacheInfoInternal.
  destruct message; frame_auto.
Qed.

End Footprint.

Section Maintenance.
Variable E : Env.

Lemma lookup_foldr_delete_Some (m : gmap string JsVal) keys k v :
  foldr delete m keys !! k = Some v -> m !! k = Some v.
Proof.
  destruct (decide (k ∈ keys)) as [Hin|Hnin].
  - rewrite lookup_foldr_delete_in by done. discriminate.
  - by rewrite lookup_foldr_delete_notin.
Qed.

Lemma only_removes_ret {A} (a : A) : only_removes (ret a).
Proof. intros w k v H. exact H. Qed.

Lemma only_removes_throw {A} e : only_removes (@throw A e).
Proof. intros w k v H. exact H. Qed.

Lemma only_removes_lift_res {A} (r : Res A) : only_removes (lift_res r).
Proof. intros w k v H. exact H. Qed.

Lemma only_removes_bind {A B} (m : M A) (f : A -> M B) :
  only_removes m -> (forall a, only_removes (f a)) -> only_removes (bind m f).
Proof.
  intros Hm Hf w k v. unfold bind. specialize (Hm w k v).
  destruct (m w) as [[a|e] w1]; [|exact Hm].
  intros H. apply Hm. by apply (Hf a w1).
Qed.

Lemma only_removes_try_catch {A} (m : M A) (h : JsError -> M A) :
  only_removes m -> (forall e, only_removes (h e)) -> only_removes (try_catch m h).
Proof.
  intros Hm Hh w k v. unfold try_catch. specialize (Hm w k v).
  destruct (m w) as [[a|e] w1]; [exact Hm|].
  intros H. apply Hm. by apply (Hh e w1).
Qed.

Lemma only_removes_storage_get keys : only_removes (storage_get E keys).
Proof.
  intros w k v. unfold storage_get. by destruct (storage_fault E (trace w)).
Qed.

Lemma only_removes_storage_remove keys : only_removes (storage_remove E keys).
Proof.
  intros w k v. unfold storage_remove.
  destruct (storage_fault E (trace w)); [done|].
  cbn [snd storage set_storage log]. apply lookup_foldr_delete_Some.
Qed.

Lemma only_removes_date_now : only_removes (date_now E).
Proof. intros w k v H. exact H. Qed.

Ltac removes_step :=
  match goal with
  | |- only_removes (bind _ _) => apply only_removes_bind
  | |- only_removes (try_catch _ _) => apply only_removes_try_catch
  | |- only_removes (ret _) => apply only_removes_ret
  | |- only_removes (throw _) => apply only_removes_throw
  | |- only_removes (lift_res _) => apply only_removes_lift_res
  | |- only_removes (storage_get _ _) => apply only_removes_storage_get
  | |- only_removes (storage_remove _ _) => apply only_removes_storage_remove
  | |- only_removes (date_now _) => apply only_removes_date_now
  | |- only_removes (match ?x with _ => _ end) => destruct x
  | |- only_removes (if ?b then _ else _) => destruct b
  | |- forall _, _ => intro
  end.

(** X6. A lookup, a sweep, a clearing and the statistics never add an entry
    to the storage area and never change a stored value: every binding
    found afterwards was there before. *)
Theorem maintenance_only_removes :
  (forall url, only_removes (getCachedProductImage E url)) /\
  (forall maxAge, only_removes (cleanupOldCachedImages E maxAge)) /\
  only_removes (clearProductImageCache E) /\
  only_removes (getCacheInfo E).
Proof.
  split; [|split; [|split]].
  - intros url. unfold getCachedProductImage. repeat (removes_step; cbn zeta).
  - intros maxAge. unfold cleanupOldCachedImages. repeat (removes_step; cbn zeta).
  - unfold clearProductImageCache. repeat (removes_step; cbn zeta).
  - unfold getCacheInfo. repeat (removes_step; cbn zeta).
Qed.

Lemma cleanup_scan_null entries now maxAge acc k :
  (k, JNull) ∈ entries -> startsWith k cache_prefix = true ->
  exists e, cleanup_scan E entries now maxAge acc = Throw e.
Proof.
  revert acc. induction entries as [|[k0 v0] rest IH]; intros acc Hin Hk;
    [inversion Hin|].
  cbn [cleanup_scan].
  apply elem_of_cons in Hin as [[= <- <-]|Hin].
  - rewrite Hk. cbn [get_prop_checked]. eauto.
  - destruct (startsWith k0 cache_prefix); [|by apply IH].
    destruct (get_prop_checked v0 "timestamp") as [ts|e]; [|eauto].
    destruct (truthy ts && age_exceeds E now ts maxAge); by apply IH.
Qed.

(** X7. One [null] stored under a [productImage_] key disables the expiry
    sweep: reading [item.timestamp] throws, the error is caught around
    the whole scan before any removal, and the sweep resolves with the
    storage area unchanged, however old the other entries are. *)
Theorem cleanup_aborted_by_null_entry maxAge w k :
  storage w !! k = Some JNull -> startsWith k cache_prefix = true ->
  (cleanupOldCachedImages E maxAge w).1 = Ok tt /\
  storage (cleanupOldCachedImages E maxAge w).2 = storage w.
Proof.
  intros Hnull Hk.
  unfold cleanupOldCachedImages, try_catch, bind, storage_get, date_now, lift_res, ret.
  destruct (storage_fault E (trace w)); [split; reflexivity|].
  destruct (cleanup_scan_null (map_to_list (storage w))
              (clock E (trace (log (EvStorageGet None) w)))
              (default default_maxAge maxAge) [] k) as [e He];
    [by apply elem_of_map_to_list|exact Hk|].
  rewrite He. split; reflexivity.
Qed.

End Maintenance.

Lemma cleanup_aborted_by_null_entry_witness :
  (cleanupOldCachedImages healthy_env None null_entry_world).1 = Ok tt /\
  storage (cleanupOldCachedImages healthy_env None null_entry_world).2 =
    storage null_entry_world.
Proof.
  apply (cleanup_aborted_by_null_entry healthy_env None null_entry_world
           "productImage_broken").
  - vm_compute. reflexivity.
  - reflexivity.
Defined.

Section CacheStats.
Variable E : Env.
Hypothesis Hhealthy : storage_healthy E.

Lemma estimated_size_nonneg image : 0 <= estimated_size image.
Proof. unfold estimated_size. apply Z.div_pos; lia. Qed.

Lemma total_size_nonneg (l : list string) :
  0 <= foldr (fun image acc => estimated_size image + acc) 0 l.
Proof.
  induction l as [|x l IH]; [done|]. cbn [foldr].
  pose proof (estimated_size_nonneg x). lia.
Qed.

Lemma length_omap_le {A B} (f : A -> option B) (l : list A) :
  (length (omap f l) <= length l)%nat.
Proof.
  induction l as [|x l IH]; [done|]. cbn [omap list_omap].
  destruct (f x); cbn [length]; lia.
Qed.

Lemma prefixed_entries_size (m : gmap string JsVal) :
  length (filter (fun kv : string * JsVal => startsWith kv.1 cache_prefix = true)
            (map_to_list m)) =
  size (filter (fun kv : string * JsVal => startsWith kv.1 cache_prefix = true) m).
Proof.
  rewrite <- length_map_to_list. apply Permutation_length.
  apply NoDup_Permutation.
  - apply NoDup_filter, NoDup_map_to_list.
  - apply NoDup_map_to_list.
  - intros [k v]. rewrite list_elem_of_filter, !elem_of_map_to_list.
    rewrite map_lookup_filter_Some. tauto.
Qed.

(** X8. While the storage area works, [getCacheInfo] resolves after one
    read of the whole area; [totalCachedImages] is the number of keys in
    the [productImage_] name space, [validCachedImages] lies between 0
    and that number, and [totalSizeBytes] is not negative. *)
Theorem getCacheInfo_counts w :
  exists info,
    getCacheInfo E w = (Ok info, log (EvStorageGet None) w) /\
    totalCachedImages info =
      Z.of_nat (size (filter (fun kv : string * JsVal =>
                                startsWith kv.1 cache_prefix = true) (storage w))) /\
    0 <= validCachedImages info <= totalCachedImages info /\
    0 <= totalSizeBytes info.
Proof.
  unfold getCacheInfo. rewrite try_catch_rethrow. unfold bind.
  rewrite storage_get_all_ok by apply Hhealthy.
  eexists. split; [reflexivity|]. cbn [totalCachedImages validCachedImages totalSizeBytes].
  split; [by rewrite prefixed_entries_size|]. split; [|apply total_size_nonneg].
  split; [lia|]. apply inj_le, length_omap_le.
Qed.

Lemma clearProductImageCache_removes w k :
  startsWith k cache_prefix = true ->
  storage (clearProductImageCache E w).2 !! k = None.
Proof.
  intros Hk. unfold clearProductImageCache, try_catch, bind.
  rewrite storage_get_all_ok by apply Hhealthy.
  set (keys := filter _ _).
  assert (Hkeys : forall k, k ∈ keys <->
            startsWith k cache_prefix = true /\ is_Some (storage w !! k))
    by (intros k'; apply elem_of_prefixed_keys).
  destruct (0 <? Z.of_nat (length keys)) eqn:Hlen.
  - rewrite storage_remove_ok by apply Hhealthy.
    cbn [snd storage set_storage log].
    destruct (storage w !! k) as [v|] eqn:Hst.
    + apply lookup_foldr_delete_in. apply Hkeys. eauto.
    + rewrite lookup_foldr_delete_notin; [done|].
      intros Hin. apply Hkeys in Hin as [_ [v Hv]]. congruence.
  - cbn [snd storage log].
    assert (Hnil : keys = []).
    { apply Z.ltb_ge in Hlen. apply nil_length_inv. lia. }
    destruct (storage w !! k) as [v|] eqn:Hst; [|done].
    assert (k ∈ keys) as Hin by (apply Hkeys; eauto).
    rewrite Hnil in Hin. inversion Hin.
Qed.

(** X9. While the storage area works, after [clearProductImageCache] a
    lookup of an image cached before is a miss, and [getCacheInfo]
    reports no entries, no valid entries and size 0. *)
Theorem clear_then_lookup_and_stats url image w :
  let w1 := (cacheProductImage E url image w).2 in
  let w2 := (clearProductImageCache E w1).2 in
  (getCachedProductImage E url w2).1 = Ok None /\
  exists info w3,
    getCacheInfo E w2 = (Ok info, w3) /\
    totalCachedImages info = 0 /\ validCachedImages info = 0 /\
    totalSizeBytes info = 0.
Proof.
  intros w1 w2. split.
  - rewrite getCachedProductImage_answer by apply Hhealthy. cbn zeta.
    unfold js_index. subst w2.
    rewrite clearProductImageCache_removes by (apply cache_key_prefixed).
    reflexivity.
  - unfold getCacheInfo. rewrite try_catch_rethrow. unfold bind.
    rewrite storage_get_all_ok by apply Hhealthy.
    assert (Hnone : filter (fun kv : string * JsVal => startsWith kv.1 cache_prefix = true)
                      (map_to_list (storage w2)) = []).
    { apply nil_length_inv. rewrite prefixed_entries_size.
      apply map_size_empty_iff, map_empty. intros k.
      apply map_lookup_filter_None_2.
      destruct (startsWith k cache_prefix) eqn:Hp.
      - left. subst w2. by apply clearProductImageCache_removes.
      - right. intros v _. cbn. congruence. }
    rewrite Hnone. eexists _, _. split; [reflexivity|]. repeat split.
Qed.

End CacheStats.

Lemma getCacheInfo_counts_witness :
  exists info,
    getCacheInfo healthy_env sweep_world = (Ok info, log (EvStorageGet None) sweep_world) /\
    totalCachedImages info =
      Z.of_nat (size (filter (fun kv : string * JsVal =>
                                startsWith kv.1 cache_prefix = true)
                        (storage sweep_world))) /\
    0 <= validCachedImages info <= totalCachedImages info /\
    0 <= totalSizeBytes info.
Proof. apply (getCacheInfo_counts healthy_env healthy_env_healthy sweep_world). Defined.

Lemma clear_then_lookup_and_stats_witness :
  (getCachedProductImage healthy_env jacket_url
     (clearProductImageCache healthy_env
        (cacheProductImage healthy_env jacket_url generated_data empty_world).2).2).1
    = Ok None /\
  exists info w3,
    getCacheInfo healthy_env
      (clearProductImageCache healthy_env
         (cacheProductImage healthy_env jacket_url generated_data empty_world).2).2
      = (Ok info, w3) /\
    totalCachedImages info = 0 /\ validCachedImages info = 0 /\
    totalSizeBytes info = 0.
Proof.
  apply (clear_then_lookup_and_stats healthy_env healthy_env_healthy jacket_url
           generated_data empty_world).
Defined.

Section Fetcher.
Variable E : Env.

Lemma after_base64_marker_plain t payload :
  plain_mime t = true ->
  after_base64_marker (t +:+ ";base64," +:+ payload) = Some payload.
Proof.
  induction t as [|c t IH]; intros Hplain.
  - reflexivity.
  - cbn [plain_mime list_ascii_of_string forallb] in Hplain.
    apply andb_true_iff in Hplain as [Hc Ht].
    apply andb_true_iff in Hc as [Hline Hsemi].
    apply negb_true_iff in Hline, Hsemi.
    rewrite append_cons. cbn [after_base64_marker].
    rewrite startsWith_cons.
    rewrite Ascii.eqb_sym in Hsemi. rewrite Hsemi, Hline. by apply IH.
Qed.

Lemma readAsDataURL_shape b :
  plain_mime (blob_type b) = true ->
  exists t, plain_mime t = true /\
            readAsDataURL b = "data:" +:+ t +:+ ";base64," +:+ blob_base64 b.
Proof.
  intros Hplain. unfold readAsDataURL. destruct (is_empty (blob_type b)).
  - exists "application/octet-stream". split; reflexivity.
  - exists (blob_type b). split; [exact Hplain|reflexivity].
Qed.

(** The result for a resolved MIME type: the payload of the blob under a
    tag that starts with that type. *)
Lemma retag_keeps_payload b mime :
  plain_mime (blob_type b) = true ->
  let base64 := readAsDataURL b in
  let result :=
    if negb (startsWith base64 ("data:" +:+ mime))
    then replace_data_prefix base64 ("data:" +:+ mime +:+ ";base64,")
    else base64 in
  startsWith result ("data:" +:+ mime) = true /\
  exists tag, result = "data:" +:+ tag +:+ ";base64," +:+ blob_base64 b.
Proof.
  intros Hplain base64 result. subst base64 result.
  destruct (readAsDataURL_shape b Hplain) as [t [Ht ->]].
  destruct (startsWith ("data:" +:+ t +:+ ";base64," +:+ blob_base64 b)
              ("data:" +:+ mime)) eqn:Hs; cbn [negb].
  - split; [exact Hs|]. by exists t.
  - unfold replace_data_prefix.
    change (startsWith ("data:" +:+ t +:+ ";base64," +:+ blob_base64 b) "data:") with true.
    change (drop_chars 5 ("data:" +:+ t +:+ ";base64," +:+ blob_base64 b))
      with (t +:+ ";base64," +:+ blob_base64 b).
    rewrite (after_base64_marker_plain t _ Ht). split.
    + rewrite <- (append_assoc "data:" mime), append_assoc. apply startsWith_append.
    + exists mime.
      rewrite <- !(append_assoc "data:"), !append_assoc. reflexivity.
Qed.

Lemma mime_from_pathname_closed pathname :
  mime_from_pathname pathname = "image/jpeg" \/
  mime_from_pathname pathname = "image/png" \/
  mime_from_pathname pathname = "image/webp" \/
  mime_from_pathname pathname = "image/gif".
Proof.
  unfold mime_from_pathname.
  destruct (endsWith pathname ".jpg" || endsWith pathname ".jpeg"); [auto|].
  destruct (endsWith pathname ".png"); [auto|].
  destruct (endsWith pathname ".webp"); [auto|].
  destruct (endsWith pathname ".gif"); auto.
Qed.

(** X10. When the image is fetched with a success status and a non-empty
    [content-type] header, [convertUrlToBase64] resolves, after that one
    fetch, to a data URL that starts with [data:] and the header's value
    and ends with the base-64 payload of the body unchanged (for a
    header value without [$] and a blob whose own type is a plain MIME
    type). *)
Theorem convertUrlToBase64_declared_type url w r mime :
  net_fetch E (trace w) url = FetchResolved r ->
  resp_ok r = true ->
  resp_content_type r = Some mime -> is_empty mime = false ->
  includes mime "$" = false ->
  plain_mime (blob_type (resp_blob r)) = true ->
  exists tag,
    convertUrlToBase64 E url w =
      (Ok ("data:" +:+ tag +:+ ";base64," +:+ blob_base64 (resp_blob r)),
       log (EvFetch url) w) /\
    startsWith ("data:" +:+ tag +:+ ";base64," +:+ blob_base64 (resp_blob r))
      ("data:" +:+ mime) = true.
Proof.
  intros Hfetch Hok Htype Hne _ Hplain.
  unfold convertUrlToBase64. rewrite try_catch_rethrow.
  unfold bind, fetch_image. rewrite Hfetch, Hok, Htype, Hne. cbn [negb]. unfold ret.
  destruct (retag_keeps_payload (resp_blob r) mime Hplain) as [Hs [tag Htag]].
  cbn zeta in Hs, Htag. rewrite Htag in *. exists tag. split; [reflexivity|exact Hs].
Qed.

(** X11. When the response has no [content-type] header (or an empty one),
    the type of the data URL comes from the extension of the URL's path,
    compared in lower case, and is one of [image/jpeg], [image/png],
    [image/webp] and [image/gif]; the payload is unchanged. *)
Theorem convertUrlToBase64_extension_type url w r pathname :
  net_fetch E (trace w) url = FetchResolved r ->
  resp_ok r = true ->
  resp_content_type r = None \/ resp_content_type r = Some "" ->
  url_pathname E url = Ok pathname ->
  plain_mime (blob_type (resp_blob r)) = true ->
  exists tag mime,
    convertUrlToBase64 E url w =
      (Ok ("data:" +:+ tag +:+ ";base64," +:+ blob_base64 (resp_blob r)),
       log (EvFetch url) w) /\
    startsWith ("data:" +:+ tag +:+ ";base64," +:+ blob_base64 (resp_blob r))
      ("data:" +:+ mime) = true /\
    mime = mime_from_pathname (toLowerCase pathname) /\
    (mime = "image/jpeg" \/ mime = "image/png" \/ mime = "image/webp" \/
     mime = "image/gif").
Proof.
  intros Hfetch Hok Htype Hpath Hplain.
  unfold convertUrlToBase64. rewrite try_catch_rethrow.
  unfold bind, fetch_image. rewrite Hfetch, Hok. cbn [negb].
  assert (Hmime : match resp_content_type r with
                  | Some m => if is_empty m then mime_from_url E url else ret m
                  | None => mime_from_url E url
                  end = mime_from_url E url)
    by (destruct Htype as [-> | ->]; reflexivity).
  rewrite Hmime. unfold mime_from_url, bind, lift_res, ret. rewrite Hpath.
  destruct (retag_keeps_payload (resp_blob r)
              (mime_from_pathname (toLowerCase pathname)) Hplain) as [Hs [tag Htag]].
  cbn zeta in Hs, Htag. rewrite Htag in *.
  exists tag, (mime_from_pathname (toLowerCase pathname)).
  split; [reflexivity|]. split; [exact Hs|]. split; [reflexivity|].
  apply mime_from_pathname_closed.
Qed.

End Fetcher.

Lemma convertUrlToBase64_declared_type_witness :
  exists tag,
    convertUrlToBase64 webp_env photo_url empty_world =
      (Ok ("data:" +:+ tag +:+ ";base64," +:+ blob_base64 (resp_blob webp_response)),
       log (EvFetch photo_url) empty_world) /\
    startsWith ("data:" +:+ tag +:+ ";base64," +:+ blob_base64 (resp_blob webp_response))
      ("data:" +:+ "image/webp") = true.
Proof.
  apply (convertUrlToBase64_declared_type webp_env photo_url empty_world
           webp_response "image/webp"); reflexivity.
Defined.

Lemma convertUrlToBase64_extension_type_witness :
  exists tag mime,
    convertUrlToBase64 untyped_env photo_url empty_world =
      (Ok ("data:" +:+ tag +:+ ";base64," +:+ blob_base64 (resp_blob untyped_response)),
       log (EvFetch photo_url) empty_world) /\
    startsWith ("data:" +:+ tag +:+ ";base64," +:+ blob_base64 (resp_blob untyped_response))
      ("data:" +:+ mime) = true /\
    mime = mime_from_pathname (toLowerCase "/shoes/SNEAKER.PNG") /\
    (mime = "image/jpeg" \/ mime = "image/png" \/ mime = "image/webp" \/
     mime = "image/gif").
Proof.
  apply (convertUrlToBase64_extension_type untyped_env photo_url empty_world
           untyped_response "/shoes/SNEAKER.PNG"); try reflexivity.
  left. reflexivity.
Defined.

Create HintDb quiet.

Section RemoteCalls.
Variable E : Env.

Lemma posts_log e w :
  posts (log e w) = (posts w ++ match post_of e with Some req => [req] | None => [] end)%list.
Proof.
  unfold posts, history. cbn [trace log rev]. rewrite omap_app. cbn [omap list_omap].
  by destruct (post_of e).
Qed.

Lemma posts_log_quiet e w : post_of e = None -> posts (log e w) = posts w.
Proof. intros H. rewrite posts_log, H. apply app_nil_r. Qed.

Lemma sends_nothing_ret {A} (a : A) : sends_nothing (ret a).
Proof. intros w. reflexivity. Qed.

Lemma sends_nothing_throw {A} e : sends_nothing (@throw A e).
Proof. intros w. reflexivity. Qed.

Lemma sends_nothing_lift_res {A} (r : Res A) : sends_nothing (lift_res r).
Proof. intros w. reflexivity. Qed.

Lemma sends_nothing_bind {A B} (m : M A) (f : A -> M B) :
  sends_nothing m -> (forall a, sends_nothing (f a)) -> sends_nothing (bind m f).
Proof.
  intros Hm Hf w. unfold bind. specialize (Hm w).
  destruct (m w) as [[a|e] w1]; [|exact Hm]. rewrite (Hf a w1). exact Hm.
Qed.

Lemma sends_nothing_try_catch {A} (m : M A) (h : JsError -> M A) :
  sends_nothing m -> (forall e, sends_nothing (h e)) -> sends_nothing (try_catch m h).
Proof.
  intros Hm Hh w. unfold try_catch. specialize (Hm w).
  destruct (m w) as [[a|e] w1]; [exact Hm|]. rewrite (Hh e w1). exact Hm.
Qed.

Lemma sends_nothing_storage_get keys : sends_nothing (storage_get E keys).
Proof.
  intros w. unfold storage_get.
  destruct (storage_fault E (trace w)); by apply posts_log_quiet.
Qed.

Lemma sends_nothing_storage_set key v : sends_nothing (storage_set E key v).
Proof.
  intros w. unfold storage_set.
  destruct (storage_fault E (trace w)); by apply posts_log_quiet.
Qed.

Lemma sends_nothing_storage_remove keys : sends_nothing (storage_remove E keys).
Proof.
  intros w. unfold storage_remove.
  destruct (storage_fault E (trace w)); by apply posts_log_quiet.
Qed.

Lemma sends_nothing_date_now : sends_nothing (date_now E).
Proof. intros w. reflexivity. Qed.

Lemma sends_nothing_fetch_image url : sends_nothing (fetch_image E url).
Proof.
  intros w. unfold fetch_image.
  destruct (net_fetch E (trace w) url); by apply posts_log_quiet.
Qed.

Ltac quiet_step :=
  match goal with
  | |- sends_nothing (bind _ _) => apply sends_nothing_bind
  | |- sends_nothing (try_catch _ _) => apply sends_nothing_try_catch
  | |- sends_nothing (ret _) => apply sends_nothing_ret
  | |- sends_nothing (throw _) => apply sends_nothing_throw
  | |- sends_nothing (lift_res _) => apply sends_nothing_lift_res
  | |- sends_nothing (storage_get _ _) => apply sends_nothing_storage_get
  | |- sends_nothing (storage_set _ _ _) => apply sends_nothing_storage_set
  | |- sends_nothing (storage_remove _ _) => apply sends_nothing_storage_remove
  | |- sends_nothing (date_now _) => apply sends_nothing_date_now
  | |- sends_nothing (fetch_image _ _) => apply sends_nothing_fetch_image
  | |- sends_nothing (match ?x with _ => _ end) => destruct x
  | |- sends_nothing (if ?b then _ else _) => destruct b
  | |- forall _, _ => intro
  end.

Ltac quiet_auto := repeat (quiet_step; cbn zeta); auto with quiet.

Lemma sends_nothing_getCachedProductImage url :
  sends_nothing (getCachedProductImage E url).
Proof. unfold getCachedProductImage. quiet_auto. Qed.

Lemma sends_nothing_cacheProductImage url image :
  sends_nothing (cacheProductImage E url image).
Proof. unfold cacheProductImage. quiet_auto. Qed.

Lemma sends_nothing_getCacheInfo : sends_nothing (getCacheInfo E).
Proof. unfold getCacheInfo. quiet_auto. Qed.

Lemma sends_nothing_convertUrlToBase64 url : sends_nothing (convertUrlToBase64 E url).
Proof. unfold convertUrlToBase64, mime_from_url. quiet_auto. Qed.

#[local] Hint Resolve sends_nothing_getCachedProductImage
  sends_nothing_cacheProductImage sends_nothing_getCacheInfo
  sends_nothing_convertUrlToBase64 : quiet.

Lemma sends_nothing_parse_extraction_response url name m :
  sends_nothing (parse_extraction_response E url name m).
Proof. unfold parse_extraction_response. quiet_auto. Qed.

Lemma sends_nothing_parse_outfit_response name m :
  sends_nothing (parse_outfit_response E name m).
Proof. unfold parse_outfit_response. quiet_auto. Qed.

Lemma sends_nothing_cleanupOldCachedImages maxAge :
  sends_nothing (cleanupOldCachedImages E maxAge).
Proof. unfold cleanupOldCachedImages. quiet_auto. Qed.

Lemma sends_nothing_clearProductImageCache : sends_nothing (clearProductImageCache E).
Proof. unfold clearProductImageCache. quiet_auto. Qed.

Lemma sends_nothing_preload_loop urls results :
  sends_nothing (preload_loop E urls results).
Proof.
  revert results. induction urls as [|u urls IH]; intros results; cbn [preload_loop].
  - apply sends_nothing_ret.
  - apply sends_nothing_bind; [|intros r; apply IH]. unfold preload_one. quiet_auto.
Qed.

(** The extraction call sends exactly its request. *)
Lemma request_extraction_posts k url name raw w :
  posts (request_extraction E k url name raw w).2 =
    (posts w ++ [ExtractRequest k raw name])%list.
Proof.
  unfold request_extraction, bind, post_request.
  set (wp := log (EvPost (ExtractRequest k raw name)) w).
  assert (Hwp : posts wp = (posts w ++ [ExtractRequest k raw name])%list)
    by apply posts_log.
  destruct (net_post E (trace w) (ExtractRequest k raw name)) as [e|r]; [exact Hwp|].
  destruct (api_ok r); cbn [negb]; [|exact Hwp].
  unfold lift_res. destruct (response_json r) as [data|e]; [|exact Hwp].
  rewrite sends_nothing_parse_extraction_response. exact Hwp.
Qed.

Lemma compose_product_sends k cur img name w :
  posts (compose_product E k cur img name w).2 =
    (posts w ++ [OutfitRequest k cur img name])%list.
Proof.
  unfold compose_product, bind, post_request.
  set (wp := log (EvPost (OutfitRequest k cur img name)) w).
  assert (Hwp : posts wp = (posts w ++ [OutfitRequest k cur img name])%list)
    by apply posts_log.
  destruct (net_post E (trace w) (OutfitRequest k cur img name)) as [e|r]; [exact Hwp|].
  destruct (api_ok r); cbn [negb]; [|exact Hwp].
  unfold lift_res. destruct (response_json r) as [data|e]; [|exact Hwp].
  rewrite sends_nothing_parse_outfit_response. exact Hwp.
Qed.

Lemma extract_uncached_posts k url name w :
  exists sent,
    posts (extract_uncached E k url name w).2 = (posts w ++ sent)%list /\
    at_most_one_extraction k name sent.
Proof.
  unfold extract_uncached, bind.
  pose proof (sends_nothing_convertUrlToBase64 url w) as Hc.
  destruct (convertUrlToBase64 E url w) as [[raw|e] w1]; cbn [snd] in Hc.
  - pose proof (sends_nothing_cacheProductImage url raw w1) as Hp.
    destruct (cacheProductImage E url raw w1) as [[u|e] w2]; cbn [snd] in Hp.
    + exists [ExtractRequest k raw name]. rewrite request_extraction_posts, Hp, Hc.
      split; [reflexivity|]. right. eauto.
    + exists []. cbn [snd]. rewrite Hp, Hc, app_nil_r. split; [reflexivity|by left].
  - exists []. cbn [snd]. rewrite Hc, app_nil_r. split; [reflexivity|by left].
Qed.

Lemma extractActualProductImage_posts k url name w :
  exists sent,
    posts (extractActualProductImage E k url name w).2 = (posts w ++ sent)%list /\
    at_most_one_extraction k name sent.
Proof.
  unfold extractActualProductImage, bind.
  pose proof (sends_nothing_getCachedProductImage url w) as Hc.
  destruct (getCachedProductImage E url w) as [[c|e] w1]; cbn [snd] in Hc.
  - assert (Hmiss : exists sent,
              posts (extract_uncached E k url name w1).2 = (posts w ++ sent)%list /\
              at_most_one_extraction k name sent).
    { destruct (extract_uncached_posts k url name w1) as [sent [Hs Ha]].
      exists sent. by rewrite Hs, Hc. }
    destruct c as [c|]; [|exact Hmiss].
    destruct (negb (is_empty (cached_image c))); [|exact Hmiss].
    exists []. unfold ret. cbn [snd]. rewrite Hc, app_nil_r. split; [reflexivity|by left].
  - exists []. cbn [snd]. rewrite Hc, app_nil_r. split; [reflexivity|by left].
Qed.

Lemma resolve_product_image_posts k p w :
  exists sent,
    posts (resolve_product_image E k p w).2 = (posts w ++ sent)%list /\
    at_most_one_extraction k (product_name p) sent.
Proof.
  unfold resolve_product_image, try_catch, bind.
  pose proof (sends_nothing_getCachedProductImage (product_image p) w) as Hc.
  destruct (getCachedProductImage E (product_image p) w) as [[c|e] w1];
    cbn [snd] in Hc.
  - assert (Hmiss : exists sent,
       posts (match extractActualProductImage E k (product_image p) (product_name p) w1 with
              | (Ok a, w') => (Ok a, w')
              | (Throw _, w') => convertUrlToBase64 E (product_image p) w'
              end).2 = (posts w ++ sent)%list /\
       at_most_one_extraction k (product_name p) sent).
    { destruct (extractActualProductImage_posts k (product_image p) (product_name p) w1)
        as [sent [Hs Ha]].
      exists sent. split; [|exact Ha].
      destruct (extractActualProductImage E k (product_image p) (product_name p) w1)
        as [[a|e] w2]; cbn [snd] in *.
      - by rewrite Hs, Hc.
      - by rewrite sends_nothing_convertUrlToBase64, Hs, Hc. }
    destruct c as [c|]; [|exact Hmiss].
    destruct (negb (is_empty (cached_image c))); [|exact Hmiss].
    exists []. unfold ret. cbn [snd]. rewrite Hc, app_nil_r. split; [reflexivity|by left].
  - exists []. rewrite sends_nothing_convertUrlToBase64, Hc, app_nil_r.
    split; [reflexivity|by left].
Qed.

(** A pass of the loop that goes through has sent at most one extraction
    request and then the composition request of its item. *)
Lemma outfit_iteration_posts k cur p w next w' :
  outfit_iteration E k cur p w = (Ok next, w') ->
  exists sent img,
    posts w' = (posts w ++ sent ++ [OutfitRequest k cur img (product_name p)])%list /\
    at_most_one_extraction k (product_name p) sent.
Proof.
  unfold outfit_iteration, bind.
  destruct (resolve_product_image_posts k p w) as [sent [Hs Ha]].
  destruct (resolve_product_image E k p w) as [[img|e] w1]; [|discriminate].
  cbn [snd] in Hs. intros Hrun.
  pose proof (compose_product_sends k cur img (product_name p) w1) as Hc.
  rewrite Hrun in Hc. cbn [snd] in Hc.
  exists sent, img. split; [|exact Ha]. by rewrite Hc, Hs, <- app_assoc.
Qed.

Lemma outfit_loop_posts k ps cur w final w' :
  outfit_loop E k ps cur w = (Ok final, w') ->
  exists sent,
    posts w' = (posts w ++ sent)%list /\
    run_requests k ps sent /\
    omap outfit_name sent = map product_name ps.
Proof.
  revert cur w. induction ps as [|p ps IH]; intros cur w.
  - cbn [outfit_loop]. intros [= <- <-]. exists []. rewrite app_nil_r.
    split; [reflexivity|]. split; [constructor|reflexivity].
  - cbn [outfit_loop]. unfold bind.
    destruct (outfit_iteration E k cur p w) as [[next|e] w1] eqn:Hiter; [|discriminate].
    intros Hrest. apply outfit_iteration_posts in Hiter as [sent [img [Hs Ha]]].
    apply IH in Hrest as [later [Hl [Hrun Hnames]]].
    exists (sent ++ OutfitRequest k cur img (product_name p) :: later)%list.
    split; [|split].
    + rewrite Hl, Hs, <- !app_assoc. reflexivity.
    + by constructor.
    + rewrite omap_app. cbn [omap list_omap outfit_name]. rewrite Hnames.
      destruct Ha as [->|[raw ->]]; reflexivity.
Qed.

(** X14. A run of [generateOutfitImage] that resolves has sent, after the
    requests sent before it, the requests of the products one after the
    other in the order of the list: for each product at most one
    extraction request, which carries that product's name, and then
    exactly one composition request for it. *)
Theorem generateOutfitImage_requests_in_order k base ps w image w' :
  generateOutfitImage E k base ps w = (Ok image, w') ->
  exists sent,
    posts w' = (posts w ++ sent)%list /\
    run_requests k ps sent /\
    omap outfit_name sent = map product_name ps.
Proof.
  unfold generateOutfitImage. destruct (is_empty k); [discriminate|]. unfold bind.
  pose proof (sends_nothing_convertUrlToBase64 base w) as Hc.
  destruct (convertUrlToBase64 E base w) as [[cur|e] w1]; [|discriminate].
  cbn [snd] in Hc.
  destruct (outfit_loop E k ps cur w1) as [[final|e] w2] eqn:Hloop; [|discriminate].
  pose proof (sends_nothing_getCacheInfo w2) as Hi.
  destruct (getCacheInfo E w2) as [[info|e] w3]; [|discriminate].
  cbn [snd] in Hi. intros [= <- <-].
  apply outfit_loop_posts in Hloop as [sent [Hs Hrest]].
  exists sent. split; [by rewrite Hi, Hs, Hc|exact Hrest].
Qed.

(** X15. [extractActualProductImage] sends at most one request to the remote
    service, an extraction request with the caller's API key and product
    name, whatever the cache, the network and the storage area do. *)
Theorem extractActualProductImage_at_most_one_request k url name w :
  posts (extractActualProductImage E k url name w).2 = posts w \/
  exists raw,
    posts (extractActualProductImage E k url name w).2 =
      (posts w ++ [ExtractRequest k raw name])%list.
Proof.
  destruct (extractActualProductImage_posts k url name w) as [sent [Hs [->|[raw ->]]]].
  - left. by rewrite Hs, app_nil_r.
  - right. eauto.
Qed.

(** X16. The cache (lookup, write, sweep, clearing, statistics), the
    preloading and the image fetcher never send a request to the remote
    composition service. *)
Theorem maintenance_sends_nothing :
  (forall url, sends_nothing (getCachedProductImage E url)) /\
  (forall url image, sends_nothing (cacheProductImage E url image)) /\
  (forall maxAge, sends_nothing (cleanupOldCachedImages E maxAge)) /\
  sends_nothing (clearProductImageCache E) /\
  sends_nothing (getCacheInfo E) /\
  (forall urls, sends_nothing (preloadProductImages E urls)) /\
  (forall url, sends_nothing (convertUrlToBase64 E url)).
Proof.
  repeat split; auto with quiet;
    auto using sends_nothing_cleanupOldCachedImages, sends_nothing_clearProductImageCache.
  intros urls. unfold preloadProductImages. apply sends_nothing_try_catch.
  - apply sends_nothing_preload_loop.
  - intros e. apply sends_nothing_throw.
Qed.

End RemoteCalls.

Lemma generateOutfitImage_requests_in_order_witness :
  exists sent,
    posts (generateOutfitImage healthy_env sample_key photo_url
             [red_jacket; blue_jeans] empty_world).2 = (posts empty_world ++ sent)%list /\
    run_requests sample_key [red_jacket; blue_jeans] sent /\
    omap outfit_name sent = map product_name [red_jacket; blue_jeans].
Proof.
  apply (generateOutfitImage_requests_in_order healthy_env sample_key photo_url
           [red_jacket; blue_jeans] empty_world generated_data).
  vm_compute. reflexivity.
Defined.

Section Results.
Variable E : Env.

Lemma parse_outfit_response_data name data w image w' :
  parse_outfit_response E name data w = (Ok image, w') ->
  startsWith image "data:" = true.
Proof.
  unfold parse_outfit_response. rewrite try_catch_rethrow.
  unfold bind at 1, lift_res at 1.
  destruct (first_message data) as [m|e]; [|discriminate].
  unfold bind at 1, lift_res at 1.
  destruct (get_prop_checked m "content") as [c|e]; [|discriminate].
  assert (Htext :
    (let! urls := lift_res (match_first_url c) in
     match urls with
     | Some imageUrl => convertUrlToBase64 E imageUrl
     | None => throw (Error ("Failed to generate image for " +:+ name))
     end) w = (Ok image, w') -> startsWith image "data:" = true).
  { unfold bind at 1, lift_res at 1.
    destruct (match_first_url c) as [[imageUrl|]|e];
      [apply convertUrlToBase64_data|discriminate|discriminate]. }
  unfold bind at 1, lift_res at 1.
  destruct (first_image_url E m) as [v|e]; [|discriminate].
  destruct (truthy v); [|exact Htext].
  destruct v as [| |b|n|imageUrl|l|l]; try discriminate.
  destruct (startsWith imageUrl "data:") eqn:Hd.
  - intros [= <- _]. exact Hd.
  - destruct (startsWith imageUrl "http"); [apply convertUrlToBase64_data|exact Htext].
Qed.

Lemma compose_product_data k cur img name w image w' :
  compose_product E k cur img name w = (Ok image, w') ->
  startsWith image "data:" = true.
Proof.
  unfold compose_product, bind, post_request.
  destruct (net_post E (trace w) _) as [e|r]; [discriminate|].
  destruct (api_ok r); cbn [negb]; [|discriminate].
  unfold lift_res. destruct (response_json r) as [data|e]; [|discriminate].
  apply parse_outfit_response_data.
Qed.

Lemma outfit_loop_data k ps cur w final w' :
  outfit_loop E k ps cur w = (Ok final, w') ->
  startsWith cur "data:" = true -> startsWith final "data:" = true.
Proof.
  revert cur w. induction ps as [|p ps IH]; intros cur w; cbn [outfit_loop].
  - by intros [= <- _].
  - unfold bind.
    destruct (outfit_iteration E k cur p w) as [[next|e] w1] eqn:Hiter; [|discriminate].
    intros Hrest _. apply (IH _ _ Hrest).
    unfold outfit_iteration, bind in Hiter.
    destruct (resolve_product_image E k p w) as [[img|e] w0]; [|discriminate].
    by eapply compose_product_data.
Qed.

Lemma outfit_run_data k base ps w image w' :
  outfit_run E k base ps w = (Ok image, w') -> startsWith image "data:" = true.
Proof.
  unfold outfit_run, bind.
  destruct (convertUrlToBase64 E base w) as [[cur|e] w1] eqn:Hc; [|discriminate].
  destruct (outfit_loop E k ps cur w1) as [[final|e] w2] eqn:Hloop; [|discriminate].
  destruct (getCacheInfo E w2) as [[info|e] w3]; [|discriminate].
  intros [= <- _]. eapply outfit_loop_data; [exact Hloop|].
  by eapply convertUrlToBase64_data.
Qed.

Lemma generateOutfitImage_outfit_run k base ps w :
  is_empty k = false -> generateOutfitImage E k base ps w = outfit_run E k base ps w.
Proof. intros Hk. unfold generateOutfitImage. rewrite Hk. reflexivity. Qed.

(** X17. What [generateOutfitImage] resolves to is a non-empty string that
    starts with [data:], for any product list, the empty one included. *)
Theorem generateOutfitImage_resolves_to_data_url k base ps w image w' :
  generateOutfitImage E k base ps w = (Ok image, w') ->
  startsWith image "data:" = true /\ is_empty image = false.
Proof.
  intros Hrun.
  assert (Hdata : startsWith image "data:" = true).
  { unfold generateOutfitImage in Hrun. destruct (is_empty k); [discriminate|].
    by eapply outfit_run_data. }
  split; [exact Hdata|]. by eapply startsWith_nonempty.
Qed.

End Results.

Lemma generateOutfitImage_resolves_to_data_url_witness :
  startsWith generated_data "data:" = true /\ is_empty generated_data = false.
Proof.
  apply (generateOutfitImage_resolves_to_data_url healthy_env sample_key photo_url
           [red_jacket] empty_world generated_data
           (generateOutfitImage healthy_env sample_key photo_url [red_jacket]
              empty_world).2).
  vm_compute. reflexivity.
Defined.

Section Preload.
Variable E : Env.

Lemma preload_one_resolves url w :
  exists r w', preload_one E url w = (Ok r, w') /\ preload_url r = url.
Proof.
  unfold preload_one, try_catch. cbn zeta.
  match goal with |- context [match ?m w with _ => _ end] =>
    destruct (m w) as [[r|e] w'] eqn:Hrun end.
  - exists r, w'. split; [reflexivity|].
    unfold bind in Hrun.
    destruct (getCachedProductImage E url w) as [[c|e] w1]; [|discriminate].
    assert (Hfetch : (let! base64Image := convertUrlToBase64 E url in
                      do! cacheProductImage E url base64Image in
                      ret {| preload_url := url; preload_status := Cached |}) w1
                     = (Ok r, w') -> preload_url r = url).
    { unfold bind, ret.
      destruct (convertUrlToBase64 E url w1) as [[b|e] w2]; [|discriminate].
      destruct (cacheProductImage E url b w2) as [[u|e] w3]; [|discriminate].
      by intros [= <- _]. }
    destruct c as [c|]; [|by apply Hfetch].
    destruct (negb (is_empty (cached_image c))); [|by apply Hfetch].
    by injection Hrun as <- _.
  - eexists _, _. split; reflexivity.
Qed.

Lemma cacheProductImage_total url image w :
  exists w', cacheProductImage E url image w = (Ok tt, w').
Proof.
  unfold cacheProductImage, try_catch, bind, date_now, storage_set, ret.
  destruct (storage_fault E (trace w)); eauto.
Qed.

Lemma logs_only_preload_one url : logs_only (preload_one E url).
Proof.
  assert (Hfetch : logs_only
    (let! base64Image := convertUrlToBase64 E url in
     do! cacheProductImage E url base64Image in
     ret {| preload_url := url; preload_status := Cached |})).
  { apply logs_only_bind; [apply logs_only_convertUrlToBase64|]. intros b.
    apply logs_only_bind; [apply logs_only_cacheProductImage|]. intros _.
    apply logs_only_ret. }
  unfold preload_one. apply logs_only_try_catch.
  - apply logs_only_bind; [apply logs_only_getCachedProductImage|].
    intros [c|]; [|exact Hfetch].
    destruct (negb (is_empty (cached_image c))); [apply logs_only_ret|exact Hfetch].
  - intros e. apply logs_only_ret.
Qed.

(** Only a failed fetch makes a result [failed]: the cache functions keep
    their storage errors to themselves. *)
Lemma preload_one_failure url w r w' :
  preload_one E url w = (Ok r, w') -> failure_is_fetch E w r.
Proof.
  unfold preload_one, try_catch. unfold bind at 1.
  destruct (getCachedProductImage_total E url w) as [c [w1 Hc]].
  pose proof (logs_only_getCachedProductImage E url w) as Hext.
  rewrite Hc in *. cbn [snd] in Hext.
  assert (Hfetch :
    match (let! base64Image := convertUrlToBase64 E url in
           do! cacheProductImage E url base64Image in
           ret {| preload_url := url; preload_status := Cached |}) w1 with
    | (Ok a, w2) => (Ok a, w2)
    | (Throw e, w2) =>
        ret {| preload_url := url; preload_status := Failed (error_message e) |} w2
    end = (Ok r, w') -> failure_is_fetch E w r).
  { unfold bind, ret.
    destruct (convertUrlToBase64 E url w1) as [[b|e] w2] eqn:Hconv.
    - destruct (cacheProductImage_total url b w2) as [w3 ->].
      intros [= <- _] msg Hmsg. discriminate.
    - intros [= <- _] msg [= <-]. exists w1, e.
      split; [exact Hext|]. cbn [preload_url]. split; [by rewrite Hconv|reflexivity]. }
  destruct c as [c|]; [|exact Hfetch].
  destruct (negb (is_empty (cached_image c))); [|exact Hfetch].
  unfold ret. intros [= <- _] msg Hmsg. discriminate.
Qed.

Lemma failure_is_fetch_earlier w w1 r :
  extends w w1 -> failure_is_fetch E w1 r -> failure_is_fetch E w r.
Proof.
  intros Hext Hf msg Hmsg. destruct (Hf msg Hmsg) as [w0 [e [Hw0 He]]].
  exists w0, e. split; [by eapply extends_trans|exact He].
Qed.

Lemma preload_loop_resolves urls results w :
  exists rs w',
    preload_loop E urls results w = (Ok (results ++ rs)%list, w') /\
    map preload_url rs = urls /\
    Forall (failure_is_fetch E w) rs.
Proof.
  revert results w. induction urls as [|u urls IH]; intros results w.
  - exists [], w. rewrite app_nil_r. split; [reflexivity|]. split; [reflexivity|].
    constructor.
  - cbn [preload_loop]. unfold bind.
    destruct (preload_one_resolves u w) as [r [w1 [Hr Hu]]]. rewrite Hr.
    pose proof (logs_only_preload_one u w) as Hext. rewrite Hr in Hext.
    cbn [snd] in Hext.
    destruct (IH (results ++ [r])%list w1) as [rs [w' [Hrs [Hmap Hfail]]]].
    exists (r :: rs), w'. rewrite Hrs, <- app_assoc. split; [reflexivity|]. split.
    + cbn [map]. by rewrite Hu, Hmap.
    + constructor; [by eapply preload_one_failure|].
      eapply Forall_impl; [exact Hfail|].
      intros r'. by apply failure_is_fetch_earlier.
Qed.

(** X18. [preloadProductImages] always resolves, with one result for each
    URL of its argument, in the same order: one image does not stop the
    others. A result is [failed] only when the fetch of its image failed,
    and it carries the message of that error; what the storage area does
    is never reported. *)
Theorem preloadProductImages_one_result_per_url urls w :
  exists rs w',
    preloadProductImages E urls w = (Ok rs, w') /\
    map preload_url rs = urls /\
    Forall (failure_is_fetch E w) rs.
Proof.
  unfold preloadProductImages. rewrite try_catch_rethrow.
  destruct (preload_loop_resolves urls [] w) as [rs [w' [Hrs Hrest]]].
  exists rs, w'. split; [exact Hrs|exact Hrest].
Qed.

Hypothesis Hhealthy : storage_healthy E.

Lemma cached_at_insert m key image ts url key' :
  startsWith image "data:" = true ->
  cached_at m key' ->
  cached_at (<[key := cache_entry image ts url]> m) key'.
Proof.
  intros Hdata [img Himg]. unfold cached_at, js_index.
  destruct (decide (key = key')) as [->|Hne].
  - rewrite lookup_insert_eq. exists image. by apply valid_cache_entry.
  - rewrite lookup_insert_ne by done. by exists img.
Qed.

Lemma cached_at_insert_eq m key image ts url :
  startsWith image "data:" = true ->
  cached_at (<[key := cache_entry image ts url]> m) key.
Proof.
  intros Hdata. unfold cached_at, js_index. rewrite lookup_insert_eq.
  exists image. by apply valid_cache_entry.
Qed.

(** One pass keeps every accepted entry accepted, and leaves one under its
    own key unless it failed. *)
Lemma preload_one_cached url w :
  (forall key, cached_at (storage w) key ->
               cached_at (storage (preload_one E url w).2) key) /\
  (forall r, (preload_one E url w).1 = Ok r -> preloaded r = true ->
             cached_at (storage (preload_one E url w).2) (cacheKey_of url)).
Proof.
  unfold preload_one, try_catch, bind. cbn zeta.
  rewrite getCachedProductImage_answer by apply Hhealthy. cbn zeta.
  set (key := cacheKey_of url).
  (* the fetch-and-cache path from a storage area [m] *)
  assert (Hfetch : forall w1,
    (forall key', cached_at (storage w) key' -> cached_at (storage w1) key') ->
    let run :=
      match
        match convertUrlToBase64 E url w1 with
        | (Ok a, w') =>
            match cacheProductImage E url a w' with
            | (Ok _, w'0) =>
                ret {| preload_url := url; preload_status := Cached |} w'0
            | (Throw e, w'0) => (Throw e, w'0)
            end
        | (Throw e, w') => (Throw e, w')
        end
      with
      | (Ok a, w') => (Ok a, w')
      | (Throw e, w') =>
          ret {| preload_url := url;
                 preload_status := Failed (error_message e) |} w'
      end in
    (forall key', cached_at (storage w) key' -> cached_at (storage run.2) key') /\
    (forall r, run.1 = Ok r -> preloaded r = true ->
               cached_at (storage run.2) key)).
  { intros w1 Hkeep run. subst run.
    destruct (convertUrlToBase64_run E url w1) as [res Hres].
    pose proof (convertUrlToBase64_data E url w1) as Hdata.
    rewrite Hres in *. destruct res as [b|e].
    - rewrite cacheProductImage_healthy by apply Hhealthy.
      unfold ret. cbn [fst snd storage set_storage log].
      specialize (Hdata b _ eq_refl). split.
      + intros key' Hc. apply cached_at_insert; [exact Hdata|]. by apply Hkeep.
      + intros _ _ _. by apply cached_at_insert_eq.
    - unfold ret. cbn [fst snd storage log]. split; [exact Hkeep|].
      intros r [= <-]. discriminate. }
  destruct (truthy (js_index (storage w) key) &&
            truthy (get_prop (js_index (storage w) key) "image")) eqn:Ht.
  - destruct (valid_cached_item (js_index (storage w) key)) as [image|] eqn:Hv.
    + cbn [cached_image].
      destruct (valid_cached_item_image_like _ _ Hv) as [_ Hdata].
      rewrite (startsWith_nonempty _ _ Hdata eq_refl). cbn [negb].
      unfold ret. cbn [fst snd storage log]. split; [auto|].
      intros _ _ _. by exists image.
    + apply Hfetch. intros key' [img Himg]. cbn [storage set_storage log].
      exists img. unfold js_index in *.
      destruct (decide (key = key')) as [<-|Hne]; [congruence|].
      by rewrite lookup_delete_ne.
  - apply Hfetch. auto.
Qed.

Lemma preload_loop_cached urls results w rs w' :
  preload_loop E urls results w = (Ok rs, w') ->
  (forall key, cached_at (storage w) key -> cached_at (storage w') key) /\
  exists new, rs = (results ++ new)%list /\
    forall r, r ∈ new -> preloaded r = true ->
              cached_at (storage w') (cacheKey_of (preload_url r)).
Proof.
  revert results w. induction urls as [|u urls IH]; intros results w.
  - cbn [preload_loop]. intros [= <- <-]. split; [auto|].
    exists []. rewrite app_nil_r. split; [reflexivity|]. intros r Hr. inversion Hr.
  - cbn [preload_loop]. unfold bind.
    destruct (preload_one_cached u w) as [Hkeep Hown].
    destruct (preload_one_resolves u w) as [r [w1 [Hr Hu]]].
    rewrite Hr in *. cbn [fst snd] in *.
    intros Hrest. destruct (IH _ _ Hrest) as [Hkeep' [new [-> Hnew]]].
    split; [auto|]. exists (r :: new). rewrite <- app_assoc. split; [reflexivity|].
    intros r' Hin Hok. apply elem_of_cons in Hin as [->|Hin]; [|by apply Hnew].
    apply Hkeep'. rewrite Hu. exact (Hown r eq_refl Hok).
Qed.

(** X19. While the storage area works, an image that [preloadProductImages]
    reported as [cached] or [already_cached] is resolved by the
    [extractActualProductImage] that follows from the cache alone: one storage read,
    no fetch and no request to the remote service. *)
Theorem preloaded_images_skip_the_remote_service urls w rs w' k name r :
  preloadProductImages E urls w = (Ok rs, w') ->
  r ∈ rs -> preloaded r = true ->
  exists image,
    extractActualProductImage E k (preload_url r) name w' =
      (Ok image, log (EvStorageGet (Some [cacheKey_of (preload_url r)])) w').
Proof.
  unfold preloadProductImages. rewrite try_catch_rethrow. intros Hrun Hin Hok.
  apply preload_loop_cached in Hrun as [_ [new [-> Hnew]]].
  destruct (Hnew r Hin Hok) as [image Himage].
  exists image. by apply extractActualProductImage_hit.
Qed.

End Preload.

Lemma preloaded_images_skip_the_remote_service_witness :
  exists image,
    extractActualProductImage healthy_env sample_key jacket_url "Red Jacket"
      preloaded_world =
      (Ok image, log (EvStorageGet (Some [cacheKey_of jacket_url])) preloaded_world).
Proof.
  apply (preloaded_images_skip_the_remote_service healthy_env healthy_env_healthy
           [jacket_url] empty_world
           [ {| preload_url := jacket_url; preload_status := Cached |} ]
           preloaded_world sample_key "Red Jacket"
           {| preload_url := jacket_url; preload_status := Cached |}).
  - vm_compute. reflexivity.
  - apply list_elem_of_here.
  - reflexivity.
Defined.

Section Handler.
Variable E : Env.

Lemma lookup_filter_settings (m : gmap string JsVal) k :
  k ∈ settings_keys ->
  js_index (filter (fun kv : string * JsVal => kv.1 ∈ settings_keys) m) k = js_index m k.
Proof.
  intros Hk. unfold js_index. destruct (m !! k) as [v|] eqn:Hm.
  - by rewrite (map_lookup_filter_Some_2 _ m k v Hm Hk).
  - rewrite map_lookup_filter_None_2; [done|by left].
Qed.

Lemma retrieveStoredData_run w :
  storage_fault E (trace w) = None ->
  retrieveStoredData E w =
    (if negb (truthy (js_index (storage w) "openRouterApiKey")) then
       Throw (Error "API key not found. Please configure the extension first.")
     else if negb (truthy (js_index (storage w) "userImage")) then
       Throw (Error "User image not found. Please upload a photo first.")
     else Ok {| stored_apiKey := js_index (storage w) "openRouterApiKey";
                stored_userImage := js_index (storage w) "userImage" |},
     log (EvStorageGet (Some settings_keys)) w).
Proof.
  intros Hok. unfold retrieveStoredData. rewrite try_catch_rethrow.
  unfold bind, storage_get. rewrite Hok. fold settings_keys.
  rewrite !lookup_filter_settings by (unfold settings_keys; set_solver).
  destruct (negb (truthy (js_index (storage w) "openRouterApiKey"))); [reflexivity|].
  destruct (negb (truthy (js_index (storage w) "userImage"))); reflexivity.
Qed.

Lemma retrieveStoredData_resolved w sd w' :
  retrieveStoredData E w = (Ok sd, w') ->
  truthy (stored_apiKey sd) = true /\ truthy (stored_userImage sd) = true /\
  stored_apiKey sd = js_index (storage w) "openRouterApiKey" /\
  stored_userImage sd = js_index (storage w) "userImage" /\
  w' = log (EvStorageGet (Some settings_keys)) w.
Proof.
  destruct (storage_fault E (trace w)) as [e|] eqn:Hf.
  - unfold retrieveStoredData. rewrite try_catch_rethrow.
    unfold bind, storage_get. rewrite Hf. discriminate.
  - rewrite retrieveStoredData_run by exact Hf.
    destruct (truthy (js_index (storage w) "openRouterApiKey")) eqn:Hk;
      cbn [negb]; [|discriminate].
    destruct (truthy (js_index (storage w) "userImage")) eqn:Hu;
      cbn [negb]; [|discriminate].
    intros [= <- <-]. cbn. auto.
Qed.

Lemma handleStyleMeRequestWithData_resolves data tabId w :
  exists m w', handleStyleMeRequestWithData E data tabId w = (Ok (tabId, m), w').
Proof.
  unfold handleStyleMeRequestWithData, try_catch, sendErrorToTab, sendSuccessToTab, ret.
  match goal with |- context [match ?m w with _ => _ end] =>
    destruct (m w) as [[[t m0]|e] w'] eqn:Hrun end; [|eauto].
  exists m0, w'. f_equal. f_equal. f_equal.
  unfold bind in Hrun.
  destruct (retrieveStoredData E w) as [[sd|e] w1]; [|discriminate].
  destruct (negb (truthy (stored_apiKey sd)) || negb (truthy (stored_userImage sd)));
    [by injection Hrun|].
  destruct (call_generateOutfitImage E _ _ _ w1) as [[img|e] w2]; [|discriminate].
  destruct (is_empty img); [discriminate|]. by injection Hrun.
Qed.

(** X20. With a storage area that answers, a request without an API key
    tells the tab [API key not found. ...], and one with a key and
    without a user image tells it [User image not found. ...]; nothing is
    fetched and nothing is sent to the remote service. The handler's own
    message [Missing API key or user image. ...] is never the one sent in
    these cases. *)
Theorem handleStyleMeRequestWithData_missing_settings data tabId w :
  storage_fault E (trace w) = None ->
  (truthy (js_index (storage w) "openRouterApiKey") = false ->
   handleStyleMeRequestWithData E data tabId w =
     (Ok (tabId, StyleMeError "API key not found. Please configure the extension first."),
      log (EvStorageGet (Some settings_keys)) w)) /\
  (truthy (js_index (storage w) "openRouterApiKey") = true ->
   truthy (js_index (storage w) "userImage") = false ->
   handleStyleMeRequestWithData E data tabId w =
     (Ok (tabId, StyleMeError "User image not found. Please upload a photo first."),
      log (EvStorageGet (Some settings_keys)) w)).
Proof.
  intros Hok. unfold handleStyleMeRequestWithData, try_catch, bind.
  rewrite retrieveStoredData_run by exact Hok. split.
  - intros ->. reflexivity.
  - intros -> ->. reflexivity.
Qed.

(** X21. With both settings stored as non-empty strings, the handler runs
    [generateOutfitImage] with the stored key, the photo of the message
    if it has one and the stored photo otherwise, and the products of
    the message; it tells the tab the generated image when the run
    resolves, and the run's error message (or [Failed to generate style]
    for an empty one) when it rejects. *)
Theorem handleStyleMeRequestWithData_reports_the_run data tabId w k u ps :
  storage_fault E (trace w) = None ->
  storage w !! "openRouterApiKey" = Some (JStr k) -> is_empty k = false ->
  storage w !! "userImage" = Some (JStr u) -> is_empty u = false ->
  click_products data = Some ps ->
  let photo := match click_userImage data with Some chosen => chosen | None => u end in
  let run := generateOutfitImage E k photo ps (log (EvStorageGet (Some settings_keys)) w) in
  handleStyleMeRequestWithData E data tabId w =
    (Ok (tabId, match run.1 with
                | Ok image => StyleMeSuccess image
                | Throw e => shown_error e
                end), run.2).
Proof.
  intros Hok Hk Hkne Hu Hune Hps.
  assert (Hcall : forall photo,
    let run := generateOutfitImage E k photo ps
                 (log (EvStorageGet (Some settings_keys)) w) in
    (let (r, w') := run in
     match r with
     | Ok a =>
         (if is_empty a
          then throw (Error "Failed to generate outfit. Please try again.")
          else ret (sendSuccessToTab tabId a)) w'
     | Throw e => (Throw e, w')
     end) =
    (match run.1 with
     | Ok image => Ok (tabId, StyleMeSuccess image)
     | Throw e => Throw e
     end, run.2)).
  { intros photo run. destruct run as [[image|e] w2] eqn:Hrun; [|reflexivity].
    assert (Hne : is_empty image = false).
    { subst run. rewrite generateOutfitImage_outfit_run in Hrun by exact Hkne.
      apply outfit_run_data in Hrun. by eapply startsWith_nonempty. }
    rewrite Hne. reflexivity. }
  unfold handleStyleMeRequestWithData, try_catch, bind.
  rewrite retrieveStoredData_run by exact Hok.
  unfold js_index. rewrite Hk, Hu. unfold call_generateOutfitImage.
  do 3 (cbn -[generateOutfitImage]; rewrite ?Hkne, ?Hune, ?Hps).
  destruct (click_userImage data) as [chosen|]; cbn -[generateOutfitImage];
    rewrite Hcall;
    match goal with |- context [generateOutfitImage E k ?p ps ?w0] =>
      destruct (generateOutfitImage E k p ps w0) as [[image|e] w2] end;
    reflexivity.
Qed.

(** X22. What the message listener does is fixed by the kind of message.
    The four cache requests are always answered through [sendResponse]. A
    [STYLE_ME_CLICKED] message with products from a sender with a tab
    always ends with one message to that tab. A [STYLE_ME_CLICKED] message
    without data or products, and a message of any other type, is ignored
    and changes nothing. The listener throws in one case only: a
    [STYLE_ME_CLICKED] message with products from a sender without a tab,
    where reading [sender.tab.id] is a [TypeError] before anything is
    done. *)
Theorem onMessage_outcome message w :
  match message with
  | StyleMeClicked (Some d) tab =>
      match click_products d, tab with
      | Some _, Some tabId =>
          exists m w', onMessage E message w = (Ok (ToldTab tabId m), w')
      | Some _, None =>
          exists text, onMessage E message w = (Throw (TypeError text), w)
      | None, _ => onMessage E message w = (Ok Ignored, w)
      end
  | StyleMeClicked None _ | OtherMessage _ =>
      onMessage E message w = (Ok Ignored, w)
  | _ => exists r w', onMessage E message w = (Ok (Responded r), w')
  end.
Proof.
  destruct message as [data tab| | |url|urls|t]; unfold onMessage.
  - destruct data as [d|]; [|reflexivity].
    destruct (click_products d); [|reflexivity].
    destruct tab as [tabId|]; [|unfold throw; eauto].
    unfold bind.
    destruct (handleStyleMeRequestWithData_resolves d tabId w) as [m [w' ->]].
    unfold ret. cbn [fst snd]. eauto.
  - unfold try_catch, ret.
    match goal with |- context [match ?m w with _ => _ end] =>
      destruct (m w) as [[o|e] w'] eqn:Hrun end; [|eauto].
    unfold bind in Hrun. destruct (clearProductImageCache E w) as [[u|e] w1];
      [|discriminate]. injection Hrun as <- <-. eauto.
  - unfold try_catch, ret.
    match goal with |- context [match ?m w with _ => _ end] =>
      destruct (m w) as [[o|e] w'] eqn:Hrun end; [|eauto].
    unfold bind in Hrun. destruct (getCacheInfoInternal E w) as [[u|e] w1];
      [|discriminate]. injection Hrun as <- <-. eauto.
  - unfold try_catch, ret.
    match goal with |- context [match ?m w with _ => _ end] =>
      destruct (m w) as [[o|e] w'] eqn:Hrun end; [|eauto].
    unfold bind in Hrun. destruct (getCachedProductImage E url w) as [[u|e] w1];
      [|discriminate]. injection Hrun as <- <-. eauto.
  - unfold try_catch, ret.
    match goal with |- context [match ?m w with _ => _ end] =>
      destruct (m w) as [[o|e] w'] eqn:Hrun end; [|eauto].
    unfold bind in Hrun. destruct (preloadProductImages E urls w) as [[u|e] w1];
      [|discriminate]. injection Hrun as <- <-. eauto.
  - reflexivity.
Qed.

(** X23. When the storage area rejects the read, [CLEAR_PRODUCT_CACHE] is
    still answered as a success, [CHECK_IMAGE_CACHED] is answered as a
    success with an image that is not cached, and only [GET_CACHE_INFO]
    answers with the failure and its message. *)
Theorem onMessage_when_storage_fails w e url :
  storage_fault E (trace w) = Some e ->
  onMessage E ClearProductCache w =
    (Ok (Responded CacheCleared), log (EvStorageGet None) w) /\
  onMessage E (CheckImageCached url) w =
    (Ok (Responded (ImageCachedResponse false false)),
     log (EvStorageGet (Some [cacheKey_of url])) w) /\
  onMessage E GetCacheInfo w =
    (Ok (Responded (FailureResponse (error_message e))), log (EvStorageGet None) w).
Proof.
  intros Hfail. unfold onMessage, try_catch, bind. split; [|split].
  - unfold clearProductImageCache, try_catch, bind.
    rewrite (storage_get_fault E _ _ _ Hfail). reflexivity.
  - unfold getCachedProductImage, try_catch, bind.
    rewrite (storage_get_fault E _ _ _ Hfail). reflexivity.
  - unfold getCacheInfoInternal, getCacheInfo, try_catch, bind.
    rewrite (storage_get_fault E _ _ _ Hfail). reflexivity.
Qed.

Hypothesis Hhealthy : storage_healthy E.

(** X24. While the storage area works, the answer to [CHECK_IMAGE_CACHED]
    has [isCached] equal to [hasImage], and they are true exactly when
    the key of the URL holds an entry that the cache accepts. *)
Theorem onMessage_check_image_cached url w :
  exists cached w',
    onMessage E (CheckImageCached url) w =
      (Ok (Responded (ImageCachedResponse cached cached)), w') /\
    (cached = true <-> cached_at (storage w) (cacheKey_of url)).
Proof.
  unfold onMessage, try_catch, bind.
  rewrite getCachedProductImage_answer by apply Hhealthy. cbn zeta.
  destruct (truthy (js_index (storage w) (cacheKey_of url)) &&
            truthy (get_prop (js_index (storage w) (cacheKey_of url)) "image")) eqn:Ht.
  - destruct (valid_cached_item (js_index (storage w) (cacheKey_of url)))
      as [image|] eqn:Hv.
    + destruct (valid_cached_item_image_like _ _ Hv) as [_ Hdata].
      unfold ret. cbn [cached_image]. rewrite (startsWith_nonempty _ _ Hdata eq_refl).
      exists true. eexists. split; [reflexivity|]. split; [|done].
      intros _. by exists image.
    + exists false. eexists. split; [reflexivity|]. split; [done|].
      intros [image Himage]. congruence.
  - exists false. eexists. split; [reflexivity|]. split; [done|].
    intros [image Himage]. unfold valid_cached_item in Himage.
    rewrite Ht in Himage. discriminate.
Qed.

End Handler.

Lemma handleStyleMeRequestWithData_missing_settings_witness :
  (truthy (js_index (storage empty_world) "openRouterApiKey") = false ->
   handleStyleMeRequestWithData healthy_env jacket_click 7 empty_world =
     (Ok (7, StyleMeError "API key not found. Please configure the extension first."),
      log (EvStorageGet (Some settings_keys)) empty_world)) /\
  (truthy (js_index (storage empty_world) "openRouterApiKey") = true ->
   truthy (js_index (storage empty_world) "userImage") = false ->
   handleStyleMeRequestWithData healthy_env jacket_click 7 empty_world =
     (Ok (7, StyleMeError "User image not found. Please upload a photo first."),
      log (EvStorageGet (Some settings_keys)) empty_world)).
Proof.
  apply (handleStyleMeRequestWithData_missing_settings healthy_env jacket_click 7
           empty_world).
  reflexivity.
Defined.

Lemma handleStyleMeRequestWithData_reports_the_run_witness :
  handleStyleMeRequestWithData healthy_env jacket_click 7 configured_world =
    (Ok (7, match (generateOutfitImage healthy_env sample_key photo_url [red_jacket]
                     (log (EvStorageGet (Some settings_keys)) configured_world)).1 with
            | Ok image => StyleMeSuccess image
            | Throw e => shown_error e
            end),
     (generateOutfitImage healthy_env sample_key photo_url [red_jacket]
        (log (EvStorageGet (Some settings_keys)) configured_world)).2).
Proof.
  apply (handleStyleMeRequestWithData_reports_the_run healthy_env jacket_click 7
           configured_world sample_key photo_url [red_jacket]); reflexivity.
Defined.

Lemma onMessage_when_storage_fails_witness :
  onMessage storage_down_env ClearProductCache empty_world =
    (Ok (Responded CacheCleared), log (EvStorageGet None) empty_world) /\
  onMessage storage_down_env (CheckImageCached jacket_url) empty_world =
    (Ok (Responded (ImageCachedResponse false false)),
     log (EvStorageGet (Some [cacheKey_of jacket_url])) empty_world) /\
  onMessage storage_down_env GetCacheInfo empty_world =
    (Ok (Responded (FailureResponse (error_message (Error "storage unavailable")))),
     log (EvStorageGet None) empty_world).
Proof.
  apply (onMessage_when_storage_fails storage_down_env empty_world
           (Error "storage unavailable") jacket_url).
  reflexivity.
Defined.

Lemma onMessage_check_image_cached_witness :
  exists cached w',
    onMessage healthy_env (CheckImageCached jacket_url) warm_world =
      (Ok (Responded (ImageCachedResponse cached cached)), w') /\
    (cached = true <-> cached_at (storage warm_world) (cacheKey_of jacket_url)).
Proof.
  apply (onMessage_check_image_cached healthy_env healthy_env_healthy jacket_url
           warm_world).
Defined.

(** * Sample runs *)

Example generateUrlHash_a : generateUrlHash "a" = "2p".
Proof. reflexivity. Qed.

Example generateUrlHash_jacket : generateUrlHash jacket_url = "1xikfe".
Proof. vm_compute. reflexivity. Qed.

Example cacheKey_of_jacket : cacheKey_of jacket_url = "productImage_1xikfe".
Proof. vm_compute. reflexivity. Qed.

Example first_url_leftmost :
  first_url "see http://a.b/c.png and https://x" = Some "http://a.b/c.png".
Proof. vm_compute. reflexivity. Qed.

Example first_url_needs_body : first_url "see https:// http://x y" = Some "http://x".
Proof. vm_compute. reflexivity. Qed.

Example first_url_none : first_url "no image was generated" = None.
Proof. vm_compute. reflexivity. Qed.

Example replace_data_prefix_retag :
  replace_data_prefix "data:application/octet-stream;base64,AAA" "data:image/png;base64,"
  = "data:image/png;base64,AAA".
Proof. vm_compute. reflexivity. Qed.

Example mime_from_pathname_webp : mime_from_pathname "/a/b.webp" = "image/webp".
Proof. vm_compute. reflexivity. Qed.

Example mime_from_pathname_default : mime_from_pathname "/a/b" = "image/jpeg".
Proof. vm_compute. reflexivity. Qed.

(** The end-to-end example: one item, a service that always answers with
    a generated PNG. *)
Example generateOutfitImage_end_to_end :
  (generateOutfitImage healthy_env sample_key photo_url [red_jacket] empty_world).1 =
    Ok generated_data /\
  history (generateOutfitImage healthy_env sample_key photo_url [red_jacket] empty_world).2 =
    [EvFetch photo_url;
     EvStorageGet (Some ["productImage_1xikfe"]);
     EvStorageGet (Some ["productImage_1xikfe"]);
     EvFetch jacket_url;
     EvStorageSet "productImage_1xikfe" (cache_entry fetched_data 1700000000004 jacket_url);
     EvPost (ExtractRequest sample_key fetched_data "Red Jacket");
     EvStorageSet "productImage_1xikfe" (cache_entry generated_data 1700000000006 jacket_url);
     EvPost (OutfitRequest sample_key fetched_data generated_data "Red Jacket");
     EvStorageGet None].
Proof. vm_compute. auto. Qed.

(** Three items, the composition of the second one fails: the run ends
    there, after four remote calls, and the third item is never touched. *)
Example generateOutfitImage_second_of_three_fails :
  (generateOutfitImage jeans_fail_env sample_key photo_url
     [red_jacket; blue_jeans; green_hat] empty_world).1 =
    Throw (Error "OpenRouter API Error for Blue Jeans: 500 internal error") /\
  remote_calls (generateOutfitImage jeans_fail_env sample_key photo_url
                  [red_jacket; blue_jeans; green_hat] empty_world).2 = 4%nat.
Proof. vm_compute. auto. Qed.

(** The extraction is refused: the raw image is fetched again and
    composed. *)
Example generateOutfitImage_extraction_refused :
  (generateOutfitImage extraction_refused_env sample_key photo_url [red_jacket]
     empty_world).1 = Ok generated_data /\
  history (generateOutfitImage extraction_refused_env sample_key photo_url [red_jacket]
             empty_world).2 =
    [EvFetch photo_url;
     EvStorageGet (Some ["productImage_1xikfe"]);
     EvStorageGet (Some ["productImage_1xikfe"]);
     EvFetch jacket_url;
     EvStorageSet "productImage_1xikfe" (cache_entry fetched_data 1700000000004 jacket_url);
     EvPost (ExtractRequest sample_key fetched_data "Red Jacket");
     EvFetch jacket_url;
     EvPost (OutfitRequest sample_key fetched_data fetched_data "Red Jacket");
     EvStorageGet None].
Proof. vm_compute. auto. Qed.

(** A sweep with an age limit of one millisecond, one millisecond after
    the newer entry was written: that entry stays. *)
Example cleanup_boundary_entry_kept :
  map_to_list (storage (cleanupOldCachedImages healthy_env (Some 1) sweep_world).2) =
    [("openRouterApiKey", JStr "sk-or-v1-abc");
     ("productImage_new",
      cache_entry "data:image/png;base64,BBBB" 1700000000000 "https://example.com/b.png")].
Proof. vm_compute. reflexivity. Qed.

Example setupCacheCleanup_sample :
  timers (setupCacheCleanup healthy_env sweep_world).2 = [(21600000, CleanupTask)] /\
  map_to_list (storage (setupCacheCleanup healthy_env sweep_world).2) =
    [("openRouterApiKey", JStr "sk-or-v1-abc");
     ("productImage_new",
      cache_entry "data:image/png;base64,BBBB" 1700000000000 "https://example.com/b.png")].
Proof. vm_compute. auto. Qed.

Example clearProductImageCache_sample :
  map_to_list (storage (clearProductImageCache healthy_env sweep_world).2) =
    [("openRouterApiKey", JStr "sk-or-v1-abc")].
Proof. vm_compute. reflexivity. Qed.

Example convertUrlToBase64_upper_case_extension :
  (convertUrlToBase64 untyped_env photo_url empty_world).1 =
    Ok "data:image/png;base64,iVBORw0KGgo=".
Proof. vm_compute. reflexivity. Qed.

Example handleStyleMeRequestWithData_sample :
  (handleStyleMeRequestWithData healthy_env jacket_click 7 configured_world).1 =
    Ok (7, StyleMeSuccess generated_data).
Proof. vm_compute. reflexivity. Qed.

Example onMessage_preload_sample :
  (onMessage healthy_env (PreloadProductImages [jacket_url; jacket_url]) empty_world).1 =
    Ok (Responded (PreloadResponse
          [ {| preload_url := jacket_url; preload_status := Cached |};
            {| preload_url := jacket_url; preload_status := AlreadyCached |} ])).
Proof. vm_compute. reflexivity. Qed.

Example parse_outfit_response_samples :
  parse_outfit_response healthy_env "Red Jacket"
    (chat_completion (image_and_text (JStr generated_data) linked_text)) empty_world =
    (Ok generated_data, empty_world) /\
  parse_outfit_response healthy_env "Red Jacket"
    (chat_completion (image_and_text (JStr "https://img.example.com/a.png") linked_text))
    empty_world =
    (Ok fetched_data, log (EvFetch "https://img.example.com/a.png") empty_world) /\
  parse_outfit_response healthy_env "Red Jacket"
    (chat_completion (image_and_text (JStr "blob:1f0c") linked_text)) empty_world =
    (Ok fetched_data, log (EvFetch "https://cdn.example.com/out.png") empty_world) /\
  parse_outfit_response healthy_env "Red Jacket"
    (chat_completion (text_message (JStr linked_text))) empty_world =
    (Ok fetched_data, log (EvFetch "https://cdn.example.com/out.png") empty_world) /\
  parse_outfit_response healthy_env "Red Jacket"
    (chat_completion (text_message (JStr "I cannot edit this image."))) empty_world =
    (Throw (Error "Failed to generate image for Red Jacket"), empty_world).
Proof. vm_compute. auto. Qed.

Example generateOutfitImage_refusal_names_the_item :
  (generateOutfitImage (jeans_answer_env refusal_response) sample_key photo_url
     [red_jacket; blue_jeans; green_hat] empty_world).1 =
    Throw (Error "Failed to generate image for Blue Jeans").
Proof. vm_compute. reflexivity. Qed.

Example extraction_supersedes_raw_sample :
  (extractActualProductImage healthy_env sample_key jacket_url "Red Jacket"
     empty_world).1 = Ok generated_data /\
  storage miss_cached_world !! cacheKey_of jacket_url = Some raw_jacket_entry /\
  storage warm_world !! cacheKey_of jacket_url =
    Some (cache_entry generated_data (clock healthy_env (trace miss_posted_world))
            jacket_url) /\
  history warm_world =
    [EvStorageGet (Some [cacheKey_of jacket_url]); EvFetch jacket_url;
     EvStorageSet (cacheKey_of jacket_url) raw_jacket_entry;
     EvPost (ExtractRequest sample_key fetched_data "Red Jacket");
     EvStorageSet (cacheKey_of jacket_url)
       (cache_entry generated_data (clock healthy_env (trace miss_posted_world))
          jacket_url)].
Proof. vm_compute. auto. Qed.

Example preloadProductImages_storage_down :
  preloadProductImages storage_down_env [jacket_url] empty_world =
    (Ok [ {| preload_url := jacket_url; preload_status := Cached |} ],
     {| storage := ∅; timers := [];
        trace := [EvStorageSet (cacheKey_of jacket_url)
                    (cache_entry fetched_data
                       (clock storage_down_env
                          [EvFetch jacket_url;
                           EvStorageGet (Some [cacheKey_of jacket_url])])
                       jacket_url);
                  EvFetch jacket_url;
                  EvStorageGet (Some [cacheKey_of jacket_url])] |}).
Proof. vm_compute. reflexivity. Qed.

Example onMessage_sender_without_tab :
  onMessage healthy_env (StyleMeClicked (Some jacket_click) None) configured_world =
    (Throw (TypeError "Cannot read properties of undefined (reading 'id')"),
     configured_world) /\
  (onMessage healthy_env (StyleMeClicked (Some jacket_click) (Some 7))
     configured_world).1 = Ok (ToldTab 7 (StyleMeSuccess generated_data)).
Proof. vm_compute. auto. Qed.
